(** * sphinx-jsonschema: the schema loader and the nested formatter

    A shallow embedding of [sphinx-jsonschema/__init__.py] (the [jsonschema]
    directive: loading, pointer narrowing, hide/show editing) and of
    [sphinx-jsonschema/nested_format.py] (the recursive formatter), with the
    properties of the specification stated over it.

    Python objects are mutable and shared: the loaded schema and the
    snapshot [orig_schema] live in one object store, a value restored by
    [show] is the very object of the snapshot, and an exception leaves the
    store as the statements before it made it.  The loader is therefore
    written in a state-and-exception monad over a store of list and dict
    cells; the formatter only reads the schema and is written over plain
    trees.

    The semantics is that of Python 3: the inline content of the directive
    is a [str], the body of an http response is [bytes], and an open file is
    a stream that can be rewound.  The YAML and JSON parsers, the reStructured
    text parser and the other services of docutils are parameters of the
    sections that use them. *)

From Stdlib Require Import ZArith String Ascii List Bool Lia.
From stdpp Require Import base list.
Import ListNotations.
Local Open Scope string_scope.
Local Open Scope list_scope.

Set Warnings "-register-all".

(** ** Values *)

(** A schema as the parsers deliver it: mappings keep their insertion order
    (an association list); numbers are integers here, they are leaves for
    every operation below.  [JEnd doc] is jsonpointer's [EndOfList(doc)],
    the object that walking a sequence with the segment "-" returns. *)
Unset Elimination Schemes.
Inductive json : Type :=
| JNull
| JBool (b : bool)
| JNum (n : Z)
| JStr (s : string)
| JArr (items : list json)
| JObj (items : list (string * json))
| JEnd (doc : json).
Set Elimination Schemes.

(** The exception classes that the two modules and the libraries they call
    can raise. *)
Inductive exc : Type :=
| JsonPointerException
| KeyError
| IndexError
| TypeError
| ValueError
| AttributeError
| UnboundLocalError
| RecursionError
| PyException (msg : string)
| ScannerError
| ParseError (what : string).

Inductive result (A : Type) : Type :=
| Ok (a : A)
| Raise (e : exc).
Arguments Ok {A} a.
Arguments Raise {A} e.

Definition rbind {A B} (r : result A) (k : A -> result B) : result B :=
  match r with
  | Ok a => k a
  | Raise e => Raise e
  end.

(** ** Strings *)

Module Str.

(** [s.split(sep)] for a one-character separator. *)
Fixpoint split (sep : ascii) (s : string) : list string :=
  match s with
  | EmptyString => [EmptyString]
  | String c s' =>
      if Ascii.eqb c sep then EmptyString :: split sep s'
      else match split sep s' with
           | [] => [String c EmptyString]
           | w :: ws => String c w :: ws
           end
  end.

(** [s.replace(ab, r)] for a two-character pattern and a one-character
    replacement. *)
Fixpoint replace_pair (a b r : ascii) (s : string) : string :=
  match s with
  | EmptyString => EmptyString
  | String c tl =>
      match tl with
      | String d rest =>
          if Ascii.eqb c a && Ascii.eqb d b
          then String r (replace_pair a b r rest)
          else String c (replace_pair a b r tl)
      | EmptyString => s
      end
  end.

Definition is_digit (c : ascii) : bool :=
  (48 <=? nat_of_ascii c)%nat && (nat_of_ascii c <=? 57)%nat.

Fixpoint all_digits (s : string) : bool :=
  match s with
  | EmptyString => true
  | String c s' => is_digit c && all_digits s'
  end.

Fixpoint digits_value (acc : nat) (s : string) : nat :=
  match s with
  | EmptyString => acc
  | String c s' => digits_value (10 * acc + (nat_of_ascii c - 48)) s'
  end.

(** [int(s)] on a string of decimal digits; anything else is the
    ValueError of [int]. *)
Definition int (s : string) : result nat :=
  match s with
  | EmptyString => Raise ValueError
  | _ => if all_digits s then Ok (digits_value 0 s) else Raise ValueError
  end.

Fixpoint is_prefix (p s : string) : bool :=
  match p, s with
  | EmptyString, _ => true
  | String a p', String b s' => Ascii.eqb a b && is_prefix p' s'
  | String _ _, EmptyString => false
  end.

(** [p in s] on strings. *)
Fixpoint contains (p s : string) : bool :=
  is_prefix p s ||
  match s with
  | EmptyString => false
  | String _ s' => contains p s'
  end.

(** [s[n]]: the one-character string at index [n]. *)
Definition char_at (n : nat) (s : string) : option string :=
  match String.get n s with
  | Some c => Some (String c EmptyString)
  | None => None
  end.

Fixpoint chars (s : string) : list string :=
  match s with
  | EmptyString => []
  | String c s' => String c EmptyString :: chars s'
  end.

Fixpoint join (sep : string) (l : list string) : string :=
  match l with
  | [] => EmptyString
  | [x] => x
  | x :: r => x ++ sep ++ join sep r
  end.

End Str.

(** ** Ordered mappings *)

(** A dict as the association list of its items, in insertion order. *)
Module Dict.
Section Ops.
Context {V : Type}.
Implicit Types (d : list (string * V)).

Fixpoint get (k : string) d : option V :=
  match d with
  | [] => None
  | (k', v) :: r => if String.eqb k k' then Some v else get k r
  end.

Definition mem (k : string) d : bool :=
  match get k d with Some _ => true | None => false end.

(** [d[k] = v]: an existing key keeps its place, a new key goes last. *)
Fixpoint set (k : string) (v : V) d : list (string * V) :=
  match d with
  | [] => [(k, v)]
  | (k', v') :: r =>
      if String.eqb k k' then (k', v) :: r else (k', v') :: set k v r
  end.

(** [del d[k]]. *)
Fixpoint del (k : string) d : list (string * V) :=
  match d with
  | [] => []
  | (k', v') :: r =>
      if String.eqb k k' then del k r else (k', v') :: del k r
  end.

Definition keys d : list string := map fst d.
End Ops.
End Dict.

(** ** The object store *)

(** A Python value: scalars are immutable and carried as they are, a list
    or a dict is a reference to a cell of the store. *)
Inductive value : Type :=
| VNull
| VBool (b : bool)
| VNum (n : Z)
| VStr (s : string)
| VRef (a : nat)
| VEnd (doc : value).

Inductive cell : Type :=
| CList (items : list value)
| CDict (items : list (string * value)).

Abbreviation heap := (list cell).

(** Statements run on the store and may raise; the store after an exception
    is the one the statements before it left. *)
Definition ST (S A : Type) : Type := S -> S * result A.

Definition ret {S A} (a : A) : ST S A := fun h => (h, Ok a).
Definition raise {S A} (e : exc) : ST S A := fun h => (h, Raise e).
Definition bind {S A B} (m : ST S A) (k : A -> ST S B) : ST S B :=
  fun h => match m h with
           | (h', Ok a) => k a h'
           | (h', Raise e) => (h', Raise e)
           end.
(** An expression that only reads the state. *)
Definition reading {S A} (f : S -> result A) : ST S A := fun h => (h, f h).
Definition lift {S A} (r : result A) : ST S A := fun h => (h, r).

Abbreviation M := (ST heap).

Notation "'let*' x ':=' m 'in' k" := (bind m (fun x => k))
  (at level 10, x pattern, m at level 100, k at level 200).
Notation "m ';;' k" := (bind m (fun _ => k))
  (at level 100, k at level 200, right associativity).

Fixpoint for_each {S A} (f : A -> ST S unit) (l : list A) : ST S unit :=
  match l with
  | [] => ret tt
  | x :: r => f x ;; for_each f r
  end.

(** A list built element by element, left to right. *)
Definition map_m {S A B} (f : A -> ST S B) : list A -> ST S (list B) :=
  fix go (l : list A) : ST S (list B) :=
    match l with
    | [] => ret []
    | x :: r => let* y := f x in let* ys := go r in ret (y :: ys)
    end.

(** A new list or dict object. *)
Definition new_cell (c : cell) : M value :=
  fun h => (h ++ [c], Ok (VRef (length h))).

(** The [isinstance] tests of [collections]: a [str] is a [Sequence], but
    not a [MutableSequence]. *)
Definition is_Mapping (h : heap) (v : value) : bool :=
  match v with
  | VRef a => match h !! a with Some (CDict _) => true | _ => false end
  | _ => false
  end.

Definition is_MutableSequence (h : heap) (v : value) : bool :=
  match v with
  | VRef a => match h !! a with Some (CList _) => true | _ => false end
  | _ => false
  end.

Definition is_Sequence (h : heap) (v : value) : bool :=
  match v with
  | VStr _ => true
  | _ => is_MutableSequence h v
  end.

Definition is_MutableMapping := is_Mapping.

(** [lst.append(x)] and [dct[k] = x], used by the source only after the
    matching [isinstance] test; on anything else they raise. *)
Definition append (target x : value) : M unit :=
  fun h => match target with
           | VRef a => match h !! a with
                       | Some (CList l) => (<[a := CList (l ++ [x])]> h, Ok tt)
                       | _ => (h, Raise AttributeError)
                       end
           | _ => (h, Raise AttributeError)
           end.

Definition setitem (target : value) (k : string) (x : value) : M unit :=
  fun h => match target with
           | VRef a => match h !! a with
                       | Some (CDict d) => (<[a := CDict (Dict.set k x d)]> h, Ok tt)
                       | _ => (h, Raise TypeError)
                       end
           | _ => (h, Raise TypeError)
           end.

(** ** jsonpointer *)

(** The part of the [jsonpointer] library that the directive calls:
    the constructor [JsonPointer(text)], [walk], [get_part], [to_last] and
    [resolve]. *)
Module JsonPointer.

Definition tilde : ascii := "~"%char.

(** The pattern [(~[^01]|~$)]: a tilde that is not followed by 0 or 1. *)
Fixpoint invalid_escape (s : string) : bool :=
  match s with
  | EmptyString => false
  | String c tl =>
      if Ascii.eqb c tilde then
        match tl with
        | EmptyString => true
        | String d _ =>
            if Ascii.eqb d "0"%char || Ascii.eqb d "1"%char
            then invalid_escape tl else true
        end
      else invalid_escape tl
  end.

Definition unescape (s : string) : string :=
  Str.replace_pair tilde "0"%char tilde
    (Str.replace_pair tilde "1"%char "/"%char s).

(** [JsonPointer(pointer)]: the parts of the pointer. *)
Definition parse (pointer : string) : result (list string) :=
  if invalid_escape pointer then Raise JsonPointerException
  else match Str.split "/"%char pointer with
       | first :: parts =>
           if String.eqb first "" then Ok (map unescape parts)
           else Raise JsonPointerException
       | [] => Raise JsonPointerException
       end.

(** The pattern [0|[1-9][0-9]*$] under [re.match]: the first alternative
    accepts every string that starts with 0. *)
Definition array_index (s : string) : bool :=
  match s with
  | EmptyString => false
  | String c tl =>
      Ascii.eqb c "0"%char ||
      (Str.is_digit c && Str.all_digits tl)
  end.

(** What [get_part] returns: the part itself or the integer index. *)
Inductive step : Type :=
| Key (s : string)
| Idx (n : nat).

Definition sequence_part (part : string) : result step :=
  if String.eqb part "-" then Ok (Key part)
  else if array_index part then rbind (Str.int part) (fun n => Ok (Idx n))
  else Raise JsonPointerException.

Definition get_part (h : heap) (doc : value) (part : string) : result step :=
  if is_Mapping h doc then Ok (Key part)
  else if is_Sequence h doc then sequence_part part
  else Raise JsonPointerException.

(** One step into [doc]; an IndexError or a KeyError of the lookup becomes
    a JsonPointerException. *)
Definition walk (h : heap) (doc : value) (part : string) : result value :=
  rbind (get_part h doc part) (fun p =>
    match doc, p with
    | VStr s, Key _ => Ok (VEnd doc)
    | VStr s, Idx n =>
        match Str.char_at n s with
        | Some c => Ok (VStr c)
        | None => Raise JsonPointerException
        end
    | VRef a, _ =>
        match h !! a, p with
        | Some (CList l), Key _ => Ok (VEnd doc)
        | Some (CList l), Idx n =>
            match l !! n with
            | Some v => Ok v
            | None => Raise JsonPointerException
            end
        | Some (CDict d), Key k =>
            match Dict.get k d with
            | Some v => Ok v
            | None => Raise JsonPointerException
            end
        | _, _ => Raise JsonPointerException
        end
    | _, _ => Raise JsonPointerException
    end).

Fixpoint resolve (h : heap) (doc : value) (parts : list string) : result value :=
  match parts with
  | [] => Ok doc
  | part :: rest => rbind (walk h doc part) (fun d => resolve h d rest)
  end.

(** [to_last]: the parent of the last part and the last part as
    [get_part] gives it; [None] for a pointer without parts. *)
Fixpoint to_last (h : heap) (doc : value) (parts : list string)
  : result (value * option step) :=
  match parts with
  | [] => Ok (doc, None)
  | [part] => rbind (get_part h doc part) (fun p => Ok (doc, Some p))
  | part :: rest => rbind (walk h doc part) (fun d => to_last h d rest)
  end.

End JsonPointer.

(** [del parent[name]]: a list wants an index in range (IndexError), a dict
    an existing key (KeyError); a string does not support deletion. *)
Definition delitem (parent : value) (name : option JsonPointer.step) : M unit :=
  fun h =>
    match parent with
    | VRef a =>
        match h !! a, name with
        | Some (CList l), Some (JsonPointer.Idx n) =>
            if (n <? length l)%nat then (<[a := CList (delete n l)]> h, Ok tt)
            else (h, Raise IndexError)
        | Some (CList l), _ => (h, Raise TypeError)
        | Some (CDict d), Some (JsonPointer.Key k) =>
            if Dict.mem k d then (<[a := CDict (Dict.del k d)]> h, Ok tt)
            else (h, Raise KeyError)
        | Some (CDict d), _ => (h, Raise KeyError)
        | None, _ => (h, Raise TypeError)
        end
    | _ => (h, Raise TypeError)
    end.

(** ** Trees and the store *)

(** All the elements of a list, if none is missing. *)
Fixpoint all_some {A} (l : list (option A)) : option (list A) :=
  match l with
  | [] => Some []
  | Some x :: r => option_map (cons x) (all_some r)
  | None :: _ => None
  end.

(** The tree that an object denotes, read off the store.  The fuel bounds
    the nesting of lists and dicts; a store without cycles needs no more
    than its size. *)
Fixpoint view (fuel : nat) (h : heap) (v : value) {struct fuel} : option json :=
  (fix scalar (v : value) : option json :=
     match v with
     | VNull => Some JNull
     | VBool b => Some (JBool b)
     | VNum n => Some (JNum n)
     | VStr s => Some (JStr s)
     | VEnd d => option_map JEnd (scalar d)
     | VRef a =>
         match fuel with
         | O => None
         | S fuel' =>
             match h !! a with
             | None => None
             | Some (CList l) =>
                 option_map JArr (all_some (map (view fuel' h) l))
             | Some (CDict d) =>
                 option_map JObj
                   (all_some
                      (map (fun kv =>
                              option_map (pair (fst kv)) (view fuel' h (snd kv)))
                           d))
             end
         end
     end) v.

Fixpoint has_end (j : json) : bool :=
  match j with
  | JEnd _ => true
  | JArr l => existsb has_end l
  | JObj d => existsb (fun kv => has_end (snd kv)) d
  | _ => false
  end.

(** [json.dumps(obj)]: an [EndOfList] object is not serializable. *)
Definition dumps (v : value) : M json :=
  fun h => match view (length h) h v with
           | None => (h, Raise ValueError)
           | Some j => if has_end j then (h, Raise TypeError) else (h, Ok j)
           end.

(** Building the objects of a tree, children first: what the parsers and
    [json.loads] do. *)
Fixpoint build (j : json) : M value :=
  match j with
  | JNull => ret VNull
  | JBool b => ret (VBool b)
  | JNum n => ret (VNum n)
  | JStr s => ret (VStr s)
  | JEnd d => let* v := build d in ret (VEnd v)
  | JArr l => let* vs := map_m build l in new_cell (CList vs)
  | JObj d =>
      let* kvs := map_m (fun kv => let* v := build (snd kv) in
                                   ret (fst kv, v)) d in
      new_cell (CDict kvs)
  end.

Definition loads (j : json) : M value := build j.

(** ** The directive: hide and show *)

Record options : Type := { hide : option string; show : option string }.

(** Lines 60-63: one hidden path. *)
Definition hide_path (schema : value) (hidden_path : string) : M unit :=
  let* parts := lift (JsonPointer.parse hidden_path) in
  let* pn := reading (fun h => JsonPointer.to_last h schema parts) in
  delitem (fst pn) (snd pn).

(** Lines 79-84: the new container takes the kind of the snapshot's node. *)
Definition new_entry_like (orig_parent : value) : M value :=
  fun h =>
    if is_Sequence h orig_parent then new_cell (CList []) h
    else if is_Mapping h orig_parent then new_cell (CDict []) h
    else (h, Raise (PyException "Unsupported type parent")).

(** Lines 86-89: no [else] branch, a parent of another kind is passed over. *)
Definition attach_entry (current_parent : value) (part : string)
    (new_entry : value) : M unit :=
  fun h =>
    if is_MutableSequence h current_parent then append current_parent new_entry h
    else if is_MutableMapping h current_parent
         then setitem current_parent part new_entry h
         else (h, Ok tt).

(** Lines 74-91: the body of the loop over [ptr.parts[:-1]], on the pair
    [(orig_parent, current_parent)]. *)
Definition show_step (part : string) (st : value * value) : M (value * value) :=
  let* orig_parent := reading (fun h => JsonPointer.walk h (fst st) part) in
  fun h =>
    match JsonPointer.walk h (snd st) part with
    | Ok current_parent => (h, Ok (orig_parent, current_parent))
    | Raise JsonPointerException =>
        (let* new_entry := new_entry_like orig_parent in
         attach_entry (snd st) part new_entry ;;
         ret (orig_parent, new_entry)) h
    | Raise e => (h, Raise e)
    end.

Fixpoint show_walk (parts : list string) (st : value * value)
  : M (value * value) :=
  match parts with
  | [] => ret st
  | part :: rest => let* st' := show_step part st in show_walk rest st'
  end.

(** [ptr.parts[-1]]. *)
Definition last_part (parts : list string) : result string :=
  match last parts with
  | Some part => Ok part
  | None => Raise IndexError
  end.

(** Lines 93-98: the value comes from the snapshot; the right-hand side of
    the assignment is evaluated before the subscript. *)
Definition show_attach (orig_schema current_parent : value)
    (parts : list string) : M unit :=
  fun h =>
    if is_MutableSequence h current_parent then
      (let* v := reading (fun h => JsonPointer.resolve h orig_schema parts) in
       append current_parent v) h
    else if is_MutableMapping h current_parent then
      (let* v := reading (fun h => JsonPointer.resolve h orig_schema parts) in
       let* k := lift (last_part parts) in
       setitem current_parent k v) h
    else (h, Raise (PyException "Unsupported type parent")).

(** Lines 67-98: one shown path. *)
Definition show_path (orig_schema schema : value) (shown_path : string) : M unit :=
  let* parts := lift (JsonPointer.parse shown_path) in
  let* st := show_walk (removelast parts) (orig_schema, schema) in
  show_attach orig_schema (snd st) parts.

(** [shown_paths.split(' ')] on the value of [options.get('show')], which is
    [None] when the option is absent. *)
Definition split_option (o : option string) : M (list string) :=
  match o with
  | Some s => ret (Str.split " "%char s)
  | None => raise AttributeError
  end.

(** Lines 56-98 of [JsonSchema.__init__], on the loaded schema. *)
Definition apply_visibility (opts : options) (schema : value) : M unit :=
  match hide opts with
  | None => ret tt
  | Some hidden_paths =>
      let* text := dumps schema in
      let* orig_schema := loads text in
      for_each (hide_path schema) (Str.split " "%char hidden_paths) ;;
      let* shown_paths := split_option (show opts) in
      for_each (show_path orig_schema schema) shown_paths
  end.

(** [resolve_pointer(doc, pointer)], line 52. *)
Definition resolve_pointer (doc : value) (pointer : string) : M value :=
  let* parts := lift (JsonPointer.parse pointer) in
  reading (fun h => JsonPointer.resolve h doc parts).

(** The directive on a schema fresh from the parser, in an empty store. *)
Definition directive (j : json) (opts : options) : heap * result value :=
  (let* schema := build j in
   apply_visibility opts schema ;;
   ret schema) [].

(** The edited schema as a tree, or the exception. *)
Definition edited (j : json) (opts : options) : result json :=
  match directive j opts with
  | (h, Ok schema) =>
      match view (length h) h schema with
      | Some t => Ok t
      | None => Raise ValueError
      end
  | (_, Raise e) => Raise e
  end.

(** The subtree of a schema at a pointer: the schema is loaded, the parts
    are resolved, and the object they lead to is read back as a tree. *)
Definition resolved (j : json) (parts : list string) : result json :=
  match build j [] with
  | (h, Ok schema) =>
      match JsonPointer.resolve h schema parts with
      | Ok v =>
          match view (length h) h v with
          | Some t => Ok t
          | None => Raise ValueError
          end
      | Raise e => Raise e
      end
  | (_, Raise e) => Raise e
  end.

(** ** Document nodes *)

(** A docutils node: a [Text] node holds [str(v)] of the Python value it was
    built from; an element has a tag, its [classes], [names] and [ids], and
    its children. *)
Inductive node : Type :=
| Text (v : json)
| Element (tag : string) (classes names ids : list string) (children : list node).

(** What a formatter method returns and what [+=] takes: one node, or a list
    of nodes. *)
Inductive content : Type :=
| One (n : node)
| Many (l : list node).

(** [element += other]: a node is appended, a list extends. *)
Definition iadd (children : list node) (c : content) : list node :=
  match c with
  | One n => children ++ [n]
  | Many l => children ++ l
  end.

(** A [TextElement] built with [text=...]: no text node for the empty
    string. *)
Definition text_children (v : json) : list node :=
  match v with
  | JStr EmptyString => []
  | _ => [Text v]
  end.

Definition paragraph (v : json) : node :=
  Element "paragraph" [] [] [] (text_children v).
Definition field_list (children : list node) : node :=
  Element "field_list" [] [] [] children.
Definition bullet_list (children : list node) : node :=
  Element "bullet_list" [] [] [] children.
Definition list_item (children : list node) : node :=
  Element "list_item" [] [] [] children.

(** [_create_field], lines 268-276. *)
Definition _create_field (label clazz : string) (child : content) : node :=
  Element "field" [clazz] [] []
    [Element "field_name" [] [] [] (text_children (JStr label));
     Element "field_body" [] [] [] (iadd [] child)].

(** ** Python operators on a schema *)

(** [k in c]: keys of a dict, elements of a list, substrings of a string. *)
Definition py_in (k : string) (c : json) : result bool :=
  match c with
  | JObj d => Ok (Dict.mem k d)
  | JArr l =>
      Ok (existsb (fun x => match x with
                            | JStr s => String.eqb s k
                            | _ => false
                            end) l)
  | JStr s => Ok (Str.contains k s)
  | _ => Raise TypeError
  end.

(** [c[k]] with a string [k]. *)
Definition py_getitem (c : json) (k : string) : result json :=
  match c with
  | JObj d => match Dict.get k d with
              | Some v => Ok v
              | None => Raise KeyError
              end
  | _ => Raise TypeError
  end.

(** [c.get(k, default)]. *)
Definition py_get (c : json) (k : string) (default : json) : result json :=
  match c with
  | JObj d => match Dict.get k d with
              | Some v => Ok v
              | None => Ok default
              end
  | _ => Raise AttributeError
  end.

(** [c.items()]. *)
Definition py_items (c : json) : result (list (string * json)) :=
  match c with
  | JObj d => Ok d
  | _ => Raise AttributeError
  end.

(** [c.keys()]. *)
Definition py_keys (c : json) : result (list string) :=
  match c with
  | JObj d => Ok (Dict.keys d)
  | _ => Raise AttributeError
  end.

(** [for x in c]. *)
Definition py_iter (c : json) : result (list json) :=
  match c with
  | JArr l => Ok l
  | JObj d => Ok (map (fun kv => JStr (fst kv)) d)
  | JStr s => Ok (map JStr (Str.chars s))
  | _ => Raise TypeError
  end.

Definition is_str_eq (v : json) (s : string) : bool :=
  match v with
  | JStr s' => String.eqb s' s
  | _ => false
  end.

(** ** The host *)

(** What the formatter touches of the host: the section level of the
    parser's memo, the current document name, the label registries of the
    standard domain and the implicit targets noted on the document. *)
Record host : Type := {
  section_level : Z;
  docname : string;
  labels : list (string * (string * string * json));
  anonlabels : list (string * (string * string));
  implicit_targets : list node }.

Abbreviation F := (ST host).

Definition set_section_level (n : Z) : F unit :=
  fun st => ({| section_level := n; docname := docname st;
                labels := labels st; anonlabels := anonlabels st;
                implicit_targets := implicit_targets st |}, Ok tt).

Definition set_label (anchor : string) (entry : string * string * json) : F unit :=
  fun st => ({| section_level := section_level st; docname := docname st;
                labels := Dict.set anchor entry (labels st);
                anonlabels := anonlabels st;
                implicit_targets := implicit_targets st |}, Ok tt).

Definition set_anonlabel (anchor : string) (entry : string * string) : F unit :=
  fun st => ({| section_level := section_level st; docname := docname st;
                labels := labels st;
                anonlabels := Dict.set anchor entry (anonlabels st);
                implicit_targets := implicit_targets st |}, Ok tt).

Definition add_implicit_target (n : node) : F unit :=
  fun st => ({| section_level := section_level st; docname := docname st;
                labels := labels st; anonlabels := anonlabels st;
                implicit_targets := implicit_targets st ++ [n] |}, Ok tt).

Fixpoint fold_m {S A B} (f : B -> A -> ST S B) (l : list A) (acc : B) : ST S B :=
  match l with
  | [] => ret acc
  | x :: r => let* acc' := f acc x in fold_m f r acc'
  end.

(** The tables of [NestedFormat], in the order they are written. *)
Definition KV_SIMPLE : list (string * string) :=
  [("multipleOf", "Multiple of"); ("maximum", "Maximum");
   ("exclusiveMaximum", "Exclusive Maximum"); ("minimum", "Minimum");
   ("exclusiveMinimum", "Exclusive Minimum");
   ("maxLength", "Maximum length"); ("minLength", "Minimum length");
   ("pattern", "Pattern"); ("default", "Default"); ("format", "Format")].

Definition KV_ARRAY : list (string * string) :=
  [("maxItems", "Maximum number of items");
   ("minItems", "Minimum number of items");
   ("uniqueItems", "Unique items")].

Definition KV_OBJECT : list (string * string) :=
  [("maxProperties", "Maximum number of properties");
   ("minProperties", "Minimum number of properties")].

Definition COMBINATORS : list (string * string) :=
  [("allOf", "All of"); ("anyOf", "Any of"); ("oneOf", "One of")].

Definition SINGLEOBJECTS : list (string * string) := [("not", "Not")].

(** ** The formatter, [NestedFormat] *)

Section NestedFormat.

(** What the host provides: [state.nested_parse] on the lines of a text,
    docutils' [fully_normalize_name], [state.inline_text] (text nodes and
    system messages), [astext] of the title's children, and the ids that
    [document.note_implicit_target] gives a node.  [state.inline_text] hands
    the memo to the inliner with the text: it is a function of the section
    level that the memo holds at the call, and of the text. *)
Variable nested_parse : list string -> list node.
Variable normalize_name : string -> string.
Variable inline_text : Z -> string -> list node * list node.
Variable astext : list node -> string.
Variable implicit_ids : list node -> node -> list string.

(** [_parse_text], lines 56-66. *)
Definition _parse_text (text : json) : result node :=
  match text with
  | JStr s => Ok (Element "paragraph" [] [] []
                    (nested_parse (Str.split "010"%char s)))
  | _ => Raise AttributeError
  end.

(** [_create_target], lines 204-223: one target node for all the names,
    each registered in both label tables. *)
Definition _create_target (schema : json) : F node :=
  let* targets := lift (py_getitem schema "$$target") in
  let targets := match targets with JArr l => l | t => [t] end in
  let* ids :=
    fold_m (fun ids target =>
              let* anchor := lift (match target with
                                   | JStr s => Ok (normalize_name s)
                                   | _ => Raise AttributeError
                                   end) in
              let ids := ids ++ [anchor] in
              let first := hd anchor ids in
              let* name := reading (fun st => Ok (docname st)) in
              set_anonlabel anchor (name, first) ;;
              let* titled := lift (py_in "title" schema) in
              let* title := if titled then lift (py_getitem schema "title")
                            else ret (JStr anchor) in
              set_label anchor (name, first, title) ;;
              ret ids)
           targets [] in
  ret (Element "target" [] ids ids []).

(** [_kvpairs], lines 303-313. *)
Definition _kvpairs (schema : json) (keys : list (string * string))
  : result (list node) :=
  fold_right
    (fun kl rest =>
       rbind (py_in (fst kl) schema) (fun present =>
       rbind (if present
              then rbind (py_getitem schema (fst kl)) (fun value =>
                     Ok [_create_field (snd kl) ("jsonschema-" ++ fst kl)
                           (One (paragraph value))])
              else Ok []) (fun here =>
       rbind rest (fun more => Ok (here ++ more)))))
    (Ok []) keys.

Section Methods.

(** The recursive call [self._dispatch]. *)
Variable dispatch : json -> F content.

(** [_process_object_properties], lines 68-85: one field per item of
    [schema[prop_name]], in the order of [items()]. *)
Definition property_field (schema : json) (body : list node)
    (kv : string * json) : F (list node) :=
  let* required := lift (py_get schema "required" (JArr [])) in
  let* is_required := lift (py_in (fst kv) required) in
  let required_class :=
    if is_required then " jsonschema-required" else "" in
  let inner_body :=
    [_create_field "Required" "jsonschema-required"
       (One (paragraph (JStr (if is_required then "Yes" else "No"))))] in
  let* type := dispatch (snd kv) in
  let inner_body :=
    inner_body ++ [_create_field "Type" "jsonschema-type" type] in
  ret (body ++ [_create_field (fst kv)
                  ("jsonschema-property" ++ required_class)
                  (One (field_list inner_body))]).

Definition _process_object_properties (schema : json) (prop_name : string)
  : F node :=
  let* props := lift (py_getitem schema prop_name) in
  let* items := lift (py_items props) in
  let* body := fold_m (property_field schema) items [] in
  ret (field_list body).

(** [_bool_or_object], lines 295-301. *)
Definition _bool_or_object (schema : json) (label clazz : string)
  : F content :=
  match schema with
  | JBool b =>
      ret (One (_create_field label clazz
                  (One (paragraph (JStr (if b then "Allowed"
                                         else "Not allowed"))))))
  | _ => dispatch schema
  end.

(** A list of bullets, one per element, each holding what [_dispatch]
    gives for it (lines 122-126 and 154-159). *)
Definition dispatch_items (l : list json) : F node :=
  let* items :=
    fold_m (fun items x =>
              let* c := dispatch x in
              ret (items ++ [list_item (iadd [] c)])) l [] in
  ret (bullet_list items).

(** [if key in schema: body += ...]. *)
Definition when_in (key : string) (schema : json) (body : list node)
    (add : F content) : F (list node) :=
  let* present := lift (py_in key schema) in
  if present then (let* c := add in ret (iadd body c)) else ret body.

(** [_process_type], lines 87-151. *)
Definition _process_type (schema : json) : F content :=
  let body := [] in
  let* body :=
    when_in "$$target" schema body
      (let* target := _create_target schema in
       let* names := lift (py_getitem schema "$$target") in
       ret (One (_create_field "Id" "jsonschema-description"
                   (Many [target; paragraph names])))) in
  let* body :=
    when_in "description" schema body
      (let* text := lift (py_getitem schema "description") in
       let* description := lift (_parse_text text) in
       ret (One (_create_field "Description" "jsonschema-description"
                   (One description)))) in
  let* body :=
    when_in "type" schema body
      (let* type := lift (py_getitem schema "type") in
       ret (One (_create_field "Type" "jsonschema-description"
                   (One (paragraph type))))) in
  let* type := lift (py_get schema "type" JNull) in
  if is_str_eq type "object" then
    let* body :=
      when_in "properties" schema body
        (let* fields := _process_object_properties schema "properties" in
         ret (One (_create_field "Properties" "jsonschema-properties"
                     (One fields)))) in
    let* body :=
      when_in "patternProperties" schema body
        (let* fields :=
           _process_object_properties schema "patternProperties" in
         ret (One (_create_field "Properties"
                     "jsonschema-pattern-properties" (One fields)))) in
    let* body :=
      when_in "additionalProperties" schema body
        (let* value := lift (py_getitem schema "additionalProperties") in
         _bool_or_object value "Additional Properties"
           "jsonschema-additional-properties") in
    let* pairs := lift (_kvpairs schema KV_OBJECT) in
    ret (One (field_list (body ++ pairs)))
  else if is_str_eq type "array" then
    let* body :=
      when_in "items" schema body
        (let* items := lift (py_getitem schema "items") in
         match items with
         | JArr l =>
             let* enum_items := dispatch_items l in
             ret (One (_create_field "Items" "jsonschema-items"
                         (One enum_items)))
         | _ =>
             let* item := dispatch items in
             ret (One (_create_field "Item" "jsonschema-item-template"
                         item))
         end) in
    let* body :=
      when_in "additionalItems" schema body
        (let* value := lift (py_getitem schema "additionalItems") in
         _bool_or_object value "Additional Items"
           "jsonschema-additional-items") in
    let* pairs := lift (_kvpairs schema KV_ARRAY) in
    ret (One (field_list (body ++ pairs)))
  else
    let* body :=
      when_in "enum" schema body
        (let* values := lift (py_getitem schema "enum") in
         let* values := lift (py_iter values) in
         ret (One (_create_field "Valid values" "enum"
                     (One (bullet_list
                             (map (fun item => list_item [paragraph item])
                                  values)))))) in
    let* pairs := lift (_kvpairs schema KV_SIMPLE) in
    ret (One (field_list (body ++ pairs))).

(** [_process_combinator], lines 153-165. *)
Definition _process_combinator (label : string) (schema : json) : F content :=
  let* subtypes := lift (py_iter schema) in
  let* entries := dispatch_items subtypes in
  ret (One (field_list
              [_create_field "Combination" "json-combinatortype"
                 (One (paragraph (JStr label)));
               _create_field "Types" "jsonschema-combinedtypes"
                 (One entries)])).

(** [_process_singleobjects], lines 167-173. *)
Definition _process_singleobjects (label : string) (schema : json)
  : F content :=
  let* types := dispatch schema in
  ret (One (field_list
              [_create_field "Combination" "json-combinatortype"
                 (One (paragraph (JStr label)));
               _create_field "Types" "jsonschema-combinedtypes" types])).

(** [_process_definitions], lines 175-181: one field per item of the
    mapping it is given. *)
Definition _process_definitions (schema : json) : F node :=
  let* items := lift (py_items schema) in
  let* fields :=
    fold_m (fun fields kv =>
              let* c := dispatch (snd kv) in
              ret (fields ++ [_create_field (fst kv)
                                "jsonschema-definition" c]))
           items [] in
  ret (field_list fields).

(** [_process_reftype], lines 252-266. *)
Definition _process_reftype (schema : json) : F content :=
  let body := [] in
  let* body :=
    when_in "description" schema body
      (let* text := lift (py_getitem schema "description") in
       let* description := lift (_parse_text text) in
       ret (One (_create_field "Description" "jsonschema-description"
                   (One description)))) in
  let* ref := lift (py_getitem schema "$ref") in
  let* reference :=
    lift (match ref with
          | JStr r => _parse_text (JStr (":ref:`" ++ r ++ "`"))
          | _ => Raise TypeError
          end) in
  let body := body ++ [_create_field "Reference" "jsonschema-reference"
                         (One reference)] in
  let* body :=
    when_in "definitions" schema body
      (let* definitions := lift (py_getitem schema "definitions") in
       let* fields := _process_definitions definitions in
       ret (One (_create_field "Definitions" "jsonschema-definitions"
                   (One fields)))) in
  ret (One (field_list body)).

(** [_objectproperties], lines 278-293: every field takes [key] as its
    label.  No method calls it. *)
Definition objectproperties_field (schema : json) (key : string)
    (body : list node) (prop : string) : F (list node) :=
  let* has_required := lift (py_in "required" schema) in
  let* required :=
    if has_required then
      let* names := lift (py_getitem schema "required") in
      let* listed := lift (py_in prop names) in
      ret (if listed then " required" else "")
    else ret "" in
  let* props := lift (py_getitem schema key) in
  let* obj := lift (py_getitem props prop) in
  let* c := dispatch obj in
  ret (body ++ [_create_field key ("type" ++ required) c]).

Definition _objectproperties (schema : json) (key : string) : F node :=
  let* present := lift (py_in key schema) in
  if present then
    let* props := lift (py_getitem schema key) in
    let* names := lift (py_keys props) in
    let* body := fold_m (objectproperties_field schema key) names [] in
    ret (field_list body)
  else ret (field_list []).

(** The first key of a table that the schema has (the [for k in ...]
    loops of [_dispatch]). *)
Fixpoint first_key (table : list (string * string)) (schema : json)
  : result (option (string * string)) :=
  match table with
  | [] => Ok None
  | kl :: rest =>
      rbind (py_in (fst kl) schema) (fun present =>
        if present then Ok (Some kl) else first_key rest schema)
  end.

(** The body of [_dispatch], lines 183-202. *)
Definition dispatch_body (schema : json) : F content :=
  let* is_ref := lift (py_in "$ref" schema) in
  if is_ref then _process_reftype schema else
  let* is_typed := lift (py_in "type" schema) in
  if is_typed then _process_type schema else
  let* combinator := lift (first_key COMBINATORS schema) in
  match combinator with
  | Some (k, label) =>
      let* alternatives := lift (py_getitem schema k) in
      _process_combinator label alternatives
  | None =>
      let* single := lift (first_key SINGLEOBJECTS schema) in
      match single with
      | Some (k, label) =>
          let* inner := lift (py_getitem schema k) in
          _process_singleobjects label inner
      | None =>
          let* has_definitions := lift (py_in "definitions" schema) in
          if has_definitions
          then (let* fields := _process_definitions schema in
                ret (One fields))
          else ret (Many [])
      end
  end.

End Methods.

(** [_dispatch]: the fuel is the depth of recursion the interpreter
    allows. *)
Fixpoint _dispatch (fuel : nat) (schema : json) : F content :=
  match fuel with
  | O => raise RecursionError
  | S fuel' => dispatch_body (_dispatch fuel') schema
  end.

(** [_wrap_in_section], lines 225-250.  The inliner looks for backslashes
    with [text.find], so a title that is not a [str] raises AttributeError
    on line 238, after line 236 has raised the level and before line 246
    sets it back. *)
Definition _wrap_in_section (schema : json) (table : content)
  : F (list content) :=
  let result := [] in
  let* targeted := lift (py_in "$$target" schema) in
  let* result :=
    if targeted
    then (let* target := _create_target schema in
          ret (result ++ [One target]))
    else ret result in
  let* titled := lift (py_in "title" schema) in
  if titled then
    let* mylevel := reading (fun st => Ok (section_level st)) in
    set_section_level (mylevel + 1) ;;
    let* title := lift (py_getitem schema "title") in
    let* parsed :=
      reading (fun st =>
                 match title with
                 | JStr text => Ok (inline_text (section_level st) text)
                 | _ => Raise AttributeError
                 end) in
    let '(textnodes, title_messages) := parsed in
    let titlenode := Element "title" [] [] [] textnodes in
    let name := normalize_name (astext textnodes) in
    let children := [titlenode] ++ title_messages in
    let* noted := reading (fun st => Ok (implicit_targets st)) in
    let ids := implicit_ids noted (Element "section" [] [name] [] children) in
    add_implicit_target (Element "section" [] [name] ids children) ;;
    let section_node :=
      Element "section" [] [name] ids (iadd children table) in
    set_section_level mylevel ;;
    ret (result ++ [One section_node])
  else ret (result ++ [table]).

(** [transform], lines 52-54. *)
Definition transform (fuel : nat) (schema : json) : F (list content) :=
  let* body := _dispatch fuel schema in
  _wrap_in_section schema body.

End NestedFormat.

(** ** The directive: loading *)

(** What the loader asks of the outside, in the order it asks. *)
Inductive event : Type :=
| YamlLoad (text : string)
| Seek0
| JsonLoad (text : string)
| ErrorCall (e : exc).

(** The [stream] argument of [ordered_load]: a [str] (the joined lines of
    the directive), an open text file, or the [bytes] that [requests] gives
    as the content of a response. *)
Inductive stream : Type :=
| StrStream (text : string)
| FileStream (text : string)
| BytesStream (text : string).

Definition stream_text (s : stream) : string :=
  match s with
  | StrStream t => t
  | FileStream t => t
  | BytesStream t => t
  end.

Record world : Type := { store : heap; calls : list event }.

Definition on_store {A} (m : M A) : ST world A :=
  fun w => let (h, r) := m (store w) in ({| store := h; calls := calls w |}, r).

Definition on_calls {A} (m : ST (list event) A) : ST world A :=
  fun w => let (l, r) := m (calls w) in ({| store := store w; calls := l |}, r).

Definition emit (e : event) : ST (list event) unit :=
  fun l => (l ++ [e], Ok tt).

(** [path.split('#', 1)] with [None] appended when there is no [#], lines
    126-130. *)
Fixpoint _splitpointer (path : string) : string * option string :=
  match path with
  | EmptyString => (EmptyString, None)
  | String c rest =>
      if Ascii.eqb c "#"%char then (EmptyString, Some rest)
      else let (file, pointer) := _splitpointer rest in (String c file, pointer)
  end.

Section Loading.

(** The parsers are libraries: [yaml.load] with the ordered loader, which
    raises [ScannerError] or another exception on text it rejects, and
    [json.loads]/[json.load] with [object_pairs_hook]. *)
Variable yaml_load : string -> result json.
Variable json_loads : string -> result json.

(** The host's [Directive.error]: the exception it raises, if it raises
    one rather than returning. *)
Variable directive_error : exc -> option exc.

(** What is read from a URL and from a file (the file name taken relative
    to the directory of the document). *)
Variable requests_get : string -> result string.
Variable open_file : string -> result string.

(** [self.error(e)] as a statement. *)
Definition error_call (e : exc) : ST (list event) unit :=
  emit (ErrorCall e) ;;
  match directive_error e with
  | Some raised => raise raised
  | None => ret tt
  end.

(** Lines 148-155: the inner [try].  What is not a [str] is taken for a
    file and rewound; [bytes] has no [seek]. *)
Definition parse_stream (s : stream) : ST (list event) json :=
  emit (YamlLoad (stream_text s)) ;;
  match yaml_load (stream_text s) with
  | Ok result => ret result
  | Raise ScannerError =>
      match s with
      | StrStream text =>
          emit (JsonLoad text) ;; lift (json_loads text)
      | FileStream text =>
          emit Seek0 ;; emit (JsonLoad text) ;; lift (json_loads text)
      | BytesStream _ => raise AttributeError
      end
  | Raise e => raise e
  end.

(** [ordered_load], lines 133-158: after the handler of the outer [try]
    has run, [return result] finds [result] unbound. *)
Definition ordered_load (s : stream) : ST (list event) json :=
  fun l =>
    match parse_stream s l with
    | (l', Ok result) => (l', Ok result)
    | (l', Raise e) => (error_call e ;; raise UnboundLocalError) l'
    end.

(** [_load_internal], lines 121-124. *)
Definition _load_internal (content : list string) : ST (list event) json :=
  (match content with
   | [] => error_call
             (PyException
                "JSONSCHEMA requires either filename, http url or inline content")
   | _ => ret tt
   end) ;;
  ordered_load (StrStream (Str.join (String "010"%char EmptyString) content)).

(** [_load_external], lines 105-119. *)
Definition _load_external (file_or_url : string) : ST (list event) json :=
  if Str.is_prefix "http" file_or_url then
    let* text := lift (requests_get file_or_url) in
    ordered_load (BytesStream text)
  else
    let* text := lift (open_file file_or_url) in
    ordered_load (FileStream text).

(** [JsonSchema.__init__], lines 45-98. *)
Definition JsonSchema_init (arguments : list string) (opts : options)
    (content : list string) : ST world value :=
  let* schema :=
    match arguments with
    | [argument] =>
        let (filename, pointer) := _splitpointer argument in
        let* loaded :=
          on_calls (if String.eqb filename "" then _load_internal content
                    else _load_external filename) in
        let* schema := on_store (build loaded) in
        match pointer with
        | None | Some EmptyString => ret schema
        | Some pointer => on_store (resolve_pointer schema pointer)
        end
    | _ =>
        let* loaded := on_calls (_load_internal content) in
        on_store (build loaded)
    end in
  on_store (apply_visibility opts schema) ;;
  ret schema.

End Loading.

(** [run], lines 100-103: the schema is handed to the formatter as the tree
    it denotes. *)
Definition run (nested_parse : list string -> list node)
    (normalize_name : string -> string)
    (inline_text : Z -> string -> list node * list node)
    (astext : list node -> string)
    (implicit_ids : list node -> node -> list string)
    (fuel : nat) (h : heap) (schema : value) : F (list content) :=
  match view (length h) h schema with
  | Some tree =>
      transform nested_parse normalize_name inline_text astext implicit_ids
        fuel tree
  | None => raise RecursionError
  end.

(** ** Reading a formatted tree *)

Definition node_children (n : node) : list node :=
  match n with
  | Element _ _ _ _ children => children
  | Text _ => []
  end.

Definition node_classes (n : node) : list string :=
  match n with
  | Element _ classes _ _ _ => classes
  | Text _ => []
  end.

(** The label of a field: the text of its [field_name], which has no text
    node when the label is empty. *)
Definition field_label (n : node) : json :=
  match node_children n with
  | name :: _ =>
      match node_children name with
      | [Text v] => v
      | _ => JStr ""
      end
  | [] => JStr ""
  end.

(** The children of the [field_body] of a field. *)
Definition field_content (n : node) : list node :=
  match node_children n with
  | _ :: body :: _ => node_children body
  | _ => []
  end.

(** The first node of a list that carries a class. *)
Definition find_class (clazz : string) (l : list node) : option node :=
  List.find (fun n => existsb (String.eqb clazz) (node_classes n)) l.

(** The labels of the property fields of a formatted object, in the order
    of the output: the fields inside the field of class
    [jsonschema-properties]. *)
Definition property_names (out : content) : option (list json) :=
  match out with
  | One body =>
      match find_class "jsonschema-properties" (node_children body) with
      | Some properties =>
          match field_content properties with
          | [fields] => Some (map field_label (node_children fields))
          | _ => None
          end
      | None => None
      end
  | Many _ => None
  end.

(** ** Notions used in the statements *)

Section LoadOutcome.

Variable directive_error : exc -> option exc.

(** What a failed load ends with, once [self.error(e)] has been called:
    the exception that the call raises or, when the call returns, the
    UnboundLocalError of [return result]. *)
Definition load_failure (e : exc) : exc :=
  match directive_error e with
  | Some raised => raised
  | None => UnboundLocalError
  end.

(** The file is rewound before the second parser reads it. *)
Definition rewind (s : stream) : list event :=
  match s with
  | StrStream _ => []
  | FileStream _ => [Seek0]
  | BytesStream _ => []
  end.

Definition is_bytes (s : stream) : bool :=
  match s with
  | BytesStream _ => true
  | _ => false
  end.

End LoadOutcome.

(** A statement of the formatter that leaves the section level as it found
    it, whether it returns or raises. *)
Definition keeps_level {A} (m : F A) : Prop :=
  forall st st' r, m st = (st', r) -> section_level st' = section_level st.

Section TitledSection.

Variable normalize_name : string -> string.
Variable inline_text : Z -> string -> list node * list node.
Variable astext : list node -> string.

(** The section that [_wrap_in_section] builds around a body, from a title
    that the inliner read at the given section level. *)
Definition titled_section (level : Z) (title : string) (ids : list string)
    (body : content) : node :=
  Element "section" []
    [normalize_name (astext (fst (inline_text level title)))] ids
    (Element "title" [] [] [] (fst (inline_text level title))
       :: snd (inline_text level title) ++ iadd [] body).

End TitledSection.

(** [denotes lo h hi j v]: the object [v] is the tree [j], laid out in the
    cells of [h] from address [lo] up to (not including) [hi], every list
    and dict above the objects it holds, as [build] lays them out. *)
Inductive denotes (lo : nat) (h : heap) : nat -> json -> value -> Prop :=
| den_null hi : denotes lo h hi JNull VNull
| den_bool hi b : denotes lo h hi (JBool b) (VBool b)
| den_num hi n : denotes lo h hi (JNum n) (VNum n)
| den_str hi s : denotes lo h hi (JStr s) (VStr s)
| den_end hi j v : denotes lo h hi j v -> denotes lo h hi (JEnd j) (VEnd v)
| den_arr hi a js vs :
    lo <= a -> a < hi -> h !! a = Some (CList vs) ->
    Forall2 (denotes lo h a) js vs ->
    denotes lo h hi (JArr js) (VRef a)
| den_obj hi a kjs kvs :
    lo <= a -> a < hi -> h !! a = Some (CDict kvs) ->
    Forall2 (fun kj kv => fst kj = fst kv /\ denotes lo h a (snd kj) (snd kv))
      kjs kvs ->
    denotes lo h hi (JObj kjs) (VRef a).

(** The objects that a value refers to. *)
Fixpoint refs_in (P : nat -> Prop) (v : value) : Prop :=
  match v with
  | VRef a => P a
  | VEnd d => refs_in P d
  | _ => True
  end.

Definition cell_refs_in (P : nat -> Prop) (c : cell) : Prop :=
  match c with
  | CList l => Forall (refs_in P) l
  | CDict d => Forall (fun kv => refs_in P (snd kv)) d
  end.

(** An address that is not one of the cells [lo .. hi - 1] of the
    snapshot. *)
Definition outside (lo hi a : nat) : Prop := a < lo \/ hi <= a.

(** Before the first [show], no object outside the snapshot holds an
    object of the snapshot. *)
Definition apart (lo hi : nat) (h : heap) : Prop :=
  forall a c, h !! a = Some c -> outside lo hi a ->
              cell_refs_in (outside lo hi) c.

(** Every cell of the store holds objects of the store. *)
Definition closed (h : heap) : Prop :=
  Forall (cell_refs_in (fun b => b < length h)) h.

(** A character that occurs in a string. *)
Definition has_char (c : ascii) (s : string) : bool :=
  existsb (Ascii.eqb c) (list_ascii_of_string s).

(** The nesting of a schema: a list or a mapping is one level above what it
    holds. *)
Fixpoint depth (j : json) : nat :=
  match j with
  | JArr l => S (list_max (map depth l))
  | JObj d => S (list_max (map (fun kv => depth (snd kv)) d))
  | JEnd d => S (depth d)
  | _ => 0
  end.

(** A statement of the formatter that does not run into the recursion
    limit. *)
Definition within_limit {A} (m : F A) : Prop :=
  forall st st' e, m st = (st', Raise e) -> e <> RecursionError.

(** Two statements of the formatter with the same effect and result. *)
Definition agree {A} (m1 m2 : F A) : Prop := forall st, m1 st = m2 st.

(** Two statements that agree and stay within the limit. *)
Definition alike {A} (m1 m2 : F A) : Prop := agree m1 m2 /\ within_limit m1.

(** A result that is not the RecursionError. *)
Definition no_limit {A} (r : result A) : Prop :=
  forall e, r = Raise e -> e <> RecursionError.

(** The keys that [_dispatch] tests before it takes a schema for a typed
    one, and the keys that [_process_type] and the methods under it look up
    in a schema of the given [type]: the common ones and those of the branch
    that the type selects. *)
Definition keys_of_type (type : json) : list string :=
  ["$ref"; "type"; "$$target"; "title"; "description"]
  ++ (if is_str_eq type "object" then
        ["properties"; "patternProperties"; "additionalProperties";
         "required"] ++ map fst KV_OBJECT
      else if is_str_eq type "array" then
        ["items"; "additionalItems"] ++ map fst KV_ARRAY
      else "enum" :: map fst KV_SIMPLE).

(** * Properties *)

(** ** The monad *)

Lemma for_each_app {S A} (f : A -> ST S unit) (l1 l2 : list A) (h : S) :
  for_each f (l1 ++ l2) h =
  match for_each f l1 h with
  | (h1, Ok _) => for_each f l2 h1
  | (h1, Raise e) => (h1, Raise e)
  end.
Proof.
  revert h. induction l1 as [|x l1 IH]; intros h; simpl; [reflexivity|].
  unfold bind. destruct (f x h) as [h1 [[]|e]]; [apply IH | reflexivity].
Qed.

(** ** Pointers that do not resolve *)

Lemma sequence_part_raise part e :
  JsonPointer.sequence_part part = Raise e ->
  e = JsonPointerException \/ e = ValueError.
Proof.
  unfold JsonPointer.sequence_part, Str.int.
  destruct (String.eqb part "-"); [discriminate|].
  destruct (JsonPointer.array_index part); [|intros [= <-]; auto].
  destruct part; simpl; [intros [= <-]; auto|].
  match goal with |- context [if ?b then _ else _] => destruct b end;
    simpl; [discriminate | intros [= <-]; auto].
Qed.

Lemma get_part_raise h doc part e :
  JsonPointer.get_part h doc part = Raise e ->
  e = JsonPointerException \/ e = ValueError.
Proof.
  unfold JsonPointer.get_part.
  destruct (is_Mapping h doc); [discriminate|].
  destruct (is_Sequence h doc); [apply sequence_part_raise|].
  intros [= <-]; auto.
Qed.

(** A step raises the library's exception, or the ValueError of [int] on a
    part such as [0x] that the index pattern lets through. *)
Lemma walk_raise h doc part e :
  JsonPointer.walk h doc part = Raise e ->
  e = JsonPointerException \/ e = ValueError.
Proof.
  unfold JsonPointer.walk.
  destruct (JsonPointer.get_part h doc part) as [p|e'] eqn:Hp; simpl.
  - intros H. left.
    destruct doc; try (destruct p; congruence).
    + destruct p; [congruence|].
      destruct (Str.char_at n s); congruence.
    + destruct (h !! a) as [[l|d]|]; destruct p; try congruence.
      * destruct (l !! n); congruence.
      * destruct (Dict.get s d); congruence.
  - intros [= <-]. eapply get_part_raise; eassumption.
Qed.

Lemma resolve_raise h parts : forall doc e,
  JsonPointer.resolve h doc parts = Raise e ->
  e = JsonPointerException \/ e = ValueError.
Proof.
  induction parts as [|part rest IH]; intros doc e; simpl; [discriminate|].
  destruct (JsonPointer.walk h doc part) as [d|e'] eqn:Hw; simpl.
  - apply IH.
  - intros [= <-]. eapply walk_raise; eassumption.
Qed.

(** A deletion that raises has deleted nothing. *)
Lemma delitem_raise parent name h h' e :
  delitem parent name h = (h', Raise e) -> h' = h.
Proof.
  unfold delitem.
  destruct parent; try (intros [= <- _]; reflexivity).
  destruct (h !! a) as [[l|d]|]; [| |intros [= <- _]; reflexivity].
  - destruct name as [[k|n]|]; try (intros [= <- _]; reflexivity).
    destruct (n <? length l)%nat; [discriminate|intros [= <- _]; reflexivity].
  - destruct name as [[k|n]|]; try (intros [= <- _]; reflexivity).
    destruct (Dict.mem k d); [discriminate|intros [= <- _]; reflexivity].
Qed.

Lemma hide_path_raise schema path h h' e :
  hide_path schema path h = (h', Raise e) -> h' = h.
Proof.
  unfold hide_path, bind, lift, reading.
  destruct (JsonPointer.parse path) as [parts|]; [|intros [= <- _]; reflexivity].
  destruct (JsonPointer.to_last h schema parts) as [pn|];
    [|intros [= <- _]; reflexivity].
  apply delitem_raise.
Qed.

(** Where the last step of a pointer fails, the deletion of that entry
    fails: there is no such index or key. *)
Lemma walk_fails_delitem_fails h doc part e :
  JsonPointer.walk h doc part = Raise e ->
  match JsonPointer.get_part h doc part with
  | Ok p => exists e', delitem doc (Some p) h = (h, Raise e')
  | Raise _ => True
  end.
Proof.
  unfold JsonPointer.walk.
  destruct (JsonPointer.get_part h doc part) as [p|e'] eqn:Hp; simpl; [|trivial].
  unfold delitem.
  destruct doc; try (intros _; eexists; reflexivity).
  destruct (h !! a) as [[l|d]|] eqn:Ha; [| |intros _; eexists; reflexivity].
  - destruct p as [k|n]; [discriminate|].
    destruct (l !! n) eqn:Hn; [discriminate|]. intros _.
    apply lookup_ge_None in Hn.
    destruct (Nat.ltb_spec n (length l)); [lia|]. eexists; reflexivity.
  - destruct p as [k|n]; [|intros _; eexists; reflexivity].
    unfold Dict.mem. destruct (Dict.get k d); [discriminate|].
    intros _. eexists; reflexivity.
Qed.

Lemma resolve_fails_hide_fails h parts : forall doc e,
  JsonPointer.resolve h doc parts = Raise e ->
  match JsonPointer.to_last h doc parts with
  | Ok pn => exists e', delitem (fst pn) (snd pn) h = (h, Raise e')
  | Raise _ => True
  end.
Proof.
  induction parts as [|part rest IH]; intros doc e; [discriminate|].
  destruct rest as [|part' rest'].
  - simpl. destruct (JsonPointer.walk h doc part) as [d|e'] eqn:Hw;
      simpl; [discriminate|]. intros _.
    pose proof (walk_fails_delitem_fails _ _ _ _ Hw) as H.
    destruct (JsonPointer.get_part h doc part); simpl; [exact H | trivial].
  - change (JsonPointer.resolve h doc (part :: part' :: rest'))
      with (rbind (JsonPointer.walk h doc part)
              (fun d => JsonPointer.resolve h d (part' :: rest'))).
    change (JsonPointer.to_last h doc (part :: part' :: rest'))
      with (rbind (JsonPointer.walk h doc part)
              (fun d => JsonPointer.to_last h d (part' :: rest'))).
    destruct (JsonPointer.walk h doc part) as [d|e']; simpl; [|trivial].
    apply IH.
Qed.

Lemma missing_segment_hide_fails h schema path parts e :
  JsonPointer.parse path = Ok parts ->
  JsonPointer.resolve h schema parts = Raise e ->
  exists e', hide_path schema path h = (h, Raise e').
Proof.
  intros Hparse Hres. unfold hide_path, bind, lift, reading. rewrite Hparse.
  pose proof (resolve_fails_hide_fails _ _ _ _ Hres) as H.
  destruct (JsonPointer.to_last h schema parts) as [pn|e']; [exact H|].
  eexists; reflexivity.
Qed.

(** ** C4: a pointer with a missing segment *)

(** C4, as the code has it.  A pointer whose resolution fails at some
    segment raises (the library's JsonPointerException, or the ValueError of
    [int]) and [resolve_pointer] leaves the store as it was; hiding such a
    path raises too, and that path deletes nothing.  The hidden paths before
    it in the list have been deleted by then: the store at the failure is
    the store that those deletions left, not the one the directive started
    from. *)
Theorem failing_pointer_keeps_store (h : heap) (schema : value)
    (pointer : string) (parts : list string) (e : exc) :
  JsonPointer.parse pointer = Ok parts ->
  JsonPointer.resolve h schema parts = Raise e ->
  (e = JsonPointerException \/ e = ValueError) /\
  resolve_pointer schema pointer h = (h, Raise e) /\
  (exists e', hide_path schema pointer h = (h, Raise e')) /\
  (forall h0 before after,
      for_each (hide_path schema) before h0 = (h, Ok tt) ->
      exists e',
        for_each (hide_path schema) (before ++ pointer :: after) h0
        = (h, Raise e')).
Proof.
  intros Hparse Hres.
  destruct (missing_segment_hide_fails _ _ _ _ _ Hparse Hres) as [e' He'].
  repeat split.
  - eapply resolve_raise; eassumption.
  - unfold resolve_pointer, bind, lift, reading. rewrite Hparse, Hres.
    reflexivity.
  - exists e'. exact He'.
  - intros h0 before after Hbefore. exists e'.
    rewrite for_each_app, Hbefore. simpl. unfold bind. rewrite He'.
    reflexivity.
Qed.

Lemma failing_pointer_keeps_store_witness :
  let h := [CDict [("b", VNum 2)]] in
  (JsonPointerException = JsonPointerException \/
   JsonPointerException = ValueError) /\
  resolve_pointer (VRef 0) "/zzz" h = (h, Raise JsonPointerException) /\
  (exists e', hide_path (VRef 0) "/zzz" h = (h, Raise e')) /\
  (forall h0 before after,
      for_each (hide_path (VRef 0)) before h0 = (h, Ok tt) ->
      exists e',
        for_each (hide_path (VRef 0)) (before ++ "/zzz" :: after) h0
        = (h, Raise e')).
Proof.
  apply (failing_pointer_keeps_store [CDict [("b", VNum 2)]] (VRef 0) "/zzz"
           ["zzz"] JsonPointerException); reflexivity.
Defined.

(** C4 as the specification states it is false: hiding [/a /zzz] in
    [{"a": 1, "b": 2}] fails on the second path with [a] already deleted. *)
Lemma failing_hide_list_has_deleted :
  ~ (forall (j : json) (hidden : string) (h h' : heap) (schema : value)
            (e : exc),
        build j [] = (h, Ok schema) ->
        for_each (hide_path schema) (Str.split " "%char hidden) h
        = (h', Raise e) ->
        h' = h).
Proof.
  intros H.
  specialize (H (JObj [("a", JNum 1); ("b", JNum 2)]) "/a /zzz"
                [CDict [("a", VNum 1); ("b", VNum 2)]]
                [CDict [("b", VNum 2)]] (VRef 0) KeyError
                eq_refl eq_refl).
  discriminate H.
Qed.

(** ** C10: [show] is read only under [hide] *)

(** C10.  Without the [hide] option the block is skipped, whatever [show]
    holds, and the store is untouched; with [hide] and without [show] the
    hidden paths are deleted and then the split of the missing [show] value
    raises AttributeError: the directive never ends normally. *)
Theorem show_only_under_hide (schema : value) (h : heap) :
  (forall shown,
      apply_visibility {| hide := None; show := shown |} schema h
      = (h, Ok tt)) /\
  (forall hidden,
      apply_visibility {| hide := Some hidden; show := None |} schema h
      = match (let* text := dumps schema in
               let* orig_schema := loads text in
               for_each (hide_path schema) (Str.split " "%char hidden)) h with
        | (h', Ok _) => (h', Raise AttributeError)
        | (h', Raise e) => (h', Raise e)
        end) /\
  (forall hidden, exists h' e,
      apply_visibility {| hide := Some hidden; show := None |} schema h
      = (h', Raise e)).
Proof.
  assert (Hmid : forall hidden,
      apply_visibility {| hide := Some hidden; show := None |} schema h
      = match (let* text := dumps schema in
               let* orig_schema := loads text in
               for_each (hide_path schema) (Str.split " "%char hidden)) h with
        | (h', Ok _) => (h', Raise AttributeError)
        | (h', Raise e) => (h', Raise e)
        end).
  { intros hidden. unfold apply_visibility; simpl. unfold bind.
    destruct (dumps schema h) as [h1 [text|e1]]; [|reflexivity].
    destruct (loads text h1) as [h2 [orig|e2]]; [|reflexivity].
    destruct (for_each (hide_path schema) (Str.split " "%char hidden) h2)
      as [h3 [[]|e3]]; reflexivity. }
  split; [reflexivity|]. split; [exact Hmid|].
  intros hidden. rewrite Hmid.
  match goal with |- context [match ?m with _ => _ end] =>
    destruct m as [h' [[]|e]] end; eauto.
Qed.

(** ** C5: a parent that is neither a mapping nor a sequence *)

(** C5 at [{"a": [{"x": {"y": 1}}, 5]}] with [hide = /a/0] and
    [show = /a/0/x/y]: after the deletion [/a/0] is the number 5, the walk
    cannot step into it, the new mapping for [x] is attached to nothing
    (lines 86-89 have no [else]) and receives [y]; the directive ends
    normally with the schema as the deletion left it. *)
Example unsupported_parent_passed_over :
  edited (JObj [("a", JArr [JObj [("x", JObj [("y", JNum 1)])]; JNum 5])])
         {| hide := Some "/a/0"; show := Some "/a/0/x/y" |}
  = Ok (JObj [("a", JArr [JNum 5])]).
Proof. vm_compute. reflexivity. Qed.

(** ** C2: the choice of the renderer *)

(** C2 at [{"definitions": {"foo": {"type": "string"}}}]: the last branch of
    [_dispatch] hands the node itself to [_process_definitions], not its
    [definitions] mapping, so the field list has the single field
    [definitions], whose body is empty; [foo] is not rendered. *)
Example definitions_field_per_key
    (nested_parse : list string -> list node)
    (normalize_name : string -> string) (st : host) :
  _dispatch nested_parse normalize_name 2
    (JObj [("definitions", JObj [("foo", JObj [("type", JStr "string")])])]) st
  = (st, Ok (One (field_list
                    [_create_field "definitions" "jsonschema-definition"
                       (Many [])]))).
Proof. reflexivity. Qed.

(** ** C6: YAML first, JSON after a scanner error *)

Section OrderedLoad.

Variable yaml_load : string -> result json.
Variable json_loads : string -> result json.
Variable directive_error : exc -> option exc.

Lemma error_call_run e l :
  (error_call directive_error e ;; raise UnboundLocalError) l
  = (l ++ [ErrorCall e], Raise (A := json) (load_failure directive_error e)).
Proof.
  unfold error_call, load_failure, emit, bind, raise, ret.
  destruct (directive_error e); reflexivity.
Qed.

(** The ways through [ordered_load]. *)
Lemma ordered_load_cases (s : stream) (l : list event) :
  ordered_load yaml_load json_loads directive_error s l =
  match yaml_load (stream_text s) with
  | Ok j => (l ++ [YamlLoad (stream_text s)], Ok j)
  | Raise ScannerError =>
      if is_bytes s then
        (l ++ [YamlLoad (stream_text s); ErrorCall AttributeError],
         Raise (load_failure directive_error AttributeError))
      else
        match json_loads (stream_text s) with
        | Ok j =>
            (l ++ YamlLoad (stream_text s) :: rewind s
               ++ [JsonLoad (stream_text s)], Ok j)
        | Raise e =>
            (l ++ YamlLoad (stream_text s) :: rewind s
               ++ [JsonLoad (stream_text s); ErrorCall e],
             Raise (load_failure directive_error e))
        end
  | Raise e =>
      (l ++ [YamlLoad (stream_text s); ErrorCall e],
       Raise (load_failure directive_error e))
  end.
Proof.
  unfold ordered_load.
  assert (Hparse : parse_stream yaml_load json_loads s l =
    match yaml_load (stream_text s) with
    | Ok j => (l ++ [YamlLoad (stream_text s)], Ok j)
    | Raise ScannerError =>
        if is_bytes s
        then (l ++ [YamlLoad (stream_text s)], Raise AttributeError)
        else (l ++ YamlLoad (stream_text s) :: rewind s
                ++ [JsonLoad (stream_text s)], json_loads (stream_text s))
    | Raise e => (l ++ [YamlLoad (stream_text s)], Raise e)
    end).
  { unfold parse_stream, emit, bind, lift, ret, raise.
    destruct (yaml_load (stream_text s)) as [j|e]; [reflexivity|].
    destruct e; try reflexivity.
    destruct s as [text|text|text]; simpl; rewrite <- ?app_assoc; reflexivity. }
  rewrite Hparse.
  destruct (yaml_load (stream_text s)) as [j|e]; [reflexivity|].
  destruct e; try (rewrite error_call_run, <- app_assoc; reflexivity).
  destruct (is_bytes s).
  { rewrite error_call_run, <- app_assoc. reflexivity. }
  destruct (json_loads (stream_text s)) as [j|e]; [reflexivity|].
  rewrite error_call_run. f_equal.
  rewrite <- app_assoc. simpl. rewrite <- app_assoc. reflexivity.
Qed.

End OrderedLoad.

(** For a [str] and for a file, whatever the parsers are: the YAML parser
    is asked first, on the text of the stream; the JSON parser is asked if
    and only if the YAML parser raised ScannerError, once, on the same text,
    and the YAML parser is not asked again.  A result comes from the YAML
    parser, or from the JSON parser after a ScannerError.  Every other
    failure, of either parser, is handed to [self.error], after which no
    parser is asked and the load ends with an exception. *)
Lemma retry_on_scanner_error
    (yaml_load json_loads : string -> result json)
    (directive_error : exc -> option exc) (s : stream) (l : list event) :
  is_bytes s = false ->
  exists (asked : list event) (r : result json),
    ordered_load yaml_load json_loads directive_error s l
    = (l ++ YamlLoad (stream_text s) :: asked, r) /\
    (In (JsonLoad (stream_text s)) asked <->
     yaml_load (stream_text s) = Raise ScannerError) /\
    (forall ev, In ev asked ->
       ev = Seek0 \/ ev = JsonLoad (stream_text s) \/ exists e, ev = ErrorCall e) /\
    length (List.filter (fun ev => match ev with JsonLoad _ => true | _ => false end)
              asked) <= 1 /\
    (forall j, r = Ok j ->
       asked = [] /\ yaml_load (stream_text s) = Ok j \/
       yaml_load (stream_text s) = Raise ScannerError /\
       json_loads (stream_text s) = Ok j) /\
    (forall x, r = Raise x ->
       exists e before,
         (yaml_load (stream_text s) = Raise e /\ e <> ScannerError \/
          yaml_load (stream_text s) = Raise ScannerError /\
          json_loads (stream_text s) = Raise e) /\
         asked = before ++ [ErrorCall e] /\
         x = load_failure directive_error e).
Proof.
  intros Hstr. rewrite ordered_load_cases, Hstr.
  destruct (yaml_load (stream_text s)) as [j|e] eqn:Hy.
  { exists [], (Ok j).
    split; [reflexivity|]. split; [split; [intros []|discriminate]|].
    split; [intros ev []|]. split; [simpl; lia|].
    split; [intros j' [= <-]; auto|discriminate]. }
  assert (Hother : e <> ScannerError ->
    exists (asked : list event) (r : result json),
      (l ++ [YamlLoad (stream_text s); ErrorCall e],
       Raise (load_failure directive_error e))
      = (l ++ YamlLoad (stream_text s) :: asked, r) /\
      (In (JsonLoad (stream_text s)) asked <->
       Raise (A := json) e = Raise ScannerError) /\
      (forall ev, In ev asked ->
         ev = Seek0 \/ ev = JsonLoad (stream_text s) \/
         exists e, ev = ErrorCall e) /\
      length (List.filter (fun ev => match ev with JsonLoad _ => true | _ => false end)
                asked) <= 1 /\
      (forall j, r = Ok j ->
         asked = [] /\ Raise (A := json) e = Ok j \/
         Raise (A := json) e = Raise ScannerError /\
         json_loads (stream_text s) = Ok j) /\
      (forall x, r = Raise x ->
         exists e0 before,
           (Raise (A := json) e = Raise e0 /\ e0 <> ScannerError \/
            Raise (A := json) e = Raise ScannerError /\
            json_loads (stream_text s) = Raise e0) /\
           asked = before ++ [ErrorCall e0] /\
           x = load_failure directive_error e0)).
  { intros Hne. exists [ErrorCall e], (Raise (load_failure directive_error e)).
    split; [reflexivity|].
    split; [split; [intros [H|[]]; discriminate H|congruence]|].
    split; [intros ev [<-|[]]; eauto|]. split; [simpl; lia|].
    split; [discriminate|].
    intros x [= <-]. exists e, []. auto. }
  destruct e; try (apply Hother; discriminate). clear Hother.
  assert (Hrewind : forall ev, In ev (rewind s) -> ev = Seek0).
  { intros ev. destruct s; simpl;
      [intros []|intros [<-|[]]; reflexivity|intros []]. }
  assert (Hcount : forall tail,
    length (List.filter (fun ev => match ev with JsonLoad _ => true | _ => false end)
              (rewind s ++ JsonLoad (stream_text s) :: tail))
    = S (length (List.filter
                   (fun ev => match ev with JsonLoad _ => true | _ => false end)
                   tail))).
  { intros tail. destruct s; reflexivity. }
  destruct (json_loads (stream_text s)) as [j|e] eqn:Hj.
  - exists (rewind s ++ [JsonLoad (stream_text s)]), (Ok j).
    split; [reflexivity|].
    split; [split; [reflexivity|intros _; apply in_or_app; right; left; reflexivity]|].
    split.
    { intros ev Hin. apply in_app_or in Hin. destruct Hin as [Hin|[<-|[]]]; auto. }
    split; [rewrite Hcount; simpl; lia|].
    split; [intros j' [= <-]; auto|discriminate].
  - exists (rewind s ++ [JsonLoad (stream_text s); ErrorCall e]),
           (Raise (load_failure directive_error e)).
    split; [reflexivity|].
    split; [split; [reflexivity|intros _; apply in_or_app; right; left; reflexivity]|].
    split.
    { intros ev Hin. apply in_app_or in Hin.
      destruct Hin as [Hin|[<-|[<-|[]]]]; eauto. }
    split; [rewrite Hcount; simpl; lia|].
    split; [discriminate|].
    intros x [= <-]. exists e, (rewind s ++ [JsonLoad (stream_text s)]).
    split; [right; auto|]. split; [|reflexivity].
    rewrite <- app_assoc. reflexivity.
Qed.

(** C6 on the content of a URL.  The content is [bytes]; when the YAML
    parser raises ScannerError on it, line 151 finds that it is not a [str],
    line 154 asks it to [seek] and gets AttributeError, and that exception
    goes to [self.error]: the JSON parser is never asked. *)
Theorem bytes_content_not_retried
    (yaml_load json_loads : string -> result json)
    (directive_error : exc -> option exc) (text : string) (l : list event) :
  yaml_load text = Raise ScannerError ->
  ordered_load yaml_load json_loads directive_error (BytesStream text) l
  = (l ++ [YamlLoad text; ErrorCall AttributeError],
     Raise (load_failure directive_error AttributeError)).
Proof.
  intros Hscan. rewrite ordered_load_cases. simpl. rewrite Hscan. reflexivity.
Qed.

Lemma bytes_content_not_retried_witness :
  let text := String "009"%char "[1]" in
  ordered_load (fun _ => Raise ScannerError)
    (fun _ => Ok (JArr [JNum 1])) (fun _ => None)
    (BytesStream text) []
  = ([YamlLoad text; ErrorCall AttributeError], Raise UnboundLocalError).
Proof.
  intros text.
  apply (bytes_content_not_retried (fun _ => Raise ScannerError)
           (fun _ => Ok (JArr [JNum 1])) (fun _ => None) text []).
  reflexivity.
Defined.


(** ** C9: the section level around the wrap *)

Lemma keeps_ret {A} (a : A) : keeps_level (ret a).
Proof. intros st st' r [= <- _]. reflexivity. Qed.

Lemma keeps_raise {A} (e : exc) : keeps_level (raise (A := A) e).
Proof. intros st st' r [= <- _]. reflexivity. Qed.

Lemma keeps_lift {A} (x : result A) : keeps_level (lift x).
Proof. intros st st' r [= <- _]. reflexivity. Qed.

Lemma keeps_reading {A} (f : host -> result A) : keeps_level (reading f).
Proof. intros st st' r [= <- _]. reflexivity. Qed.

Lemma keeps_bind {A B} (m : F A) (k : A -> F B) :
  keeps_level m -> (forall a, keeps_level (k a)) -> keeps_level (bind m k).
Proof.
  intros Hm Hk st st' r. unfold bind.
  destruct (m st) as [st1 [a|e]] eqn:Hrun.
  - intros H. rewrite (Hk _ _ _ _ H). eapply Hm; eassumption.
  - intros [= <- _]. eapply Hm; eassumption.
Qed.

Lemma keeps_fold_m {A B} (f : B -> A -> F B) (l : list A) :
  (forall acc x, keeps_level (f acc x)) ->
  forall acc, keeps_level (fold_m f l acc).
Proof.
  intros Hf. induction l as [|x l IH]; intros acc; simpl.
  - apply keeps_ret.
  - apply keeps_bind; [apply Hf | intros; apply IH].
Qed.

Lemma keeps_set_label anchor entry : keeps_level (set_label anchor entry).
Proof. intros st st' r [= <- _]. reflexivity. Qed.

Lemma keeps_set_anonlabel anchor entry :
  keeps_level (set_anonlabel anchor entry).
Proof. intros st st' r [= <- _]. reflexivity. Qed.

Lemma keeps_add_implicit_target n : keeps_level (add_implicit_target n).
Proof. intros st st' r [= <- _]. reflexivity. Qed.

Create HintDb keeps.
#[local] Hint Resolve keeps_ret keeps_raise keeps_lift keeps_reading
  keeps_set_label keeps_set_anonlabel keeps_add_implicit_target : keeps.

Ltac keeps_step :=
  match goal with
  | |- keeps_level (bind _ _) => apply keeps_bind; [|intros]
  | |- keeps_level (fold_m _ _ _) => apply keeps_fold_m; intros
  | |- keeps_level (if ?b then _ else _) => destruct b
  | |- keeps_level (match ?x with _ => _ end) => destruct x
  | |- keeps_level _ => solve [auto with keeps]
  end.

Section Levels.

Variable nested_parse : list string -> list node.
Variable normalize_name : string -> string.
Variable inline_text : Z -> string -> list node * list node.
Variable astext : list node -> string.
Variable implicit_ids : list node -> node -> list string.

Lemma keeps_create_target schema :
  keeps_level (_create_target normalize_name schema).
Proof. unfold _create_target. repeat keeps_step. Qed.

Section Recursive.

Variable dispatch : json -> F content.
Hypothesis dispatch_keeps : forall x, keeps_level (dispatch x).

Lemma keeps_when_in key schema body add :
  keeps_level add -> keeps_level (when_in key schema body add).
Proof. intros H. unfold when_in. repeat keeps_step. Qed.

Lemma keeps_object_properties schema prop_name :
  keeps_level (_process_object_properties dispatch schema prop_name).
Proof.
  unfold _process_object_properties, property_field.
  repeat keeps_step; apply dispatch_keeps.
Qed.

Lemma keeps_bool_or_object schema label clazz :
  keeps_level (_bool_or_object dispatch schema label clazz).
Proof.
  unfold _bool_or_object. destruct schema; auto with keeps.
Qed.

Lemma keeps_dispatch_items l : keeps_level (dispatch_items dispatch l).
Proof. unfold dispatch_items. repeat keeps_step; apply dispatch_keeps. Qed.

Lemma keeps_process_definitions schema :
  keeps_level (_process_definitions dispatch schema).
Proof. unfold _process_definitions. repeat keeps_step; apply dispatch_keeps. Qed.

Lemma keeps_process_type schema :
  keeps_level (_process_type nested_parse normalize_name dispatch schema).
Proof.
  unfold _process_type.
  repeat first
    [ apply keeps_when_in
    | apply keeps_create_target
    | apply keeps_object_properties
    | apply keeps_bool_or_object
    | apply keeps_dispatch_items
    | apply dispatch_keeps
    | keeps_step ].
Qed.

Lemma keeps_dispatch_body schema :
  keeps_level (dispatch_body nested_parse normalize_name dispatch schema).
Proof.
  unfold dispatch_body, _process_reftype, _process_combinator,
    _process_singleobjects.
  repeat first
    [ apply keeps_when_in
    | apply keeps_process_type
    | apply keeps_process_definitions
    | apply keeps_dispatch_items
    | apply dispatch_keeps
    | keeps_step ].
Qed.

End Recursive.

(** Formatting the body registers labels and never touches the section
    level. *)
Lemma keeps_dispatch fuel : forall schema,
  keeps_level (_dispatch nested_parse normalize_name fuel schema).
Proof.
  induction fuel as [|fuel IH]; intros schema; simpl.
  - apply keeps_raise.
  - apply keeps_dispatch_body. exact IH.
Qed.

End Levels.

Section Wrap.

Variable nested_parse : list string -> list node.
Variable normalize_name : string -> string.
Variable inline_text : Z -> string -> list node * list node.
Variable astext : list node -> string.
Variable implicit_ids : list node -> node -> list string.

Lemma iadd_app (children : list node) (c : content) :
  iadd children c = children ++ iadd [] c.
Proof. destruct c; reflexivity. Qed.

(** The wrap on a mapping.  With a title that is a string, the title is
    read one level up and the level is set back; with a title that is not a
    string the wrap raises, and when it got as far as the title the level
    stays one up. *)
Lemma wrap_in_section_mapping d table st st' r :
  _wrap_in_section normalize_name inline_text astext implicit_ids
    (JObj d) table st = (st', r) ->
  match Dict.get "title" d with
  | Some (JStr text) =>
      section_level st' = section_level st /\
      forall out, r = Ok out ->
        exists targets ids,
          out = targets ++
                [One (titled_section normalize_name inline_text astext
                        (section_level st + 1) text ids table)]
  | Some _ =>
      (exists e, r = Raise e) /\
      (section_level st' = section_level st \/
       r = Raise AttributeError /\
       section_level st' = (section_level st + 1)%Z)
  | None =>
      section_level st' = section_level st /\
      forall out, r = Ok out -> exists targets, out = targets ++ [table]
  end.
Proof.
  unfold _wrap_in_section.
  change (py_in "$$target" (JObj d)) with (Ok (Dict.mem "$$target" d)).
  unfold bind at 1. unfold lift at 1.
  match goal with
  | |- bind ?m ?k st = _ -> _ =>
      assert (Hcreate : keeps_level m);
      [ destruct (Dict.mem "$$target" d); [|apply keeps_ret];
        apply keeps_bind; [apply keeps_create_target | intros; apply keeps_ret]
      | unfold bind at 1; destruct (m st) as [st1 [targets|e]] eqn:Hrun ]
  end.
  2:{ intros [= <- <-]. apply Hcreate in Hrun.
      destruct (Dict.get "title" d) as [[ | | |text| | | ]|];
        try (split; [eauto|left; exact Hrun]);
        (split; [exact Hrun|discriminate]). }
  apply Hcreate in Hrun. rewrite <- Hrun.
  unfold bind at 1. simpl lift. unfold Dict.mem.
  destruct (Dict.get "title" d) as [title|] eqn:Htitle.
  - unfold bind, reading, set_section_level, lift, add_implicit_target, ret.
    simpl. rewrite Htitle.
    destruct title as [ | | |text| | | ];
      try (intros [= <- <-]; split; [eauto|right; split; reflexivity]).
    simpl.
    destruct (inline_text (section_level st1 + 1) text)
      as [textnodes title_messages] eqn:Hinline.
    intros [= <- <-]. simpl. split; [reflexivity|].
    intros out [= <-]. exists targets. eexists.
    unfold titled_section. rewrite Hinline. simpl.
    rewrite (iadd_app (_ :: _)). reflexivity.
  - intros [= <- <-]. split; [reflexivity|].
    intros out [= <-]. exists targets. reflexivity.
Qed.

End Wrap.




(** ** C8: the order of the property fields *)

Lemma field_label_create_field label clazz child :
  field_label (_create_field label clazz child) = JStr label.
Proof. destruct label; reflexivity. Qed.

Lemma find_class_app clazz l1 l2 :
  find_class clazz (l1 ++ l2) =
  match find_class clazz l1 with
  | Some n => Some n
  | None => find_class clazz l2
  end.
Proof.
  unfold find_class. induction l1 as [|n l1 IH]; simpl; [reflexivity|].
  destruct (existsb (String.eqb clazz) (node_classes n)); [reflexivity|exact IH].
Qed.

(** What [if key in schema: body += ...] does on a mapping. *)
Lemma when_in_mapping key d body add st st' body' :
  when_in key (JObj d) body add st = (st', Ok body') ->
  Dict.mem key d = false /\ body' = body /\ st' = st \/
  Dict.mem key d = true /\
  exists c, add st = (st', Ok c) /\ body' = iadd body c.
Proof.
  unfold when_in, bind, lift, ret. simpl.
  destruct (Dict.mem key d).
  - destruct (add st) as [st1 [c|e]]; [|discriminate].
    intros [= <- <-]. right. eauto.
  - intros [= <- <-]. left. auto.
Qed.

Lemma when_in_extends key d body add st st' body' :
  when_in key (JObj d) body add st = (st', Ok body') ->
  exists extra, body' = body ++ extra.
Proof.
  intros H. apply when_in_mapping in H.
  destruct H as [(_ & -> & _)|(_ & c & _ & ->)].
  - exists []. symmetry. apply app_nil_r.
  - exists (iadd [] c). apply iadd_app.
Qed.

(** A field of class [jsonschema-description] is not the properties
    field. *)
Lemma when_in_description_field key d body add st st' body' :
  (forall st1 st2 c, add st1 = (st2, Ok c) ->
     exists label child,
       c = One (_create_field label "jsonschema-description" child)) ->
  when_in key (JObj d) body add st = (st', Ok body') ->
  find_class "jsonschema-properties" body = None ->
  find_class "jsonschema-properties" body' = None.
Proof.
  intros Hadd H Hbody. apply when_in_mapping in H.
  destruct H as [(_ & -> & _)|(_ & c & Hc & ->)]; [exact Hbody|].
  destruct (Hadd _ _ _ Hc) as (label & child & ->). simpl.
  rewrite find_class_app, Hbody. reflexivity.
Qed.

Section PropertyOrder.

Variable dispatch : json -> F content.

Lemma property_field_appends schema body kv st st' body' :
  property_field dispatch schema body kv st = (st', Ok body') ->
  exists clazz child, body' = body ++ [_create_field (fst kv) clazz child].
Proof.
  unfold property_field, bind, lift, ret.
  destruct (py_get schema "required" (JArr [])) as [required|]; [|discriminate].
  destruct (py_in (fst kv) required) as [is_required|]; [|discriminate].
  destruct (dispatch (snd kv) st) as [st1 [type|]]; [|discriminate].
  intros [= <- <-]. eauto.
Qed.

(** Lines 71-83: the loop adds one field per item, labelled with the key, in
    the order of the items. *)
Lemma property_fields_labels schema items : forall body st st' body',
  fold_m (property_field dispatch schema) items body st = (st', Ok body') ->
  map field_label body' =
  map field_label body ++ map (fun kv => JStr (fst kv)) items.
Proof.
  induction items as [|kv items IH]; intros body st st' body'; simpl.
  - intros [= <- <-]. symmetry. apply app_nil_r.
  - unfold bind.
    destruct (property_field dispatch schema body kv st) as [st1 [body1|]] eqn:Hstep;
      [|discriminate].
    intros Hrest. apply IH in Hrest. rewrite Hrest.
    apply property_field_appends in Hstep.
    destruct Hstep as (clazz & child & ->).
    rewrite map_app. simpl. rewrite field_label_create_field, <- app_assoc.
    reflexivity.
Qed.

Lemma object_properties_labels d prop_name props st st' fields :
  Dict.get prop_name d = Some (JObj props) ->
  _process_object_properties dispatch (JObj d) prop_name st = (st', Ok fields) ->
  map field_label (node_children fields) = map (fun kv => JStr (fst kv)) props.
Proof.
  intros Hprops. unfold _process_object_properties, bind, lift, ret. simpl.
  rewrite Hprops. simpl.
  destruct (fold_m (property_field dispatch (JObj d)) props [] st)
    as [st1 [body|]] eqn:Hloop; [|discriminate].
  intros [= <- <-]. simpl. apply property_fields_labels in Hloop. exact Hloop.
Qed.

End PropertyOrder.

Ltac bind_ok H :=
  match goal with
  | |- bind ?m ?k ?st = (_, Ok _) -> _ =>
      let st' := fresh "st" in
      let a := fresh "a" in
      unfold bind at 1;
      destruct (m st) as [st' [a|]] eqn:H; [|discriminate]
  end.

Section TypedObject.

Variable nested_parse : list string -> list node.
Variable normalize_name : string -> string.
Variable dispatch : json -> F content.

Lemma process_type_property_names d props st st' out :
  Dict.get "type" d = Some (JStr "object") ->
  Dict.get "properties" d = Some (JObj props) ->
  _process_type nested_parse normalize_name dispatch (JObj d) st = (st', Ok out) ->
  property_names out = Some (map (fun kv => JStr (fst kv)) props).
Proof.
  intros Htype Hprops. unfold _process_type.
  bind_ok H1. apply when_in_description_field in H1; [|clear|reflexivity].
  2:{ intros s1 s2 c. unfold bind, lift, ret.
      destruct (_create_target normalize_name (JObj d) s1) as [s3 [t|]];
        [|discriminate].
      destruct (py_getitem (JObj d) "$$target"); [|discriminate].
      intros [= _ <-]. eauto. }
  bind_ok H2. apply when_in_description_field in H2; [|clear|exact H1].
  2:{ intros s1 s2 c. unfold bind, lift, ret.
      destruct (py_getitem (JObj d) "description") as [text|]; [|discriminate].
      destruct (_parse_text nested_parse text); [|discriminate].
      intros [= _ <-]. eauto. }
  bind_ok H3. apply when_in_description_field in H3; [|clear|exact H2].
  2:{ intros s1 s2 c. unfold bind, lift, ret.
      destruct (py_getitem (JObj d) "type"); [|discriminate].
      intros [= _ <-]. eauto. }
  unfold bind at 1. unfold lift at 1. unfold py_get at 1. rewrite Htype.
  change (is_str_eq (JStr "object") "object") with true. cbv iota.
  bind_ok H4. apply when_in_mapping in H4.
  destruct H4 as [(Hmem & _)|(_ & c & Hc & ->)].
  { unfold Dict.mem in Hmem. rewrite Hprops in Hmem. discriminate Hmem. }
  revert Hc. bind_ok Hfields. intros [= <- <-].
  apply (object_properties_labels _ _ _ _ _ _ _ Hprops) in Hfields.
  bind_ok H5. apply when_in_extends in H5. destruct H5 as [e5 ->].
  bind_ok H6. apply when_in_extends in H6. destruct H6 as [e6 ->].
  bind_ok H7. intros [= _ <-].
  unfold property_names. simpl node_children.
  simpl iadd. rewrite <- ?app_assoc.
  rewrite find_class_app, H3. simpl. rewrite Hfields. reflexivity.
Qed.

End TypedObject.

Lemma dict_keys_del {V} (k : string) (d : list (string * V)) :
  Dict.keys (Dict.del k d) =
  List.filter (fun k' => negb (String.eqb k k')) (Dict.keys d).
Proof.
  induction d as [|[k' v] d IH]; simpl; [reflexivity|].
  destruct (String.eqb k k'); simpl; [exact IH|]. f_equal. exact IH.
Qed.

Lemma dict_keys_set {V} (k : string) (v : V) (d : list (string * V)) :
  Dict.keys (Dict.set k v d) =
  if Dict.mem k d then Dict.keys d else Dict.keys d ++ [k].
Proof.
  unfold Dict.mem. induction d as [|[k' v'] d IH]; simpl; [reflexivity|].
  destruct (String.eqb k k'); simpl; [reflexivity|].
  rewrite IH. destruct (Dict.get k d); reflexivity.
Qed.

(** C8, as the code has it.  For a typed object with a mapping of
    properties, the property fields of the formatted output come in the key
    order of the mapping that the formatter is given.  The edits act on that
    order as follows: deleting an entry of a mapping keeps the order of the
    other keys; setting a key keeps its place when the mapping has it and
    puts it last when it has not, so entries restored by [show] follow the
    order of the [show] list. *)
Theorem property_fields_in_key_order
    (nested_parse : list string -> list node)
    (normalize_name : string -> string)
    (fuel : nat) (d props : list (string * json)) (st st' : host)
    (out : content) :
  Dict.mem "$ref" d = false ->
  Dict.get "type" d = Some (JStr "object") ->
  Dict.get "properties" d = Some (JObj props) ->
  _dispatch nested_parse normalize_name fuel (JObj d) st = (st', Ok out) ->
  property_names out = Some (map (fun kv => JStr (fst kv)) props) /\
  (forall (h h' : heap) a items k,
      h !! a = Some (CDict items) ->
      delitem (VRef a) (Some (JsonPointer.Key k)) h = (h', Ok tt) ->
      h' !! a = Some (CDict (Dict.del k items)) /\
      Dict.keys (Dict.del k items)
      = List.filter (fun k' => negb (String.eqb k k')) (Dict.keys items)) /\
  (forall (h : heap) a items k v,
      h !! a = Some (CDict items) ->
      exists h',
        setitem (VRef a) k v h = (h', Ok tt) /\
        h' !! a = Some (CDict (Dict.set k v items)) /\
        Dict.keys (Dict.set k v items)
        = if Dict.mem k items then Dict.keys items
          else Dict.keys items ++ [k]).
Proof.
  intros Href Htype Hprops Hrun. split; [|split].
  - destruct fuel as [|fuel]; [discriminate Hrun|].
    simpl in Hrun. unfold dispatch_body in Hrun.
    unfold bind at 1 in Hrun. unfold lift at 1 in Hrun.
    change (py_in "$ref" (JObj d)) with (Ok (Dict.mem "$ref" d)) in Hrun.
    rewrite Href in Hrun. cbv iota in Hrun.
    unfold bind at 1 in Hrun. unfold lift at 1 in Hrun.
    change (py_in "type" (JObj d)) with (Ok (Dict.mem "type" d)) in Hrun.
    unfold Dict.mem at 1 in Hrun. rewrite Htype in Hrun. cbv iota in Hrun.
    eapply process_type_property_names; eassumption.
  - intros h h' a items k Ha. unfold delitem. rewrite Ha.
    destruct (Dict.mem k items); [|discriminate].
    intros [= <-]. split; [|apply dict_keys_del].
    apply list_lookup_insert_eq. eapply lookup_lt_Some; eassumption.
  - intros h a items k v Ha. unfold setitem. rewrite Ha.
    eexists. split; [reflexivity|]. split; [|apply dict_keys_set].
    apply list_lookup_insert_eq. eapply lookup_lt_Some; eassumption.
Qed.

Lemma property_fields_in_key_order_witness :
  let st := {| section_level := 0; docname := "index"; labels := [];
               anonlabels := []; implicit_targets := [] |} in
  let props := [("id", JObj [("type", JStr "string")]);
                ("name", JObj [("type", JStr "string")])] in
  let d := [("type", JStr "object"); ("required", JArr [JStr "id"]);
            ("properties", JObj props)] in
  let out := fst (match snd (_dispatch (fun _ => []) (fun s => s) 2 (JObj d) st)
                  with
                  | Ok out => (out, true)
                  | Raise _ => (Many [], false)
                  end) in
  property_names out = Some [JStr "id"; JStr "name"].
Proof.
  intros st props d out.
  refine (proj1 (property_fields_in_key_order (fun _ => []) (fun s => s) 2
                   d props st st out _ _ _ _)); reflexivity.
Defined.

(** C8 as the specification states it is false once [show] has edited the
    schema: with [hide = /properties] and [show = /properties/name
    /properties/id] the mapping is made anew and filled in the order of the
    [show] list, and the fields come out as [name], [id] while the loaded
    mapping has [id], [name]. *)
Lemma shown_properties_in_show_order :
  ~ (forall (j t : json) (opts : options) (props : list (string * json))
            (nested_parse : list string -> list node)
            (normalize_name : string -> string) (fuel : nat)
            (st st' : host) (out : content),
        py_getitem j "properties" = Ok (JObj props) ->
        edited j opts = Ok t ->
        _dispatch nested_parse normalize_name fuel t st = (st', Ok out) ->
        property_names out = Some (map (fun kv => JStr (fst kv)) props)).
Proof.
  intros H.
  pose (st := {| section_level := 0; docname := "index"; labels := [];
                 anonlabels := []; implicit_targets := [] |}).
  pose (props := [("id", JObj [("type", JStr "string")]);
                  ("name", JObj [("type", JStr "string")])]).
  specialize (H (JObj [("type", JStr "object"); ("properties", JObj props)])
                (JObj [("type", JStr "object");
                       ("properties",
                        JObj [("name", JObj [("type", JStr "string")]);
                              ("id", JObj [("type", JStr "string")])])])
                {| hide := Some "/properties";
                   show := Some "/properties/name /properties/id" |}
                props (fun _ => []) (fun s => s) 3 st).
  assert (Hedit : edited
            (JObj [("type", JStr "object"); ("properties", JObj props)])
            {| hide := Some "/properties";
               show := Some "/properties/name /properties/id" |}
          = Ok (JObj [("type", JStr "object");
                      ("properties",
                       JObj [("name", JObj [("type", JStr "string")]);
                             ("id", JObj [("type", JStr "string")])])]))
    by (vm_compute; reflexivity).
  match type of H with
  | forall st' out, _ -> _ -> ?run = _ -> _ =>
      destruct run as [st' [out|e]] eqn:Hrun;
      [|vm_compute in Hrun; discriminate Hrun]
  end.
  specialize (H st' out eq_refl Hedit eq_refl).
  vm_compute in Hrun. injection Hrun as <- <-.
  vm_compute in H. discriminate H.
Qed.

(** ** Trees in the store *)

(** Induction on a schema, with the hypothesis for every element and for
    every value of a mapping. *)
Lemma json_ind' (P : json -> Prop) :
  P JNull -> (forall b, P (JBool b)) -> (forall n, P (JNum n)) ->
  (forall s, P (JStr s)) ->
  (forall l, Forall P l -> P (JArr l)) ->
  (forall d, Forall (fun kv => P (snd kv)) d -> P (JObj d)) ->
  (forall j, P j -> P (JEnd j)) ->
  forall j, P j.
Proof.
  intros Hnull Hbool Hnum Hstr Harr Hobj Hend.
  fix IH 1. intros [| b | n | s | l | d | j].
  - exact Hnull.
  - apply Hbool.
  - apply Hnum.
  - apply Hstr.
  - apply Harr. induction l as [|x l IHl]; constructor; [apply IH | exact IHl].
  - apply Hobj. induction d as [|[k x] d IHd]; constructor;
      [apply IH | exact IHd].
  - apply Hend. apply IH.
Qed.

Lemma Forall2_upgrade {A B} (R R' : A -> B -> Prop) (l : list A)
    (l' : list B) :
  Forall (fun x => forall y, R x y -> R' x y) l ->
  Forall2 R l l' -> Forall2 R' l l'.
Proof.
  intros Hall H2. induction H2; inversion Hall; subst; constructor; auto.
Qed.

Lemma denotes_mono lo h j hi hi' v :
  denotes lo h hi j v -> hi <= hi' -> denotes lo h hi' j v.
Proof.
  intros Hd Hle. induction Hd; try solve [constructor; auto].
  - eapply den_arr; eauto. lia.
  - eapply den_obj; eauto. lia.
Qed.

(** The tree of an object depends on its own cells only. *)
Lemma denotes_frame lo h h' j : forall hi v,
  (forall a, lo <= a -> a < hi -> h' !! a = h !! a) ->
  denotes lo h hi j v -> denotes lo h' hi j v.
Proof.
  induction j as [| | | |l IH|d IH|j IH] using json_ind';
    intros hi v Hsame Hd; inversion Hd; subst.
  - constructor.
  - constructor.
  - constructor.
  - constructor.
  - apply den_arr with vs;
      [assumption | assumption | rewrite Hsame; assumption |].
    eapply Forall2_upgrade; [|eassumption].
    eapply Forall_impl; [exact IH|]. intros j Hj y Hy. apply Hj; [|exact Hy].
    intros b Hb1 Hb2. apply Hsame; lia.
  - apply den_obj with kvs;
      [assumption | assumption | rewrite Hsame; assumption |].
    eapply Forall2_upgrade; [|eassumption].
    eapply Forall_impl; [exact IH|]. intros kj Hj kv [Hk Hy].
    split; [exact Hk|]. apply Hj; [|exact Hy].
    intros b Hb1 Hb2. apply Hsame; lia.
  - constructor. apply IH; assumption.
Qed.

Lemma denotes_lower lo lo' h j : forall hi v,
  lo' <= lo -> denotes lo h hi j v -> denotes lo' h hi j v.
Proof.
  induction j as [| | | |l IH|d IH|j IH] using json_ind';
    intros hi v Hle Hd; inversion Hd; subst.
  - constructor.
  - constructor.
  - constructor.
  - constructor.
  - apply den_arr with vs; [lia | assumption | assumption |].
    eapply Forall2_upgrade; [|eassumption].
    eapply Forall_impl; [exact IH|]. intros j Hj y Hy. apply Hj; assumption.
  - apply den_obj with kvs; [lia | assumption | assumption |].
    eapply Forall2_upgrade; [|eassumption].
    eapply Forall_impl; [exact IH|]. intros kj Hj kv [Hk Hy].
    split; [exact Hk|]. apply Hj; assumption.
  - constructor. apply IH; assumption.
Qed.

(** Adding cells at the end changes no tree. *)
Lemma denotes_extend lo h cells hi j v :
  hi <= length h -> denotes lo h hi j v -> denotes lo (h ++ cells) hi j v.
Proof.
  intros Hhi. apply denotes_frame.
  intros a _ Ha. apply lookup_app_l. lia.
Qed.

Lemma map_m_build_denotes (f : json -> M value) (l : list json) :
  Forall (fun j => forall h, exists v cells,
            f j h = (h ++ cells, Ok v) /\
            denotes (length h) (h ++ cells) (length (h ++ cells)) j v) l ->
  forall h, exists vs cells,
    map_m f l h = (h ++ cells, Ok vs) /\
    Forall2 (denotes (length h) (h ++ cells) (length (h ++ cells))) l vs.
Proof.
  induction 1 as [|j l Hj _ IH]; intros h.
  - exists [], []. simpl. rewrite app_nil_r. split; [reflexivity|constructor].
  - destruct (Hj h) as (v & c1 & Hv & Hdv).
    destruct (IH (h ++ c1)) as (vs & c2 & Hvs & Hdvs).
    exists (v :: vs), (c1 ++ c2). simpl. unfold bind.
    rewrite Hv. fold (map_m f l). rewrite Hvs. rewrite <- app_assoc.
    split; [reflexivity|]. rewrite <- app_assoc in Hdvs. constructor.
    + apply (denotes_mono _ _ _ (length (h ++ c1))).
      * rewrite app_assoc. apply denotes_extend; [lia|exact Hdv].
      * rewrite !length_app. lia.
    + eapply Forall2_impl; [exact Hdvs|]. intros x y Hxy.
      eapply denotes_lower; [|exact Hxy]. rewrite length_app. lia.
Qed.

(** [build] lays a tree out in new cells, at the end of the store. *)
Lemma build_denotes j : forall h, exists v cells,
  build j h = (h ++ cells, Ok v) /\
  denotes (length h) (h ++ cells) (length (h ++ cells)) j v.
Proof.
  induction j as [|b|n|s|l IH|d IH|j IH] using json_ind'; intros h.
  - exists VNull, []. rewrite app_nil_r. split; [reflexivity|constructor].
  - exists (VBool b), []. rewrite app_nil_r. split; [reflexivity|constructor].
  - exists (VNum n), []. rewrite app_nil_r. split; [reflexivity|constructor].
  - exists (VStr s), []. rewrite app_nil_r. split; [reflexivity|constructor].
  - destruct (map_m_build_denotes build l IH h) as (vs & cells & Hrun & Hall).
    exists (VRef (length (h ++ cells))), (cells ++ [CList vs]).
    simpl. unfold bind, new_cell. rewrite Hrun. rewrite <- app_assoc.
    split; [reflexivity|]. rewrite app_assoc.
    apply den_arr with vs.
    + rewrite length_app. lia.
    + rewrite (length_app (h ++ cells)). simpl. lia.
    + apply list_lookup_middle. reflexivity.
    + eapply Forall2_impl; [exact Hall|]. intros x y Hxy.
      apply denotes_extend; [lia|exact Hxy].
  - assert (IH' : Forall (fun kj => forall h, exists kv cells,
              (let* v := build (snd kj) in ret (fst kj, v)) h
              = (h ++ cells, Ok kv) /\
              (fst kj = fst kv /\
               denotes (length h) (h ++ cells) (length (h ++ cells))
                 (snd kj) (snd kv))) d).
    { eapply Forall_impl; [exact IH|]. intros kj Hkj h0.
      destruct (Hkj h0) as (v & cells & Hrun & Hd).
      exists (fst kj, v), cells. unfold bind, ret. rewrite Hrun. auto. }
    clear IH.
    assert (Hloop : forall h, exists kvs cells,
      map_m (fun kv => let* v := build (snd kv) in ret (fst kv, v)) d h
      = (h ++ cells, Ok kvs) /\
      Forall2 (fun kj kv => fst kj = fst kv /\
                 denotes (length h) (h ++ cells) (length (h ++ cells))
                   (snd kj) (snd kv)) d kvs).
    { induction IH' as [|kj d' Hkj _ IHd]; intros h0.
      - exists [], []. simpl. rewrite app_nil_r.
        split; [reflexivity|constructor].
      - destruct (Hkj h0) as (kv & c1 & Hv & Hk & Hdv).
        destruct (IHd (h0 ++ c1)) as (kvs & c2 & Hvs & Hdvs).
        exists (kv :: kvs), (c1 ++ c2).
        change (map_m ?f (kj :: d') h0)
          with ((let* y := f kj in let* ys := map_m f d' in ret (y :: ys)) h0).
        unfold bind at 1. rewrite Hv. unfold bind at 1. rewrite Hvs.
        rewrite <- app_assoc. split; [reflexivity|].
        rewrite <- app_assoc in Hdvs. constructor.
        + split; [exact Hk|].
          apply (denotes_mono _ _ _ (length (h0 ++ c1))).
          * rewrite app_assoc. apply denotes_extend; [lia|exact Hdv].
          * rewrite !length_app. lia.
        + eapply Forall2_impl; [exact Hdvs|]. intros x y [Hxy1 Hxy2].
          split; [exact Hxy1|].
          eapply denotes_lower; [|exact Hxy2]. rewrite length_app. lia. }
    destruct (Hloop h) as (kvs & cells & Hrun & Hall).
    exists (VRef (length (h ++ cells))), (cells ++ [CDict kvs]).
    simpl. unfold bind at 1. unfold new_cell.
    rewrite Hrun. rewrite <- app_assoc.
    split; [reflexivity|]. rewrite app_assoc.
    apply den_obj with kvs.
    + rewrite length_app. lia.
    + rewrite (length_app (h ++ cells)). simpl. lia.
    + apply list_lookup_middle. reflexivity.
    + eapply Forall2_impl; [exact Hall|]. intros x y [Hxy1 Hxy2].
      split; [exact Hxy1|]. apply denotes_extend; [lia|exact Hxy2].
  - destruct (IH h) as (v & cells & Hrun & Hd).
    exists (VEnd v), cells. simpl. unfold bind, ret. rewrite Hrun.
    split; [reflexivity|]. constructor. exact Hd.
Qed.

(** ** Reading a tree back *)

Lemma view_end fuel h d :
  view fuel h (VEnd d) = option_map JEnd (view fuel h d).
Proof. destruct fuel; reflexivity. Qed.

Lemma view_denotes lo h j : forall hi v fuel,
  denotes lo h hi j v -> hi <= fuel -> view fuel h v = Some j.
Proof.
  induction j as [|b|n|s|l IH|d IH|j IH] using json_ind';
    intros hi v fuel Hd Hfuel; inversion Hd; subst.
  - destruct fuel; reflexivity.
  - destruct fuel; reflexivity.
  - destruct fuel; reflexivity.
  - destruct fuel; reflexivity.
  - destruct fuel as [|fuel]; [lia|]. simpl.
    match goal with Hcell : h !! a = Some _ |- _ => rewrite Hcell; clear Hcell end.
    clear Hd.
    assert (Hall : all_some (map (view fuel h) vs) = Some l).
    { match goal with Hall : Forall2 _ l vs |- _ =>
        induction Hall as [|x y l' vs' Hxy _ IHall] end; [reflexivity|].
      inversion IH as [|? ? Hx Hl]; subst. simpl.
      rewrite (Hx a y fuel Hxy ltac:(lia)). simpl.
      rewrite (IHall Hl). reflexivity. }
    rewrite Hall. reflexivity.
  - destruct fuel as [|fuel]; [lia|]. simpl.
    match goal with Hcell : h !! a = Some _ |- _ => rewrite Hcell; clear Hcell end.
    clear Hd.
    assert (Hall : all_some
              (map (fun kv => option_map (pair (fst kv)) (view fuel h (snd kv)))
                   kvs) = Some d).
    { match goal with Hall : Forall2 _ d kvs |- _ =>
        induction Hall as [|[k x] [k' y] d' kvs' [Hk Hxy] _ IHall] end;
        [reflexivity|].
      inversion IH as [|? ? Hx Hl]; subst. simpl in *. subst k'.
      rewrite (Hx a y fuel Hxy ltac:(lia)). simpl.
      rewrite (IHall Hl). reflexivity. }
    rewrite Hall. reflexivity.
  - rewrite view_end. erewrite IH; eauto.
Qed.

(** ** Walking trees in the store *)

(** A step reads the cell of the object it starts from and nothing else. *)
Lemma walk_same_cell h h' v part :
  (forall a, v = VRef a -> h' !! a = h !! a) ->
  JsonPointer.walk h' v part = JsonPointer.walk h v part.
Proof.
  intros Hsame. destruct v; try reflexivity.
  unfold JsonPointer.walk, JsonPointer.get_part, is_Mapping, is_Sequence,
    is_MutableSequence.
  rewrite (Hsame a eq_refl). reflexivity.
Qed.

Lemma dict_get_Forall2 {A B} (R : A -> B -> Prop) (k : string)
    (d1 : list (string * A)) (d2 : list (string * B)) :
  Forall2 (fun x y => fst x = fst y /\ R (snd x) (snd y)) d1 d2 ->
  match Dict.get k d1, Dict.get k d2 with
  | Some x, Some y => R x y
  | None, None => True
  | _, _ => False
  end.
Proof.
  induction 1 as [|[k1 x] [k2 y] d1 d2 [Hk Hxy] _ IH]; simpl; [trivial|].
  simpl in Hk. subst k2. destruct (String.eqb k k1); [exact Hxy|exact IH].
Qed.

(** Two objects that are the same tree take the same step, to objects that
    are the same tree again, or fail alike. *)
Lemma walk_sim lo h hi lo' h' hi' j v v' part :
  denotes lo h hi j v -> denotes lo' h' hi' j v' ->
  match JsonPointer.walk h v part, JsonPointer.walk h' v' part with
  | Ok w, Ok w' =>
      exists jw, denotes lo h hi jw w /\ denotes lo' h' hi' jw w'
  | Raise e, Raise e' => e = e'
  | _, _ => False
  end.
Proof.
  intros Hd Hd'.
  inversion Hd as [| | | | |? a js vs Hlo Hhi Hcell Hall
                   |? a kjs kvs Hlo Hhi Hcell Hall]; subst;
    inversion Hd' as [| | | | |? a' js' vs' Hlo' Hhi' Hcell' Hall'
                      |? a' kjs' kvs' Hlo' Hhi' Hcell' Hall']; subst;
    try reflexivity.
  - (* a string *)
    unfold JsonPointer.walk, JsonPointer.get_part. simpl.
    destruct (JsonPointer.sequence_part part) as [[k|n]|e]; simpl;
      [| |reflexivity].
    + exists (JEnd (JStr s)). split; repeat constructor.
    + destruct (Str.char_at n s) as [c|]; [|reflexivity].
      exists (JStr c). split; constructor.
  - (* a list *)
    unfold JsonPointer.walk, JsonPointer.get_part, is_Mapping, is_Sequence,
      is_MutableSequence.
    rewrite Hcell, Hcell'.
    destruct (JsonPointer.sequence_part part) as [[k|n]|e]; simpl;
      [| |reflexivity].
    + exists (JEnd (JArr js)). split; constructor; assumption.
    + destruct (vs !! n) as [w|] eqn:Hw.
      * destruct (Forall2_lookup_r _ _ _ _ _ Hall Hw) as (jw & Hjw & Hdw).
        destruct (Forall2_lookup_l _ _ _ _ _ Hall' Hjw) as (w' & Hw' & Hdw').
        rewrite Hw'. exists jw. split; eapply denotes_mono; eauto; lia.
      * destruct (vs' !! n) as [w'|] eqn:Hw'; [|reflexivity].
        apply lookup_ge_None in Hw. apply lookup_lt_Some in Hw'.
        apply Forall2_length in Hall. apply Forall2_length in Hall'. lia.
  - (* a mapping *)
    unfold JsonPointer.walk, JsonPointer.get_part, is_Mapping.
    rewrite Hcell, Hcell'. simpl.
    pose proof (dict_get_Forall2 _ part _ _ Hall) as H1'.
    pose proof (dict_get_Forall2 _ part _ _ Hall') as H2'.
    destruct (Dict.get part kjs) as [jw|];
      destruct (Dict.get part kvs) as [w|]; try contradiction;
      destruct (Dict.get part kvs') as [w'|]; try contradiction;
      [|reflexivity].
    exists jw. split; eapply denotes_mono; eauto; lia.
Qed.

Lemma walk_denotes lo h hi j v part w :
  denotes lo h hi j v -> JsonPointer.walk h v part = Ok w ->
  exists jw, denotes lo h hi jw w.
Proof.
  intros Hd Hw. pose proof (walk_sim _ _ _ _ _ _ _ _ _ part Hd Hd) as H.
  rewrite Hw in H. destruct H as (jw & Hjw & _). eauto.
Qed.

(** A step from a list or a dict leads to an object laid out below it, or
    to the end-of-list marker. *)
Lemma walk_ref_child lo h hi j a part w :
  denotes lo h hi j (VRef a) -> JsonPointer.walk h (VRef a) part = Ok w ->
  w = VEnd (VRef a) \/ exists jw, denotes lo h a jw w.
Proof.
  intros Hd.
  inversion Hd as [| | | | |? a' js vs Hlo Hhi Hcell Hall
                   |? a' kjs kvs Hlo Hhi Hcell Hall]; subst;
    unfold JsonPointer.walk, JsonPointer.get_part, is_Mapping, is_Sequence,
      is_MutableSequence; rewrite Hcell.
  - destruct (JsonPointer.sequence_part part) as [[k|n]|e]; simpl;
      [| |discriminate].
    + intros [= <-]. auto.
    + destruct (vs !! n) as [x|] eqn:Hx; [|discriminate]. intros [= <-].
      destruct (Forall2_lookup_r _ _ _ _ _ Hall Hx) as (jw & _ & Hdw). eauto.
  - simpl. pose proof (dict_get_Forall2 _ part _ _ Hall) as H.
    destruct (Dict.get part kvs) as [x|]; [|discriminate]. intros [= <-].
    destruct (Dict.get part kjs) as [jw|]; [|contradiction]. eauto.
Qed.

Lemma denotes_ref_bounds lo h hi j a :
  denotes lo h hi j (VRef a) -> lo <= a /\ a < hi.
Proof. intros Hd; inversion Hd; subst; auto. Qed.

Lemma resolve_sim lo h hi lo' h' hi' parts : forall j v v',
  denotes lo h hi j v -> denotes lo' h' hi' j v' ->
  match JsonPointer.resolve h v parts, JsonPointer.resolve h' v' parts with
  | Ok w, Ok w' =>
      exists jw, denotes lo h hi jw w /\ denotes lo' h' hi' jw w'
  | Raise e, Raise e' => e = e'
  | _, _ => False
  end.
Proof.
  induction parts as [|part rest IH]; intros j v v' Hd Hd'; simpl.
  - eauto.
  - pose proof (walk_sim _ _ _ _ _ _ _ _ _ part Hd Hd') as Hstep.
    destruct (JsonPointer.walk h v part) as [w|e];
      destruct (JsonPointer.walk h' v' part) as [w'|e'];
      try contradiction; simpl; [|exact Hstep].
    destruct Hstep as (jw & Hw & Hw'). eapply IH; eassumption.
Qed.

Lemma resolve_denotes lo h hi parts j v w :
  denotes lo h hi j v -> JsonPointer.resolve h v parts = Ok w ->
  exists jw, denotes lo h hi jw w.
Proof.
  intros Hd Hw. pose proof (resolve_sim _ _ _ _ _ _ parts _ _ _ Hd Hd) as H.
  rewrite Hw in H. destruct H as (jw & Hjw & _). eauto.
Qed.

(** Resolving in a tree reads the cells of the tree only. *)
Lemma resolve_frame lo h h' hi parts : forall j v,
  denotes lo h hi j v ->
  (forall a, lo <= a -> a < hi -> h' !! a = h !! a) ->
  JsonPointer.resolve h' v parts = JsonPointer.resolve h v parts.
Proof.
  induction parts as [|part rest IH]; intros j v Hd Hsame; simpl;
    [reflexivity|].
  rewrite (walk_same_cell h h' v part).
  - destruct (JsonPointer.walk h v part) as [w|e] eqn:Hw; [|reflexivity].
    simpl. destruct (walk_denotes _ _ _ _ _ _ _ Hd Hw) as (jw & Hjw).
    eapply IH; eassumption.
  - intros a ->. apply denotes_ref_bounds in Hd. apply Hsame; lia.
Qed.

Lemma resolve_below lo h hi parts : forall j v b,
  denotes lo h hi j v -> JsonPointer.resolve h v parts = Ok (VRef b) ->
  b < hi.
Proof.
  intros j v b Hd Hw. destruct (resolve_denotes _ _ _ _ _ _ _ Hd Hw) as (jw & Hjw).
  apply denotes_ref_bounds in Hjw. lia.
Qed.

(** The cell of the object that a pointer leads to is not read on the
    way. *)
Lemma resolve_insert_target lo h parts c : forall hi j v b,
  denotes lo h hi j v -> JsonPointer.resolve h v parts = Ok (VRef b) ->
  JsonPointer.resolve (<[b := c]> h) v parts = Ok (VRef b).
Proof.
  induction parts as [|part rest IH]; intros hi j v b Hd; simpl;
    [trivial|].
  destruct (JsonPointer.walk h v part) as [w|e] eqn:Hw; [|discriminate].
  simpl. intros Hrest.
  destruct (walk_denotes _ _ _ _ _ _ _ Hd Hw) as (jw & Hjw).
  rewrite (walk_same_cell h (<[b := c]> h) v part).
  - rewrite Hw. simpl. eapply IH; eassumption.
  - intros a ->. apply list_lookup_insert_ne.
    destruct (walk_ref_child _ _ _ _ _ _ _ Hd Hw) as [->|(jw' & Hjw')].
    + destruct rest; simpl in Hrest; discriminate Hrest.
    + pose proof (resolve_below _ _ _ _ _ _ _ Hjw' Hrest). lia.
Qed.

Lemma resolve_app h parts1 parts2 : forall v,
  JsonPointer.resolve h v (parts1 ++ parts2)
  = rbind (JsonPointer.resolve h v parts1)
      (fun w => JsonPointer.resolve h w parts2).
Proof.
  induction parts1 as [|part rest IH]; intros v; simpl; [reflexivity|].
  destruct (JsonPointer.walk h v part); simpl; [apply IH|reflexivity].
Qed.

(** Where both the snapshot and the edited schema have the path, the loop
    of [show] walks it in both and changes nothing. *)
Lemma show_walk_found h parts : forall o c o' c',
  JsonPointer.resolve h o parts = Ok o' ->
  JsonPointer.resolve h c parts = Ok c' ->
  show_walk parts (o, c) h = (h, Ok (o', c')).
Proof.
  induction parts as [|part rest IH]; intros o c o' c'; simpl.
  - intros [= <-] [= <-]. reflexivity.
  - destruct (JsonPointer.walk h o part) as [o1|] eqn:Ho; [|discriminate].
    destruct (JsonPointer.walk h c part) as [c1|] eqn:Hc; [|discriminate].
    simpl. intros Ho' Hc'. unfold bind at 1.
    unfold show_step, bind, reading. simpl. rewrite Ho, Hc.
    apply IH; assumption.
Qed.

Lemma to_last_app h parts part : forall doc,
  JsonPointer.to_last h doc (parts ++ [part])
  = rbind (JsonPointer.resolve h doc parts) (fun parent =>
      rbind (JsonPointer.get_part h parent part) (fun p =>
        Ok (parent, Some p))).
Proof.
  induction parts as [|p rest IH]; intros doc; [reflexivity|].
  destruct rest as [|p' rest'].
  - simpl. destruct (JsonPointer.walk h doc p); reflexivity.
  - change (JsonPointer.to_last h doc ((p :: p' :: rest') ++ [part]))
      with (rbind (JsonPointer.walk h doc p)
              (fun d => JsonPointer.to_last h d ((p' :: rest') ++ [part]))).
    change (JsonPointer.resolve h doc (p :: p' :: rest'))
      with (rbind (JsonPointer.walk h doc p)
              (fun d => JsonPointer.resolve h d (p' :: rest'))).
    destruct (JsonPointer.walk h doc p); simpl; [apply IH|reflexivity].
Qed.

(** ** C3: hide and show of the same path *)

Lemma dict_get_set_eq {V} (k : string) (v : V) (d : list (string * V)) :
  Dict.get k (Dict.set k v d) = Some v.
Proof.
  induction d as [|[k' v'] d IH]; simpl.
  - rewrite String.eqb_refl. reflexivity.
  - destruct (String.eqb k k') eqn:Hk; simpl; rewrite Hk; [reflexivity|exact IH].
Qed.

(** What the tree of an object is, is decided by the store. *)
Lemma denotes_unique lo h hi j lo' hi' j' v :
  denotes lo h hi j v -> denotes lo' h hi' j' v -> j = j'.
Proof.
  intros H H'.
  pose proof (view_denotes _ _ _ _ _ (hi + hi') H ltac:(lia)) as E.
  pose proof (view_denotes _ _ _ _ _ (hi + hi') H' ltac:(lia)) as E'.
  congruence.
Qed.

(** The subtree at a pointer, in terms of the store that [build] makes. *)
Lemma resolved_spec j parts t :
  resolved j parts = Ok t ->
  forall h schema, build j [] = (h, Ok schema) ->
  exists v, JsonPointer.resolve h schema parts = Ok v /\
            denotes 0 h (length h) t v.
Proof.
  unfold resolved. intros Hres h schema Hbuild. rewrite Hbuild in Hres.
  destruct (build_denotes j []) as (v0 & cells & Hb & Hden).
  simpl in Hb, Hden. rewrite Hbuild in Hb. injection Hb as <- <-.
  destruct (JsonPointer.resolve h schema parts) as [v|] eqn:Hv;
    [|discriminate].
  exists v. split; [reflexivity|].
  destruct (resolve_denotes _ _ _ _ _ _ _ Hden Hv) as (jw & Hjw).
  rewrite (view_denotes _ _ _ _ _ _ Hjw (Nat.le_refl _)) in Hres.
  injection Hres as <-. exact Hjw.
Qed.

Lemma resolved_intro j parts t h schema v :
  build j [] = (h, Ok schema) ->
  JsonPointer.resolve h schema parts = Ok v ->
  denotes 0 h (length h) t v ->
  resolved j parts = Ok t.
Proof.
  intros Hbuild Hv Hd. unfold resolved. rewrite Hbuild, Hv.
  rewrite (view_denotes _ _ _ _ _ _ Hd (Nat.le_refl _)). reflexivity.
Qed.

(** C3, as the code has it.  Where the path is in the schema and its parent
    is a mapping, hiding the path and showing it again ends normally, and
    the subtree then found at the path is the subtree that the schema had
    there; the formatter, run on the object at the path, gives what it
    gives for the original subtree.  (The entry itself has moved to the end
    of its mapping.) *)
Theorem hide_then_show_restores (j : json) (path : string)
    (parts : list string) (k : string) (d : list (string * json))
    (sub : json) :
  has_end j = false ->
  Str.split " "%char path = [path] ->
  JsonPointer.parse path = Ok (parts ++ [k]) ->
  resolved j parts = Ok (JObj d) ->
  Dict.get k d = Some sub ->
  exists h schema v,
    directive j {| hide := Some path; show := Some path |} = (h, Ok schema) /\
    JsonPointer.resolve h schema (parts ++ [k]) = Ok v /\
    view (length h) h v = Some sub /\
    resolved j (parts ++ [k]) = Ok sub /\
    forall nested_parse normalize_name inline_text astext implicit_ids fuel st,
      run nested_parse normalize_name inline_text astext implicit_ids
        fuel h v st
      = transform nested_parse normalize_name inline_text astext implicit_ids
          fuel sub st.
Proof.
  intros Hend Hsplit Hparse Hparent Hk.
  (* the loaded schema *)
  destruct (build_denotes j []) as (rs & h0 & Hbuild & Hden0).
  simpl in Hbuild, Hden0.
  destruct (resolved_spec _ _ _ Hparent _ _ Hbuild) as (vp & Hvp & Hdp).
  inversion Hdp as [| | | | | |? ap kjs dv _ Hap Hcellp Hallp]; subst.
  pose proof (dict_get_Forall2 _ k _ _ Hallp) as Hget. rewrite Hk in Hget.
  destruct (Dict.get k dv) as [vk|] eqn:Hvk; [|contradiction].
  (* the snapshot *)
  destruct (build_denotes j h0) as (ro & cells & Hloads & Hden1).
  set (h1 := h0 ++ cells) in *.
  assert (Hsame01 : forall a, 0 <= a -> a < length h0 -> h1 !! a = h0 !! a).
  { intros a _ Ha. apply lookup_app_l. exact Ha. }
  assert (Hrs1 : denotes 0 h1 (length h0) j rs).
  { apply denotes_extend; [lia|exact Hden0]. }
  assert (Hvp1 : JsonPointer.resolve h1 rs parts = Ok (VRef ap)).
  { rewrite (resolve_frame _ _ _ _ _ _ _ Hden0 Hsame01). exact Hvp. }
  assert (Hcellp1 : h1 !! ap = Some (CDict dv)).
  { rewrite Hsame01; [exact Hcellp|lia|exact Hap]. }
  assert (Hlen1 : length h0 <= length h1).
  { unfold h1. rewrite length_app. lia. }
  (* the same path in the snapshot *)
  pose proof (resolve_sim _ _ _ _ _ _ parts _ _ _ Hrs1 Hden1) as Hsim.
  rewrite Hvp1 in Hsim.
  destruct (JsonPointer.resolve h1 ro parts) as [op|] eqn:Hop; [|contradiction].
  destruct Hsim as (jw & Hjw & Hdop).
  assert (jw = JObj d).
  { eapply denotes_unique; [exact Hjw|].
    eapply denotes_frame; [|exact Hdp]. intros a _ Ha. apply Hsame01; lia. }
  subst jw. clear Hjw.
  inversion Hdop as [| | | | | |? aop kjs dov Haop1 Haop2 Hcello Hallo]; subst.
  pose proof (dict_get_Forall2 _ k _ _ Hallo) as Hgeto. rewrite Hk in Hgeto.
  destruct (Dict.get k dov) as [vo|] eqn:Hvo; [|contradiction].
  (* the stores after the hide and after the show *)
  set (h2 := <[ap := CDict (Dict.del k dv)]> h1).
  set (h3 := <[ap := CDict (Dict.set k vo (Dict.del k dv))]> h1).
  assert (Hap1 : ap < length h1) by lia.
  assert (Hsnap : forall h', (exists c, h' = <[ap := c]> h1) ->
            forall a, length h0 <= a -> a < length h1 -> h' !! a = h1 !! a).
  { intros h' [c ->] a Ha _. apply list_lookup_insert_ne. lia. }
  assert (Hop2 : JsonPointer.resolve h2 ro parts = Ok (VRef aop)).
  { rewrite (resolve_frame _ _ _ _ _ _ _ Hden1 (Hsnap h2 ltac:(eexists; reflexivity))).
    exact Hop. }
  assert (Hvp2 : JsonPointer.resolve h2 rs parts = Ok (VRef ap)).
  { eapply resolve_insert_target; eassumption. }
  assert (Hvp3 : JsonPointer.resolve h3 rs parts = Ok (VRef ap)).
  { eapply resolve_insert_target; eassumption. }
  assert (Hcell2 : h2 !! ap = Some (CDict (Dict.del k dv))).
  { apply list_lookup_insert_eq. exact Hap1. }
  assert (Hcell3 : h3 !! ap = Some (CDict (Dict.set k vo (Dict.del k dv)))).
  { apply list_lookup_insert_eq. exact Hap1. }
  assert (Hcello2 : h2 !! aop = Some (CDict dov)).
  { unfold h2. rewrite list_lookup_insert_ne; [exact Hcello|lia]. }
  assert (Hh3 : <[ap := CDict (Dict.set k vo (Dict.del k dv))]> h2 = h3).
  { unfold h2, h3. apply list_insert_insert_eq. }
  exists h3, rs, vo.
  assert (Hview : view (length h3) h3 vo = Some sub).
  { eapply view_denotes.
    - eapply denotes_frame; [|exact Hgeto].
      intros a Ha1 Ha2. unfold h3. apply list_lookup_insert_ne. lia.
    - unfold h3. rewrite length_insert. lia. }
  split; [|split; [|split; [exact Hview|split]]].
  - (* the run *)
    assert (Hdumps : dumps rs h0 = (h0, Ok j)).
    { unfold dumps.
      rewrite (view_denotes _ _ _ _ _ _ Hden0 (Nat.le_refl _)), Hend.
      reflexivity. }
    assert (Hhide : hide_path rs path h1 = (h2, Ok tt)).
    { unfold hide_path, bind, lift, reading. rewrite Hparse.
      rewrite to_last_app, Hvp1. simpl rbind.
      unfold JsonPointer.get_part, is_Mapping. rewrite Hcellp1. simpl.
      rewrite Hcellp1. unfold Dict.mem. rewrite Hvk. reflexivity. }
    assert (Hwalk : JsonPointer.resolve h2 ro (parts ++ [k]) = Ok vo).
    { rewrite resolve_app, Hop2. simpl.
      unfold JsonPointer.walk, JsonPointer.get_part, is_Mapping.
      rewrite Hcello2. simpl. rewrite Hvo. reflexivity. }
    assert (Hshow : show_path ro rs path h2 = (h3, Ok tt)).
    { unfold show_path. unfold bind at 1. unfold lift at 1. rewrite Hparse.
      rewrite removelast_last. unfold bind at 1.
      rewrite (show_walk_found _ _ _ _ _ _ Hop2 Hvp2). simpl snd.
      unfold show_attach, is_MutableSequence, is_MutableMapping, is_Mapping.
      rewrite Hcell2. unfold bind, reading, lift. rewrite Hwalk.
      unfold last_part. rewrite last_snoc. unfold setitem.
      rewrite Hcell2, Hh3. reflexivity. }
    unfold directive, apply_visibility; simpl hide; simpl show.
    unfold bind at 1. rewrite Hbuild.
    unfold bind at 1. unfold bind at 1. rewrite Hdumps.
    unfold bind at 1. unfold loads. rewrite Hloads. fold h1.
    unfold split_option. rewrite Hsplit. simpl for_each.
    unfold bind, ret. rewrite Hhide. cbv beta iota.
    simpl for_each. unfold bind, ret. rewrite Hshow.
    reflexivity.
  - (* the path in the edited schema *)
    rewrite resolve_app, Hvp3. simpl.
    unfold JsonPointer.walk, JsonPointer.get_part, is_Mapping.
    rewrite Hcell3. simpl. rewrite dict_get_set_eq. reflexivity.
  - (* the path in the schema as loaded *)
    eapply resolved_intro; [exact Hbuild| |].
    + rewrite resolve_app, Hvp. simpl.
      unfold JsonPointer.walk, JsonPointer.get_part, is_Mapping.
      rewrite Hcellp. simpl. rewrite Hvk. reflexivity.
    + eapply denotes_mono; [exact Hget|lia].
  - intros. unfold run. rewrite Hview. reflexivity.
Qed.

Lemma hide_then_show_restores_witness :
  let sub := JObj [("type", JStr "string")] in
  let d := [("id", JObj [("type", JStr "integer")]); ("secret", sub)] in
  let j := JObj [("type", JStr "object"); ("properties", JObj d)] in
  let path := "/properties/secret" in
  exists h schema v,
    directive j {| hide := Some path; show := Some path |} = (h, Ok schema) /\
    JsonPointer.resolve h schema (["properties"] ++ ["secret"]) = Ok v /\
    view (length h) h v = Some sub /\
    resolved j (["properties"] ++ ["secret"]) = Ok sub /\
    forall nested_parse normalize_name inline_text astext implicit_ids fuel st,
      run nested_parse normalize_name inline_text astext implicit_ids
        fuel h v st
      = transform nested_parse normalize_name inline_text astext implicit_ids
          fuel sub st.
Proof.
  intros sub d j path.
  apply (hide_then_show_restores j path ["properties"] "secret" d sub);
    reflexivity.
Defined.

(** C3 as the specification states it is false under a sequence: in
    [{"oneOf": [{"type": "string"}, {"type": "integer"}]}], hiding and
    showing [/oneOf/0] deletes the first alternative and appends it, so the
    subtree at [/oneOf/0] is then the integer type and formats as such. *)
Lemma hide_then_show_moves_list_entry :
  ~ (forall (j t sub sub' : json) (path : string) (parts : list string)
            (nested_parse : list string -> list node)
            (normalize_name : string -> string) (fuel : nat) (st : host),
        JsonPointer.parse path = Ok parts ->
        resolved j parts = Ok sub ->
        edited j {| hide := Some path; show := Some path |} = Ok t ->
        resolved t parts = Ok sub' ->
        _dispatch nested_parse normalize_name fuel sub' st
        = _dispatch nested_parse normalize_name fuel sub st).
Proof.
  intros H.
  specialize (H (JObj [("oneOf", JArr [JObj [("type", JStr "string")];
                                       JObj [("type", JStr "integer")]])])
                (JObj [("oneOf", JArr [JObj [("type", JStr "integer")];
                                       JObj [("type", JStr "string")]])])
                (JObj [("type", JStr "string")])
                (JObj [("type", JStr "integer")])
                "/oneOf/0" ["oneOf"; "0"] (fun _ => []) (fun s => s) 1
                {| section_level := 0; docname := "index"; labels := [];
                   anonlabels := []; implicit_targets := [] |}
                eq_refl eq_refl).
  assert (Hedit : edited
            (JObj [("oneOf", JArr [JObj [("type", JStr "string")];
                                   JObj [("type", JStr "integer")]])])
            {| hide := Some "/oneOf/0"; show := Some "/oneOf/0" |}
          = Ok (JObj [("oneOf", JArr [JObj [("type", JStr "integer")];
                                      JObj [("type", JStr "string")]])]))
    by (vm_compute; reflexivity).
  specialize (H Hedit eq_refl). vm_compute in H. discriminate H.
Qed.

(** ** C1: what [show] restores *)

Lemma dict_get_Forall {V} (P : V -> Prop) (k : string)
    (d : list (string * V)) (v : V) :
  Forall (fun kv => P (snd kv)) d -> Dict.get k d = Some v -> P v.
Proof.
  induction 1 as [|[k' v'] d Hv _ IH]; simpl; [discriminate|].
  destruct (String.eqb k k'); [intros [= <-]; exact Hv | exact IH].
Qed.

Lemma dict_del_Forall {V} (P : string * V -> Prop) (k : string)
    (d : list (string * V)) :
  Forall P d -> Forall P (Dict.del k d).
Proof.
  induction 1 as [|[k' v'] d Hv _ IH]; simpl; [constructor|].
  destruct (String.eqb k k'); [exact IH | constructor; assumption].
Qed.

Lemma dict_set_Forall {V} (P : string * V -> Prop) (k : string) (v : V)
    (d : list (string * V)) :
  (forall k', P (k', v)) -> Forall P d -> Forall P (Dict.set k v d).
Proof.
  intros Hv. induction 1 as [|[k' v'] d Hv' Hd IH]; simpl.
  - constructor; [apply Hv|constructor].
  - destruct (String.eqb k k'); constructor; auto.
Qed.

Lemma walk_outside lo hi h v part w :
  apart lo hi h -> refs_in (outside lo hi) v ->
  JsonPointer.walk h v part = Ok w -> refs_in (outside lo hi) w.
Proof.
  intros Hapart Hv. unfold JsonPointer.walk.
  destruct (JsonPointer.get_part h v part) as [p|]; [|discriminate]. simpl.
  destruct v; try (destruct p; discriminate).
  - destruct p as [k|n]; [intros [= <-]; exact I|].
    destruct (Str.char_at n s); [|discriminate]. intros [= <-]. exact I.
  - destruct (h !! a) as [[l|d]|] eqn:Hcell; [| |destruct p; discriminate].
    + destruct p as [k|n]; [intros [= <-]; exact Hv|].
      destruct (l !! n) as [x|] eqn:Hx; [|discriminate]. intros [= <-].
      pose proof (Hapart _ _ Hcell Hv) as Hc. simpl in Hc.
      eapply Forall_lookup_1; eassumption.
    + destruct p as [k|n]; [|discriminate].
      destruct (Dict.get k d) as [x|] eqn:Hx; [|discriminate]. intros [= <-].
      pose proof (Hapart _ _ Hcell Hv) as Hc. simpl in Hc.
      eapply dict_get_Forall; eassumption.
Qed.

Lemma resolve_outside lo hi h parts : forall v w,
  apart lo hi h -> refs_in (outside lo hi) v ->
  JsonPointer.resolve h v parts = Ok w -> refs_in (outside lo hi) w.
Proof.
  induction parts as [|part rest IH]; intros v w Hapart Hv; simpl.
  - intros [= <-]. exact Hv.
  - destruct (JsonPointer.walk h v part) as [x|] eqn:Hx; [|discriminate].
    simpl. apply IH; [exact Hapart|]. eapply walk_outside; eassumption.
Qed.

Lemma to_last_outside lo hi h parts : forall v pn,
  apart lo hi h -> refs_in (outside lo hi) v ->
  JsonPointer.to_last h v parts = Ok pn -> refs_in (outside lo hi) (fst pn).
Proof.
  induction parts as [|part rest IH]; intros v pn Hapart Hv.
  - intros [= <-]. exact Hv.
  - destruct rest as [|part' rest'].
    + simpl. destruct (JsonPointer.get_part h v part); [|discriminate].
      intros [= <-]. exact Hv.
    + change (JsonPointer.to_last h v (part :: part' :: rest'))
        with (rbind (JsonPointer.walk h v part)
                (fun d => JsonPointer.to_last h d (part' :: rest'))).
      destruct (JsonPointer.walk h v part) as [x|] eqn:Hx; [|discriminate].
      simpl. apply IH; [exact Hapart|]. eapply walk_outside; eassumption.
Qed.

(** Replacing the cell of an object outside the snapshot by one that holds
    objects outside the snapshot. *)
Lemma apart_insert lo hi h b c :
  apart lo hi h -> cell_refs_in (outside lo hi) c ->
  apart lo hi (<[b := c]> h).
Proof.
  intros Hapart Hc a c' Hcell Ha.
  destruct (decide (b = a)) as [->|Hne].
  - apply list_lookup_insert_Some in Hcell.
    destruct Hcell as [(_ & <- & _)|(Hne & _)]; [exact Hc|congruence].
  - rewrite list_lookup_insert_ne in Hcell by exact Hne. eauto.
Qed.

Lemma apart_new_cell lo hi h c :
  apart lo hi h -> cell_refs_in (outside lo hi) c -> apart lo hi (h ++ [c]).
Proof.
  intros Hapart Hc a c' Hcell Ha.
  apply lookup_app_Some in Hcell.
  destruct Hcell as [Hcell|(_ & Hcell)]; [eauto|].
  apply list_lookup_singleton_Some in Hcell. destruct Hcell as (_ & <-).
  exact Hc.
Qed.

(** A deletion outside the snapshot leaves the snapshot alone. *)
Lemma delitem_apart lo hi h h' parent name r :
  apart lo hi h -> refs_in (outside lo hi) parent ->
  delitem parent name h = (h', r) ->
  apart lo hi h' /\ length h' = length h /\
  forall a, lo <= a -> a < hi -> h' !! a = h !! a.
Proof.
  intros Hapart Hp. unfold delitem.
  assert (Hsame : apart lo hi h /\ length h = length h /\
            forall a, lo <= a -> a < hi -> h !! a = h !! a) by auto.
  destruct parent; try (intros [= <- _]; exact Hsame).
  destruct (h !! a) as [[l|d]|] eqn:Hcell; [| |intros [= <- _]; exact Hsame].
  - destruct name as [[k|n]|]; try (intros [= <- _]; exact Hsame).
    destruct (n <? length l)%nat; [|intros [= <- _]; exact Hsame].
    intros [= <- _]. split; [|split].
    + apply apart_insert; [exact Hapart|]. simpl.
      apply Forall_delete. exact (Hapart _ _ Hcell Hp).
    + apply length_insert.
    + intros b Hb1 Hb2. apply list_lookup_insert_ne.
      simpl in Hp. unfold outside in Hp. lia.
  - destruct name as [[k|n]|]; try (intros [= <- _]; exact Hsame).
    destruct (Dict.mem k d); [|intros [= <- _]; exact Hsame].
    intros [= <- _]. split; [|split].
    + apply apart_insert; [exact Hapart|]. simpl.
      apply dict_del_Forall. exact (Hapart _ _ Hcell Hp).
    + apply length_insert.
    + intros b Hb1 Hb2. apply list_lookup_insert_ne.
      simpl in Hp. unfold outside in Hp. lia.
Qed.

Lemma hide_path_apart lo hi h h' schema path r :
  apart lo hi h -> refs_in (outside lo hi) schema ->
  hide_path schema path h = (h', r) ->
  apart lo hi h' /\ length h' = length h /\
  forall a, lo <= a -> a < hi -> h' !! a = h !! a.
Proof.
  intros Hapart Hs. unfold hide_path, bind, lift, reading.
  destruct (JsonPointer.parse path) as [parts|];
    [|intros [= <- _]; auto].
  destruct (JsonPointer.to_last h schema parts) as [pn|] eqn:Hpn;
    [|intros [= <- _]; auto].
  apply delitem_apart; [exact Hapart|].
  eapply to_last_outside; eassumption.
Qed.

Lemma hide_paths_apart lo hi schema paths : forall h h' r,
  apart lo hi h -> refs_in (outside lo hi) schema ->
  for_each (hide_path schema) paths h = (h', r) ->
  apart lo hi h' /\ length h' = length h /\
  forall a, lo <= a -> a < hi -> h' !! a = h !! a.
Proof.
  induction paths as [|path rest IH]; intros h h' r Hapart Hs; simpl.
  - intros [= <- _]. auto.
  - unfold bind.
    destruct (hide_path schema path h) as [h1 [[]|e]] eqn:Hstep.
    + intros Hrest.
      destruct (hide_path_apart _ _ _ _ _ _ _ Hapart Hs Hstep)
        as (Hapart1 & Hlen1 & Hsame1).
      destruct (IH _ _ _ Hapart1 Hs Hrest) as (Hapart' & Hlen' & Hsame').
      split; [exact Hapart'|]. split; [congruence|].
      intros a Ha1 Ha2. rewrite Hsame', Hsame1; auto.
    + intros [= <- _]. eapply hide_path_apart; eassumption.
Qed.

(** One turn of the loop of [show]: the snapshot side steps into the part;
    the edited side steps into it when it can, and otherwise a new empty
    list or dict is made, of the kind of the snapshot's node, and hung into
    the parent when that is a list or a dict. *)
Lemma show_step_spec part o c h h' o' c' :
  show_step part (o, c) h = (h', Ok (o', c')) ->
  JsonPointer.walk h o part = Ok o' /\
  (JsonPointer.walk h c part = Ok c' /\ h' = h \/
   JsonPointer.walk h c part = Raise JsonPointerException /\
   c' = VRef (length h) /\
   exists fresh,
     (fresh = CList [] /\ is_Sequence h o' = true \/
      fresh = CDict [] /\ is_Sequence h o' = false /\ is_Mapping h o' = true) /\
     (h' = h ++ [fresh] /\
      is_MutableSequence (h ++ [fresh]) c = false /\
      is_MutableMapping (h ++ [fresh]) c = false \/
      (exists b l, c = VRef b /\ (h ++ [fresh]) !! b = Some (CList l) /\
                   h' = <[b := CList (l ++ [c'])]> (h ++ [fresh])) \/
      (exists b d, c = VRef b /\ (h ++ [fresh]) !! b = Some (CDict d) /\
                   h' = <[b := CDict (Dict.set part c' d)]> (h ++ [fresh])))).
Proof.
  unfold show_step, bind, reading. simpl.
  destruct (JsonPointer.walk h o part) as [o1|] eqn:Ho; [|discriminate].
  destruct (JsonPointer.walk h c part) as [c1|e] eqn:Hc.
  { intros [= <- <- <-]. auto. }
  destruct e; try discriminate.
  assert (Hattach : forall fresh,
    (fresh = CList [] /\ is_Sequence h o1 = true \/
     fresh = CDict [] /\ is_Sequence h o1 = false /\ is_Mapping h o1 = true) ->
    (let (h1, r) := attach_entry c part (VRef (length h)) (h ++ [fresh]) in
     match r with
     | Ok _ => (h1, Ok (o1, VRef (length h)))
     | Raise e => (h1, Raise e)
     end) = (h', Ok (o', c')) ->
    Ok o1 = Ok o' /\
    (Raise JsonPointerException = Ok c' /\ h' = h \/
     Raise (A := value) JsonPointerException = Raise JsonPointerException /\
     c' = VRef (length h) /\
     exists fresh,
       (fresh = CList [] /\ is_Sequence h o' = true \/
        fresh = CDict [] /\ is_Sequence h o' = false /\ is_Mapping h o' = true) /\
       (h' = h ++ [fresh] /\
        is_MutableSequence (h ++ [fresh]) c = false /\
        is_MutableMapping (h ++ [fresh]) c = false \/
        (exists b l, c = VRef b /\ (h ++ [fresh]) !! b = Some (CList l) /\
                     h' = <[b := CList (l ++ [c'])]> (h ++ [fresh])) \/
        (exists b d, c = VRef b /\ (h ++ [fresh]) !! b = Some (CDict d) /\
                     h' = <[b := CDict (Dict.set part c' d)]> (h ++ [fresh]))))).
  { intros fresh Hfresh. unfold attach_entry, is_MutableMapping, is_Mapping,
      is_MutableSequence, append, setitem.
    destruct c as [| | | |b|]; try (simpl; intros [= <- <- <-];
      split; [reflexivity|]; right; split; [reflexivity|];
      split; [reflexivity|]; exists fresh; split; [exact Hfresh|];
      left; auto).
    destruct ((h ++ [fresh]) !! b) as [[l|d]|] eqn:Hb.
    - rewrite ?Hb. intros [= <- <- <-]. split; [reflexivity|]. right.
      split; [reflexivity|]. split; [reflexivity|]. exists fresh.
      split; [exact Hfresh|]. right. left. eauto.
    - rewrite ?Hb. intros [= <- <- <-]. split; [reflexivity|]. right.
      split; [reflexivity|]. split; [reflexivity|]. exists fresh.
      split; [exact Hfresh|]. right. right. eauto.
    - rewrite ?Hb. intros [= <- <- <-]. split; [reflexivity|]. right.
      split; [reflexivity|]. split; [reflexivity|]. exists fresh.
      split; [exact Hfresh|]. left. rewrite Hb. auto. }
  unfold new_entry_like, new_cell, ret.
  destruct (is_Sequence h o1) eqn:Hseq.
  - apply Hattach. auto.
  - destruct (is_Mapping h o1) eqn:Hmap; [|discriminate].
    apply Hattach. auto.
Qed.

Lemma refs_in_impl (P Q : nat -> Prop) v :
  (forall a, P a -> Q a) -> refs_in P v -> refs_in Q v.
Proof. intros HPQ. induction v; simpl; auto. Qed.

Lemma cell_refs_in_impl (P Q : nat -> Prop) c :
  (forall a, P a -> Q a) -> cell_refs_in P c -> cell_refs_in Q c.
Proof.
  intros HPQ. destruct c; simpl; intros Hc;
    (eapply Forall_impl; [exact Hc|]);
    intros; eapply refs_in_impl; eauto.
Qed.

Lemma closed_new_cell h c :
  closed h -> cell_refs_in (fun b => b < length h) c -> closed (h ++ [c]).
Proof.
  intros Hh Hc. unfold closed. rewrite length_app. simpl.
  apply Forall_app. split.
  - eapply Forall_impl; [exact Hh|]. intros c' Hc'.
    eapply cell_refs_in_impl; [|exact Hc']. simpl. intros; lia.
  - constructor; [|constructor].
    eapply cell_refs_in_impl; [|exact Hc]. simpl. intros; lia.
Qed.

Lemma map_m_closed {A B} (f : A -> M B) (P : heap -> B -> Prop)
    (l : list A) :
  (forall h h' y, P h y -> length h <= length h' -> P h' y) ->
  Forall (fun x => forall h h' y, f x h = (h', Ok y) -> closed h ->
            closed h' /\ P h' y /\ length h <= length h') l ->
  forall h h' ys, map_m f l h = (h', Ok ys) -> closed h ->
    closed h' /\ Forall (P h') ys /\ length h <= length h'.
Proof.
  intros Hmono. induction 1 as [|x l Hx _ IH]; intros h h' ys; simpl.
  - intros [= <- <-]. auto.
  - unfold bind. destruct (f x h) as [h1 [y|]] eqn:Hy; [|discriminate].
    fold (map_m f l).
    destruct (map_m f l h1) as [h2 [ys'|]] eqn:Hys; [|discriminate].
    intros [= <- <-] Hclosed.
    destruct (Hx _ _ _ Hy Hclosed) as (Hc1 & Hp1 & Hl1).
    destruct (IH _ _ _ Hys Hc1) as (Hc2 & Hp2 & Hl2).
    split; [exact Hc2|]. split; [|lia].
    constructor; [eapply Hmono; eassumption|exact Hp2].
Qed.

Lemma build_closed j : forall h h' v,
  build j h = (h', Ok v) -> closed h ->
  closed h' /\ refs_in (fun b => b < length h') v /\ length h <= length h'.
Proof.
  induction j as [|b|n|s|l IH|d IH|j IH] using json_ind'; intros h h' v; simpl.
  - intros [= <- <-]. simpl. auto.
  - intros [= <- <-]. simpl. auto.
  - intros [= <- <-]. simpl. auto.
  - intros [= <- <-]. simpl. auto.
  - unfold bind at 1.
    destruct (map_m build l h) as [h1 [vs|]] eqn:Hvs; [|discriminate].
    unfold new_cell. intros [= <- <-] Hclosed.
    destruct (map_m_closed build
                (fun h v => refs_in (fun b => b < length h) v) l
                ltac:(intros ? ? ? Hv ?; eapply refs_in_impl; [|exact Hv];
                      simpl; intros; lia)
                IH _ _ _ Hvs Hclosed) as (Hc1 & Hp1 & Hl1).
    split; [|split].
    + apply closed_new_cell; assumption.
    + simpl. rewrite length_app. simpl. lia.
    + rewrite length_app. lia.
  - unfold bind at 1.
    destruct (map_m (fun kv => let* v := build (snd kv) in ret (fst kv, v)) d h)
      as [h1 [kvs|]] eqn:Hkvs; [|discriminate].
    unfold new_cell. intros [= <- <-] Hclosed.
    destruct (map_m_closed
                (fun kv => let* v := build (snd kv) in ret (fst kv, v))
                (fun h (kv : string * value) =>
                   refs_in (fun b => b < length h) (snd kv)) d
                ltac:(intros ? ? ? Hv ?; eapply refs_in_impl; [|exact Hv];
                      simpl; intros; lia)) with (h := h) (h' := h1) (ys := kvs)
      as (Hc1 & Hp1 & Hl1); [|exact Hkvs|exact Hclosed|].
    { eapply Forall_impl; [exact IH|]. intros kj Hkj h2 h3 y.
      unfold bind, ret.
      destruct (build (snd kj) h2) as [h4 [x|]] eqn:Hx; [|discriminate].
      intros [= <- <-]. simpl. eapply Hkj; eassumption. }
    split; [|split].
    + apply closed_new_cell; assumption.
    + simpl. rewrite length_app. simpl. lia.
    + rewrite length_app. lia.
  - unfold bind, ret.
    destruct (build j h) as [h1 [x|]] eqn:Hx; [|discriminate].
    intros [= <- <-]. simpl. eapply IH; eassumption.
Qed.

Lemma show_step_apart lo hi part o c h h' o' c' :
  apart lo hi h -> hi <= length h -> refs_in (outside lo hi) c ->
  show_step part (o, c) h = (h', Ok (o', c')) ->
  apart lo hi h' /\ length h <= length h' /\
  refs_in (outside lo hi) c' /\
  forall a, lo <= a -> a < hi -> h' !! a = h !! a.
Proof.
  intros Hapart Hhi Hc Hstep. apply show_step_spec in Hstep.
  destruct Hstep as (_ & [(Hfound & ->)|(_ & -> & fresh & Hfresh & Hhung)]).
  { split; [exact Hapart|]. split; [lia|].
    split; [eapply walk_outside; eassumption|auto]. }
  assert (Hempty : cell_refs_in (outside lo hi) fresh).
  { destruct Hfresh as [(-> & _)|(-> & _)]; constructor. }
  assert (Hapart1 : apart lo hi (h ++ [fresh])).
  { apply apart_new_cell; assumption. }
  assert (Hnew : refs_in (outside lo hi) (VRef (length h))).
  { right. exact Hhi. }
  assert (Hsame1 : forall a, lo <= a -> a < hi ->
            (h ++ [fresh]) !! a = h !! a).
  { intros a _ Ha. apply lookup_app_l. lia. }
  destruct Hhung as [(-> & _)|[(b & l & -> & Hb & ->)|(b & d & -> & Hb & ->)]].
  - split; [exact Hapart1|]. rewrite length_app. split; [lia|]. auto.
  - split; [|split; [|split]].
    + apply apart_insert; [exact Hapart1|]. simpl. apply Forall_app.
      split; [exact (Hapart1 _ _ Hb Hc)|]. constructor; [exact Hnew|constructor].
    + rewrite length_insert, length_app. lia.
    + exact Hnew.
    + intros a Ha1 Ha2. rewrite list_lookup_insert_ne; [auto|].
      simpl in Hc. unfold outside in Hc. lia.
  - split; [|split; [|split]].
    + apply apart_insert; [exact Hapart1|]. simpl.
      apply dict_set_Forall; [intros; exact Hnew|exact (Hapart1 _ _ Hb Hc)].
    + rewrite length_insert, length_app. lia.
    + exact Hnew.
    + intros a Ha1 Ha2. rewrite list_lookup_insert_ne; [auto|].
      simpl in Hc. unfold outside in Hc. lia.
Qed.

(** The loop of [show] never writes into the snapshot, and its snapshot
    side ends at the node that the parts lead to. *)
Lemma show_walk_apart lo hi parts : forall o c h h' o' c' jo,
  apart lo hi h -> hi <= length h -> refs_in (outside lo hi) c ->
  denotes lo h hi jo o ->
  show_walk parts (o, c) h = (h', Ok (o', c')) ->
  apart lo hi h' /\ hi <= length h' /\ refs_in (outside lo hi) c' /\
  (forall a, lo <= a -> a < hi -> h' !! a = h !! a) /\
  JsonPointer.resolve h o parts = Ok o'.
Proof.
  induction parts as [|part rest IH]; intros o c h h' o' c' jo
    Hapart Hhi Hc Hdo; simpl.
  - intros [= <- <- <-]. auto.
  - unfold bind.
    destruct (show_step part (o, c) h) as [h1 [[o1 c1]|]] eqn:Hstep;
      [|discriminate].
    intros Hrest.
    destruct (show_step_apart _ _ _ _ _ _ _ _ _ Hapart Hhi Hc Hstep)
      as (Hapart1 & Hlen1 & Hc1 & Hsame1).
    apply show_step_spec in Hstep. destruct Hstep as (Ho1 & _).
    destruct (walk_denotes _ _ _ _ _ _ _ Hdo Ho1) as (jo1 & Hdo1).
    assert (Hdo1' : denotes lo h1 hi jo1 o1).
    { eapply denotes_frame; [|exact Hdo1]. exact Hsame1. }
    destruct (IH _ _ _ _ _ _ _ Hapart1 ltac:(lia) Hc1 Hdo1' Hrest)
      as (Hapart' & Hhi' & Hc' & Hsame' & Hres).
    split; [exact Hapart'|]. split; [exact Hhi'|]. split; [exact Hc'|].
    split.
    + intros a Ha1 Ha2. rewrite Hsame', Hsame1; auto.
    + rewrite Ho1. simpl.
      rewrite <- (resolve_frame _ _ _ _ _ _ _ Hdo1 Hsame1). exact Hres.
Qed.

(** Lines 93-98: the value resolved in the snapshot goes to the end of a
    list, or under the last part in a dict. *)
Lemma show_attach_spec orig c parts h h' :
  show_attach orig c parts h = (h', Ok tt) ->
  exists v b,
    c = VRef b /\ JsonPointer.resolve h orig parts = Ok v /\
    ((exists l, h !! b = Some (CList l) /\
                h' = <[b := CList (l ++ [v])]> h) \/
     (exists d k, h !! b = Some (CDict d) /\ last parts = Some k /\
                  h' = <[b := CDict (Dict.set k v d)]> h)).
Proof.
  unfold show_attach, is_MutableMapping, is_Mapping, is_MutableSequence.
  destruct c as [| | | |b|]; try discriminate.
  destruct (h !! b) as [[l|d]|] eqn:Hb; [| |discriminate].
  - unfold bind, reading, append. rewrite Hb.
    destruct (JsonPointer.resolve h orig parts) as [v|]; [|discriminate].
    intros [= <-]. exists v, b. split; [reflexivity|]. split; [reflexivity|].
    left. eauto.
  - unfold bind, reading, lift, last_part, setitem. rewrite Hb.
    destruct (JsonPointer.resolve h orig parts) as [v|]; [|discriminate].
    destruct (last parts) as [k|]; [|discriminate].
    intros [= <-]. exists v, b. split; [reflexivity|]. split; [reflexivity|].
    right. eauto.
Qed.

Ltac run_bind H name :=
  match type of H with
  | bind ?m ?k ?st = _ =>
      let st' := fresh "h" in
      let a := fresh "a" in
      unfold bind at 1 in H;
      destruct (m st) as [st' [a|]] eqn:name; [|discriminate H]
  end.

(** A new cell is where the store ended, whatever the parent it is hung
    into, unless the parent is that very cell. *)
Lemma lookup_new_cell (h : heap) (fresh c : cell) (b : nat) :
  b < length h -> <[b := c]> (h ++ [fresh]) !! length h = Some fresh.
Proof.
  intros Hb. rewrite list_lookup_insert_ne by lia.
  apply list_lookup_middle. reflexivity.
Qed.

(** The store stays closed through the hides and the walk, so that a parent
    is an object of the store and never the cell that is about to be
    made. *)
Lemma closed_lookup h a c :
  closed h -> h !! a = Some c -> cell_refs_in (fun b => b < length h) c.
Proof. intros Hh Ha. exact (proj1 (Forall_lookup _ _) Hh _ _ Ha). Qed.

Lemma closed_insert h b c :
  closed h -> cell_refs_in (fun a => a < length h) c -> closed (<[b := c]> h).
Proof.
  intros Hh Hc. unfold closed. rewrite length_insert.
  apply Forall_insert; assumption.
Qed.

Lemma walk_closed h v part w :
  closed h -> refs_in (fun b => b < length h) v ->
  JsonPointer.walk h v part = Ok w -> refs_in (fun b => b < length h) w.
Proof.
  intros Hclosed Hv. unfold JsonPointer.walk.
  destruct (JsonPointer.get_part h v part) as [p|]; [|discriminate]. simpl.
  destruct v; try (destruct p; discriminate).
  - destruct p as [k|n]; [intros [= <-]; exact I|].
    destruct (Str.char_at n s); [|discriminate]. intros [= <-]. exact I.
  - destruct (h !! a) as [[l|d]|] eqn:Hcell; [| |destruct p; discriminate].
    + destruct p as [k|n]; [intros [= <-]; exact Hv|].
      destruct (l !! n) as [x|] eqn:Hx; [|discriminate]. intros [= <-].
      pose proof (closed_lookup _ _ _ Hclosed Hcell) as Hc. simpl in Hc.
      eapply Forall_lookup_1; eassumption.
    + destruct p as [k|n]; [|discriminate].
      destruct (Dict.get k d) as [x|] eqn:Hx; [|discriminate]. intros [= <-].
      pose proof (closed_lookup _ _ _ Hclosed Hcell) as Hc. simpl in Hc.
      eapply dict_get_Forall; eassumption.
Qed.

Lemma delitem_closed h h' parent name r :
  closed h -> delitem parent name h = (h', r) ->
  closed h' /\ length h' = length h.
Proof.
  intros Hclosed. unfold delitem.
  destruct parent; try (intros [= <- _]; auto).
  destruct (h !! a) as [[l|d]|] eqn:Hcell; [| |intros [= <- _]; auto].
  - destruct name as [[k|n]|]; try (intros [= <- _]; auto).
    destruct (n <? length l)%nat; [|intros [= <- _]; auto].
    intros [= <- _]. split; [|apply length_insert].
    apply closed_insert; [exact Hclosed|]. simpl.
    apply Forall_delete. exact (closed_lookup _ _ _ Hclosed Hcell).
  - destruct name as [[k|n]|]; try (intros [= <- _]; auto).
    destruct (Dict.mem k d); [|intros [= <- _]; auto].
    intros [= <- _]. split; [|apply length_insert].
    apply closed_insert; [exact Hclosed|]. simpl.
    apply dict_del_Forall. exact (closed_lookup _ _ _ Hclosed Hcell).
Qed.

Lemma hide_paths_closed schema paths : forall h h' r,
  closed h -> for_each (hide_path schema) paths h = (h', r) ->
  closed h' /\ length h' = length h.
Proof.
  assert (Hone : forall path h h' r,
            closed h -> hide_path schema path h = (h', r) ->
            closed h' /\ length h' = length h).
  { intros path h h' r Hclosed. unfold hide_path, bind, lift, reading.
    destruct (JsonPointer.parse path) as [parts|]; [|intros [= <- _]; auto].
    destruct (JsonPointer.to_last h schema parts) as [pn|];
      [|intros [= <- _]; auto].
    apply delitem_closed. exact Hclosed. }
  induction paths as [|path rest IH]; intros h h' r Hclosed; simpl.
  - intros [= <- _]. auto.
  - unfold bind.
    destruct (hide_path schema path h) as [h1 [[]|e]] eqn:Hstep.
    + intros Hrest. destruct (Hone _ _ _ _ Hclosed Hstep) as [Hc1 Hl1].
      destruct (IH _ _ _ Hc1 Hrest) as [Hc' Hl']. split; [exact Hc'|congruence].
    + intros [= <- _]. eapply Hone; eassumption.
Qed.

Lemma show_step_closed part o c h h' o' c' :
  closed h -> refs_in (fun b => b < length h) c ->
  show_step part (o, c) h = (h', Ok (o', c')) ->
  closed h' /\ refs_in (fun b => b < length h') c' /\ length h <= length h'.
Proof.
  intros Hclosed Hc Hstep. apply show_step_spec in Hstep.
  destruct Hstep as (_ & [(Hfound & ->)|(_ & -> & fresh & Hfresh & Hhung)]).
  { split; [exact Hclosed|]. split; [|lia]. eapply walk_closed; eassumption. }
  assert (Hempty : cell_refs_in (fun b => b < length h) fresh).
  { destruct Hfresh as [(-> & _)|(-> & _)]; constructor. }
  pose proof (closed_new_cell _ _ Hclosed Hempty) as Hclosed1.
  assert (Hlen1 : length (h ++ [fresh]) = S (length h)).
  { rewrite length_app. simpl. lia. }
  destruct Hhung as [(-> & _)|[(b & l & -> & Hb & ->)|(b & d & -> & Hb & ->)]].
  - split; [exact Hclosed1|]. simpl. lia.
  - rewrite length_insert. split; [|simpl; lia].
    apply closed_insert; [exact Hclosed1|]. simpl. apply Forall_app.
    split; [exact (closed_lookup _ _ _ Hclosed1 Hb)|].
    constructor; [simpl; lia|constructor].
  - rewrite length_insert. split; [|simpl; lia].
    apply closed_insert; [exact Hclosed1|]. simpl.
    apply dict_set_Forall; [intros; simpl; lia|].
    exact (closed_lookup _ _ _ Hclosed1 Hb).
Qed.

Lemma show_walk_closed parts : forall o c h h' o' c',
  closed h -> refs_in (fun b => b < length h) c ->
  show_walk parts (o, c) h = (h', Ok (o', c')) ->
  closed h' /\ refs_in (fun b => b < length h') c'.
Proof.
  induction parts as [|part rest IH]; intros o c h h' o' c' Hclosed Hc; simpl.
  - intros [= <- <- <-]. auto.
  - unfold bind.
    destruct (show_step part (o, c) h) as [h1 [[o1 c1]|]] eqn:Hstep;
      [|discriminate].
    destruct (show_step_closed _ _ _ _ _ _ _ Hclosed Hc Hstep)
      as (Hclosed1 & Hc1 & _).
    apply IH; assumption.
Qed.

(** The walk over a list of parts is the walk over its first parts, then
    the walk over the others. *)
Lemma show_walk_app parts1 parts2 : forall st h,
  show_walk (parts1 ++ parts2) st h
  = match show_walk parts1 st h with
    | (h1, Ok st1) => show_walk parts2 st1 h1
    | (h1, Raise e) => (h1, Raise e)
    end.
Proof.
  induction parts1 as [|part rest IH]; intros st h; simpl; [reflexivity|].
  unfold bind. destruct (show_step part st h) as [h1 [st1|e]]; [apply IH|].
  reflexivity.
Qed.

(** C1, as the code has it, for the first path of [show] after any hidden
    paths.  The snapshot is then still the schema as it was loaded, and the
    value that the path is restored with is the object that the path leads
    to in the snapshot, which is the subtree of the loaded schema at that
    path.  The walk of lines 73-91 starts at the edited schema, in the store
    that the hidden paths left, and ends at a parent; the last statement
    changes that parent and nothing else: the value goes to the end of the
    parent when that is a list, whatever index the path names, and under the
    last part of the path when it is a dict.  In every turn of that walk, an
    ancestor that the edited schema lacks is made anew, empty, in a new cell
    of the store: a list when the snapshot's node at that part is a list, a
    dict when it is a dict; it is appended to the parent of that turn when
    that is a list, and set under the part when it is a dict. *)
Theorem shown_value_from_snapshot (j : json) (hidden shown : string)
    (parts : list string) (h : heap) (schema : value) :
  Str.split " "%char shown = [shown] ->
  JsonPointer.parse shown = Ok parts ->
  directive j {| hide := Some hidden; show := Some shown |} = (h, Ok schema) ->
  exists (orig_schema v : value) (sub : json) (hidden_store walked : heap)
         (o : value) (b : nat),
    view (length h) h orig_schema = Some j /\
    resolved j parts = Ok sub /\
    JsonPointer.resolve h orig_schema parts = Ok v /\
    view (length h) h v = Some sub /\
    (let* loaded := build j in
     let* text := dumps loaded in
     let* snapshot := loads text in
     for_each (hide_path loaded) (Str.split " "%char hidden) ;;
     ret (loaded, snapshot)) [] = (hidden_store, Ok (schema, orig_schema)) /\
    show_walk (removelast parts) (orig_schema, schema) hidden_store
    = (walked, Ok (o, VRef b)) /\
    ((exists l, walked !! b = Some (CList l) /\
                h = <[b := CList (l ++ [v])]> walked) \/
     (exists d k, last parts = Some k /\ walked !! b = Some (CDict d) /\
                  h = <[b := CDict (Dict.set k v d)]> walked)) /\
    (forall prefix part rest,
        removelast parts = prefix ++ part :: rest ->
        exists h0 o0 c0 h1 o1 c1,
          show_walk prefix (orig_schema, schema) hidden_store
          = (h0, Ok (o0, c0)) /\
          show_step part (o0, c0) h0 = (h1, Ok (o1, c1)) /\
          JsonPointer.resolve h orig_schema (prefix ++ [part]) = Ok o1 /\
          (JsonPointer.walk h0 c0 part = Ok c1 /\ h1 = h0 \/
           JsonPointer.walk h0 c0 part = Raise JsonPointerException /\
           c1 = VRef (length h0) /\
           length h1 = S (length h0) /\
           (forall a l, o1 = VRef a -> h !! a = Some (CList l) ->
                        h1 !! length h0 = Some (CList [])) /\
           (forall a d, o1 = VRef a -> h !! a = Some (CDict d) ->
                        h1 !! length h0 = Some (CDict [])) /\
           (forall p l, c0 = VRef p -> h0 !! p = Some (CList l) ->
                        h1 !! p = Some (CList (l ++ [c1]))) /\
           (forall p d, c0 = VRef p -> h0 !! p = Some (CDict d) ->
                        h1 !! p = Some (CDict (Dict.set part c1 d))))).
Proof.
  intros Hsplit Hparse Hrun.
  (* the loaded schema and the snapshot *)
  destruct (build_denotes j []) as (rs & h0 & Hbuild & Hden0).
  simpl in Hbuild, Hden0.
  destruct (build_closed _ _ _ _ Hbuild ltac:(constructor))
    as (Hclosed0 & Hrs0 & _).
  destruct (build_denotes j h0) as (ro & cells & Hloads & Hden1).
  destruct (build_closed _ _ _ _ Hloads Hclosed0) as (Hclosed1 & _ & _).
  set (h1 := h0 ++ cells) in *.
  set (lo := length h0) in *. set (hi := length h1) in *.
  assert (Hlohi : lo <= hi).
  { unfold lo, hi, h1. rewrite length_app. lia. }
  assert (Hapart1 : apart lo hi h1).
  { intros a c Hcell Ha.
    assert (Ha' : a < lo).
    { apply lookup_lt_Some in Hcell. unfold outside in Ha. fold hi in Hcell.
      lia. }
    unfold h1 in Hcell. rewrite lookup_app_l in Hcell by exact Ha'.
    eapply cell_refs_in_impl;
      [|exact (proj1 (Forall_lookup _ _) Hclosed0 _ _ Hcell)].
    simpl. intros b Hb. left. exact Hb. }
  assert (Hrs : refs_in (outside lo hi) rs).
  { eapply refs_in_impl; [|exact Hrs0]. simpl. intros b Hb. left. exact Hb. }
  (* the run *)
  unfold directive in Hrun. unfold bind at 1 in Hrun.
  rewrite Hbuild in Hrun.
  unfold apply_visibility in Hrun; simpl hide in Hrun; simpl show in Hrun.
  unfold bind at 1 in Hrun. unfold bind at 1 in Hrun.
  unfold dumps in Hrun.
  rewrite (view_denotes 0 h0 j (length h0) rs (length h0) Hden0
             (Nat.le_refl _)) in Hrun.
  destruct (has_end j) eqn:Hend; [discriminate Hrun|].
  unfold bind at 1 in Hrun. unfold loads in Hrun. rewrite Hloads in Hrun.
  fold h1 in Hrun.
  unfold bind at 1 in Hrun.
  destruct (for_each (hide_path rs) (Str.split " "%char hidden) h1)
    as [h2 [[]|]] eqn:Hhide; [|discriminate Hrun].
  destruct (hide_paths_apart _ _ _ _ _ _ _ Hapart1 Hrs Hhide)
    as (Hapart2 & Hlen2 & Hsame2).
  destruct (hide_paths_closed _ _ _ _ _ Hclosed1 Hhide) as (Hclosed2 & _).
  unfold split_option in Hrun. rewrite Hsplit in Hrun.
  unfold bind at 1 in Hrun. unfold ret at 1 in Hrun.
  simpl for_each in Hrun. unfold bind at 1 in Hrun.
  destruct (show_path ro rs shown h2) as [h3 [[]|]] eqn:Hshow;
    [|discriminate Hrun].
  unfold ret in Hrun. injection Hrun as <- <-.
  (* the shown path *)
  unfold show_path in Hshow. unfold bind at 1 in Hshow.
  unfold lift at 1 in Hshow. rewrite Hparse in Hshow.
  unfold bind at 1 in Hshow.
  destruct (show_walk (removelast parts) (ro, rs) h2)
    as [h2' [[o c]|]] eqn:Hwalk; [|discriminate Hshow].
  simpl snd in Hshow.
  assert (Hro2 : denotes lo h2 hi j ro).
  { eapply denotes_frame; [|exact Hden1]. exact Hsame2. }
  assert (Hrs2 : refs_in (fun b => b < length h2) rs).
  { eapply refs_in_impl; [|exact Hrs0]. simpl. intros b Hb.
    rewrite Hlen2. fold hi. fold lo in Hb. lia. }
  destruct (show_walk_apart _ _ _ _ _ _ _ _ _ _ Hapart2 ltac:(lia) Hrs Hro2
              Hwalk) as (Hapart2' & Hhi2' & Hc & Hsame2' & _).
  apply show_attach_spec in Hshow.
  destruct Hshow as (v & b & -> & Hv & Hput).
  assert (Hb : outside lo hi b) by exact Hc.
  assert (Hsame3 : forall a, lo <= a -> a < hi -> h3 !! a = h1 !! a).
  { intros a Ha1 Ha2. rewrite <- Hsame2, <- Hsame2' by assumption.
    unfold outside in Hb.
    destruct Hput as [(l & _ & ->)|(d & k & _ & _ & ->)];
      apply list_lookup_insert_ne; lia. }
  assert (Hlen3 : hi <= length h3).
  { destruct Hput as [(l & _ & ->)|(d & k & _ & _ & ->)];
      rewrite length_insert; exact Hhi2'. }
  assert (Hro3 : denotes lo h3 hi j ro).
  { eapply denotes_frame; [|exact Hden1]. exact Hsame3. }
  assert (Hframe3 : forall a, lo <= a -> a < hi -> h3 !! a = h2 !! a).
  { intros a Ha1 Ha2. rewrite Hsame3, Hsame2; auto. }
  assert (Hv3 : JsonPointer.resolve h3 ro parts = Ok v).
  { rewrite <- Hv. apply (resolve_frame lo h2' h3 hi parts j ro).
    - eapply denotes_frame; [|exact Hro2]. exact Hsame2'.
    - intros a Ha1 Ha2. rewrite Hsame3, <- Hsame2, <- Hsame2'; auto. }
  destruct (resolve_denotes _ _ _ _ _ _ _ Hro3 Hv3) as (sub & Hsub).
  exists ro, v, sub, h2, h2', o, b.
  split; [eapply view_denotes; eassumption|].
  split; [|split; [exact Hv3|split; [eapply view_denotes; eassumption|]]].
  { (* the same path in the schema as loaded *)
    pose proof (resolve_sim _ _ _ _ _ _ parts _ _ _ Hro3 Hden0) as Hsim.
    rewrite Hv3 in Hsim.
    destruct (JsonPointer.resolve h0 rs parts) as [w|] eqn:Hw;
      [|contradiction].
    destruct Hsim as (jw & Hjw & Hjw').
    rewrite (denotes_unique _ _ _ _ _ _ _ _ Hsub Hjw).
    eapply resolved_intro; eassumption. }
  split.
  { (* the run up to the shown path *)
    unfold bind at 1. rewrite Hbuild.
    unfold bind at 1. unfold dumps.
    rewrite (view_denotes 0 h0 j (length h0) rs (length h0) Hden0
               (Nat.le_refl _)), Hend.
    unfold bind at 1. unfold loads. rewrite Hloads. fold h1.
    unfold bind at 1. rewrite Hhide. reflexivity. }
  split; [exact Hwalk|].
  split.
  { (* where the value went *)
    destruct Hput as [(l & Hcell & ->)|(d & k & Hcell & Hk & ->)].
    - left. eauto.
    - right. exists d, k. auto. }
  (* one turn of the walk *)
  intros prefix part rest Hparts.
  rewrite Hparts in Hwalk.
  rewrite show_walk_app in Hwalk.
  destruct (show_walk prefix (ro, rs) h2) as [g0 [[o0 c0]|]] eqn:Hprefix;
    [|discriminate Hwalk].
  simpl show_walk in Hwalk. unfold bind at 1 in Hwalk.
  destruct (show_step part (o0, c0) g0) as [g1 [[o1 c1]|]] eqn:Hstep;
    [|discriminate Hwalk].
  exists g0, o0, c0, g1, o1, c1.
  split; [first [exact Hprefix|reflexivity]|].
  split; [first [exact Hstep|reflexivity]|].
  (* the state before the turn *)
  destruct (show_walk_apart _ _ _ _ _ _ _ _ _ _ Hapart2 ltac:(lia) Hrs Hro2
              Hprefix) as (Hapart0 & Hhi0 & Hc0 & Hsame0 & Ho0).
  destruct (show_walk_closed _ _ _ _ _ _ _ Hclosed2 Hrs2 Hprefix)
    as (Hclosedg0 & Hc0valid).
  (* the snapshot's node at the part *)
  assert (Hboth : show_walk (prefix ++ [part]) (ro, rs) h2
                  = (g1, Ok (o1, c1))).
  { rewrite show_walk_app, Hprefix. simpl. unfold bind. rewrite Hstep.
    reflexivity. }
  destruct (show_walk_apart _ _ _ _ _ _ _ _ _ _ Hapart2 ltac:(lia) Hrs Hro2
              Hboth) as (_ & _ & _ & Hsame1 & Ho1).
  assert (Ho1' : JsonPointer.resolve h3 ro (prefix ++ [part]) = Ok o1).
  { rewrite <- Ho1.
    apply (resolve_frame lo h2 h3 hi _ j ro Hro2 Hframe3). }
  split; [exact Ho1'|].
  pose proof Hstep as Hspec. apply show_step_spec in Hspec.
  destruct Hspec as (Hwalko & [(Hfound & ->)|(Hnone & -> & fresh & Hfresh & Hhung)]);
    [left; auto|].
  right. split; [exact Hnone|]. split; [reflexivity|].
  assert (Hvalid : forall p, c0 = VRef p -> p < length g0).
  { intros p ->. exact Hc0valid. }
  assert (Hlen : length g1 = S (length g0)).
  { destruct Hhung as [(-> & _)|[(p & l & _ & _ & ->)|(p & d & _ & _ & ->)]];
      rewrite ?length_insert, length_app; simpl; lia. }
  assert (Hnew : g1 !! length g0 = Some fresh).
  { destruct Hhung as [(-> & _)|[(p & l & -> & _ & ->)|(p & d & -> & _ & ->)]].
    - apply list_lookup_middle. reflexivity.
    - apply lookup_new_cell. apply Hvalid. reflexivity.
    - apply lookup_new_cell. apply Hvalid. reflexivity. }
  (* the kind of the snapshot's node, read in the last store *)
  assert (Hdo0 : exists jo0, denotes lo g0 hi jo0 o0).
  { destruct (resolve_denotes _ _ _ _ _ _ _ Hro2 Ho0) as (jo0 & Hjo0).
    exists jo0. eapply denotes_frame; [|exact Hjo0]. exact Hsame0. }
  destruct Hdo0 as (jo0 & Hdo0).
  destruct (walk_denotes _ _ _ _ _ _ _ Hdo0 Hwalko) as (jo1 & Hdo1).
  assert (Hkind : forall a, o1 = VRef a -> h3 !! a = g0 !! a).
  { intros a ->. destruct (denotes_ref_bounds _ _ _ _ _ Hdo1) as [Ha1 Ha2].
    rewrite Hframe3, Hsame0; auto. }
  split; [exact Hlen|].
  rewrite Hnew. unfold is_Sequence, is_MutableSequence, is_Mapping in Hfresh.
  split; [|split; [|split]].
  - intros a l Ho Hcell. rewrite (Hkind a Ho) in Hcell. subst o1.
    rewrite Hcell in Hfresh.
    destruct Hfresh as [(-> & _)|(_ & Hno & _)];
      [reflexivity|discriminate Hno].
  - intros a d Ho Hcell. rewrite (Hkind a Ho) in Hcell. subst o1.
    rewrite Hcell in Hfresh.
    destruct Hfresh as [(_ & Hno)|(-> & _)];
      [discriminate Hno|reflexivity].
  - intros p l -> Hcell.
    assert (Hcell' : (g0 ++ [fresh]) !! p = Some (CList l)).
    { rewrite lookup_app_l; [exact Hcell|]. eapply lookup_lt_Some, Hcell. }
    destruct Hhung as [(_ & Hno & _)|[(q & l' & Hq & Hl' & ->)|(q & d & Hq & Hd & _)]].
    + unfold is_MutableSequence in Hno. rewrite Hcell' in Hno. discriminate.
    + injection Hq as <-. rewrite Hcell' in Hl'. injection Hl' as <-.
      apply list_lookup_insert_eq. eapply lookup_lt_Some, Hcell'.
    + injection Hq as <-. congruence.
  - intros p d -> Hcell.
    assert (Hcell' : (g0 ++ [fresh]) !! p = Some (CDict d)).
    { rewrite lookup_app_l; [exact Hcell|]. eapply lookup_lt_Some, Hcell. }
    destruct Hhung as [(_ & _ & Hno)|[(q & l & Hq & Hl & _)|(q & d' & Hq & Hd' & ->)]].
    + unfold is_MutableMapping, is_Mapping in Hno. rewrite Hcell' in Hno.
      discriminate.
    + injection Hq as <-. congruence.
    + injection Hq as <-. rewrite Hcell' in Hd'. injection Hd' as <-.
      apply list_lookup_insert_eq. eapply lookup_lt_Some, Hcell'.
Qed.

Lemma shown_value_from_snapshot_witness :
  let j := JObj [("a", JObj [("b", JObj [("x", JNum 1); ("y", JNum 2)])])] in
  let hidden := "/a"%string in
  let parts := ["a"; "b"; "y"] in
  let schema := VRef 2 in
  let h := [CDict [("x", VNum 1); ("y", VNum 2)]; CDict [("b", VRef 0)];
            CDict [("a", VRef 6)]; CDict [("x", VNum 1); ("y", VNum 2)];
            CDict [("b", VRef 3)]; CDict [("a", VRef 4)];
            CDict [("b", VRef 7)]; CDict [("y", VNum 2)]] in
  exists (orig_schema v : value) (sub : json) (hidden_store walked : heap)
         (o : value) (b : nat),
    view (length h) h orig_schema = Some j /\
    resolved j parts = Ok sub /\
    JsonPointer.resolve h orig_schema parts = Ok v /\
    view (length h) h v = Some sub /\
    (let* loaded := build j in
     let* text := dumps loaded in
     let* snapshot := loads text in
     for_each (hide_path loaded) (Str.split " "%char hidden) ;;
     ret (loaded, snapshot)) [] = (hidden_store, Ok (schema, orig_schema)) /\
    show_walk (removelast parts) (orig_schema, schema) hidden_store
    = (walked, Ok (o, VRef b)) /\
    ((exists l, walked !! b = Some (CList l) /\
                h = <[b := CList (l ++ [v])]> walked) \/
     (exists d k, last parts = Some k /\ walked !! b = Some (CDict d) /\
                  h = <[b := CDict (Dict.set k v d)]> walked)) /\
    (forall prefix part rest,
        removelast parts = prefix ++ part :: rest ->
        exists h0 o0 c0 h1 o1 c1,
          show_walk prefix (orig_schema, schema) hidden_store
          = (h0, Ok (o0, c0)) /\
          show_step part (o0, c0) h0 = (h1, Ok (o1, c1)) /\
          JsonPointer.resolve h orig_schema (prefix ++ [part]) = Ok o1 /\
          (JsonPointer.walk h0 c0 part = Ok c1 /\ h1 = h0 \/
           JsonPointer.walk h0 c0 part = Raise JsonPointerException /\
           c1 = VRef (length h0) /\
           length h1 = S (length h0) /\
           (forall a l, o1 = VRef a -> h !! a = Some (CList l) ->
                        h1 !! length h0 = Some (CList [])) /\
           (forall a d, o1 = VRef a -> h !! a = Some (CDict d) ->
                        h1 !! length h0 = Some (CDict [])) /\
           (forall p l, c0 = VRef p -> h0 !! p = Some (CList l) ->
                        h1 !! p = Some (CList (l ++ [c1]))) /\
           (forall p d, c0 = VRef p -> h0 !! p = Some (CDict d) ->
                        h1 !! p = Some (CDict (Dict.set part c1 d))))).
Proof.
  intros j hidden parts schema h.
  apply (shown_value_from_snapshot j hidden "/a/b/y" parts h schema);
    reflexivity.
Defined.

(** C1 as the specification states it is false under a sequence: in
    [{"a": [1, 2, 3]}], hiding [/a/0] and showing it again appends the 1,
    and the value then found at [/a/0] is 2, not the snapshot's 1. *)
Lemma shown_list_entry_goes_last :
  ~ (forall (j t : json) (hidden shown : string) (parts : list string),
        JsonPointer.parse shown = Ok parts ->
        edited j {| hide := Some hidden; show := Some shown |} = Ok t ->
        resolved t parts = resolved j parts).
Proof.
  intros H.
  specialize (H (JObj [("a", JArr [JNum 1; JNum 2; JNum 3])])
                (JObj [("a", JArr [JNum 2; JNum 3; JNum 1])])
                "/a/0" "/a/0" ["a"; "0"] eq_refl eq_refl).
  vm_compute in H. discriminate H.
Qed.

(** ** The argument of the directive: file name and pointer *)

Lemma has_char_cons c a s :
  has_char c (String a s) = Ascii.eqb c a || has_char c s.
Proof. reflexivity. Qed.

(** [_splitpointer] cuts the argument at its first [#]: the file name has no
    [#], and file name, [#] and pointer give the argument back; an argument
    without [#] is a file name without pointer. *)
Theorem splitpointer_cuts_at_first_hash (path : string) :
  has_char "#" (fst (_splitpointer path)) = false /\
  match snd (_splitpointer path) with
  | Some pointer =>
      path = (fst (_splitpointer path) ++ String "#" pointer)%string
  | None => path = fst (_splitpointer path) /\ has_char "#" path = false
  end.
Proof.
  induction path as [|c rest IH]; simpl.
  - repeat split.
  - destruct (Ascii.eqb_spec c "#") as [->|Hne].
    + simpl. split; reflexivity.
    + destruct (_splitpointer rest) as [file pointer]. simpl in *.
      destruct IH as [Hfile Hrest].
      assert (Hc : Ascii.eqb "#" c = false).
      { apply Ascii.eqb_neq. congruence. }
      split.
      * rewrite has_char_cons, Hc. exact Hfile.
      * destruct pointer as [pointer|].
        -- now rewrite Hrest at 1.
        -- destruct Hrest as [-> Hno]. split; [reflexivity|].
           rewrite has_char_cons, Hc. exact Hno.
Qed.

(** The other way round: a file name without [#] and a pointer, joined by
    [#], are split into the two again, whatever the pointer holds. *)
Theorem splitpointer_of_joined (file pointer : string) :
  has_char "#" file = false ->
  _splitpointer (file ++ String "#" pointer) = (file, Some pointer).
Proof.
  induction file as [|c file IH]; intros Hno; simpl.
  - reflexivity.
  - rewrite has_char_cons in Hno. apply orb_false_iff in Hno as [Hc Hno].
    rewrite Ascii.eqb_sym, Hc, (IH Hno). reflexivity.
Qed.

Lemma splitpointer_of_joined_witness :
  _splitpointer "schemas/person.yaml#/definitions/name#first"
  = ("schemas/person.yaml", Some "/definitions/name#first").
Proof.
  apply (splitpointer_of_joined "schemas/person.yaml" "/definitions/name#first").
  reflexivity.
Defined.

(** ** Hidden paths are separated by single spaces *)

Lemma for_each_stops {S A} (f : A -> ST S unit) (x : A) (l : list A) :
  (forall h, exists h' e, f x h = (h', Raise e)) ->
  In x l ->
  forall h, exists h' e, for_each f l h = (h', Raise e).
Proof.
  intros Hx. induction l as [|y l IH]; intros Hin h; [destruct Hin|].
  simpl. unfold bind.
  destruct (f y h) as [h1 [[]|e1]] eqn:Hy.
  - destruct Hin as [->|Hin].
    + destruct (Hx h) as (h' & e & He). congruence.
    + apply IH, Hin.
  - eauto.
Qed.

(** The empty pointer has no last part: [to_last] gives [None] for the
    name, and [del parent[None]] raises on every kind of schema. *)
Lemma hide_path_empty (schema : value) (h : heap) :
  exists e, hide_path schema "" h = (h, Raise e).
Proof.
  unfold hide_path, bind, lift, reading. simpl.
  unfold delitem.
  destruct schema as [| | | |a|]; eauto.
  destruct (h !! a) as [[l|d]|]; eauto.
Qed.

(** The value of [hide] is cut at every space (line 60), so two spaces in a
    row, or a space at either end, give an empty path, and the directive
    fails whatever the schema and the other paths are. *)
Theorem hide_with_empty_path_fails (opts : options) (hidden : string)
    (schema : value) (h : heap) :
  hide opts = Some hidden ->
  In ""%string (Str.split " " hidden) ->
  exists h' e, apply_visibility opts schema h = (h', Raise e).
Proof.
  intros Hhide Hin. unfold apply_visibility. rewrite Hhide.
  unfold bind at 1.
  destruct (dumps schema h) as [h1 [text|e]]; [|eauto].
  unfold bind at 1.
  destruct (loads text h1) as [h2 [orig|e]]; [|eauto].
  unfold bind at 1.
  destruct (for_each_stops (hide_path schema) "" (Str.split " " hidden))
    with (h := h2) as (h3 & e & He); [|exact Hin|].
  - intros h0. destruct (hide_path_empty schema h0) as [e He]. eauto.
  - rewrite He. eauto.
Qed.

Lemma hide_with_empty_path_fails_witness :
  exists h' e,
    apply_visibility {| hide := Some "/a  /b"; show := Some "/a" |}
      (VRef 0) [CDict [("a", VNum 1); ("b", VNum 2)]] = (h', Raise e).
Proof.
  apply (hide_with_empty_path_fails
           {| hide := Some "/a  /b"; show := Some "/a" |} "/a  /b").
  - reflexivity.
  - vm_compute. tauto.
Defined.

(** ** Key-value fields *)

Lemma kvpairs_cons (schema : json) (kl : string * string)
    (keys : list (string * string)) :
  _kvpairs schema (kl :: keys)
  = rbind (py_in (fst kl) schema) (fun present =>
    rbind (if present
           then rbind (py_getitem schema (fst kl)) (fun value =>
                  Ok [_create_field (snd kl) ("jsonschema-" ++ fst kl)
                        (One (paragraph value))])
           else Ok []) (fun here =>
    rbind (_kvpairs schema keys) (fun more => Ok (here ++ more)))).
Proof. reflexivity. Qed.

(** On a mapping [_kvpairs] never raises.  It gives one field per key of the
    table that the schema has, in the order of the table and not of the
    schema, with the label of the table and the class [jsonschema-] followed
    by the key. *)
Theorem kvpairs_follow_the_table (d : list (string * json))
    (keys : list (string * string)) :
  exists fields,
    _kvpairs (JObj d) keys = Ok fields /\
    map field_label fields
    = map (fun kl => JStr (snd kl))
          (List.filter (fun kl => Dict.mem (fst kl) d) keys) /\
    map node_classes fields
    = map (fun kl => [("jsonschema-" ++ fst kl)%string])
          (List.filter (fun kl => Dict.mem (fst kl) d) keys).
Proof.
  induction keys as [|[k label] keys (fields & Hrun & Hlabels & Hclasses)].
  - exists []. repeat split.
  - rewrite kvpairs_cons, Hrun. cbn [fst snd py_in py_getitem rbind List.filter].
    unfold Dict.mem.
    destruct (Dict.get k d) as [v|]; cbn [rbind].
    + eexists. split; [reflexivity|].
      cbn [app map]. rewrite field_label_create_field, Hlabels, Hclasses.
      split; reflexivity.
    + exists fields. auto.
Qed.

(** ** Combinators and the unused property formatter *)

Section Entries.

Variable dispatch : json -> F content.

(** What ties an element to its entry in the output. *)
Let entry_of (x : json) (entry : node) : Prop :=
  exists st1 st2 c,
    dispatch x st1 = (st2, Ok c) /\ entry = list_item (iadd [] c).

Lemma dispatch_items_entries l : forall acc st st' items,
  fold_m (fun items x =>
            let* c := dispatch x in
            ret (items ++ [list_item (iadd [] c)])) l acc st
  = (st', Ok items) ->
  exists new, items = acc ++ new /\ Forall2 entry_of l new.
Proof.
  induction l as [|x l IH]; intros acc st st' items; simpl.
  - intros [= <- <-]. exists []. split; [symmetry; apply app_nil_r|constructor].
  - unfold bind at 1. unfold bind at 1.
    destruct (dispatch x st) as [st1 [c|]] eqn:Hx; [|discriminate].
    unfold ret at 1. intros Hrest.
    apply IH in Hrest as (new & -> & Hall).
    exists (list_item (iadd [] c) :: new). split.
    + rewrite <- app_assoc. reflexivity.
    + constructor; [|exact Hall]. exists st, st1, c. auto.
Qed.

(** [_process_combinator] on a list of alternatives: the field [Types]
    holds one bullet per alternative, in the order of the schema, and each
    bullet holds what [_dispatch] returned for its alternative. *)
Theorem combinator_one_entry_per_alternative (label : string)
    (l : list json) (st st' : host) (out : content) :
  _process_combinator dispatch label (JArr l) st = (st', Ok out) ->
  exists entries,
    out = One (field_list
                 [_create_field "Combination" "json-combinatortype"
                    (One (paragraph (JStr label)));
                  _create_field "Types" "jsonschema-combinedtypes"
                    (One (bullet_list entries))]) /\
    Forall2 (fun x entry =>
               exists st1 st2 c,
                 dispatch x st1 = (st2, Ok c) /\
                 entry = list_item (iadd [] c)) l entries.
Proof.
  unfold _process_combinator, dispatch_items. simpl py_iter.
  unfold bind at 1, lift at 1. unfold bind at 1. unfold bind at 1.
  match goal with
  | |- context [fold_m ?f l [] st] =>
      destruct (fold_m f l [] st) as [st1 [items|]] eqn:Hfold; [|discriminate]
  end.
  unfold ret. intros [= <- <-].
  apply dispatch_items_entries in Hfold as (new & -> & Hall).
  exists new. split; [reflexivity|exact Hall].
Qed.

Lemma objectproperties_field_appends schema key body prop st st' body' :
  objectproperties_field dispatch schema key body prop st = (st', Ok body') ->
  exists clazz child, body' = body ++ [_create_field key clazz child].
Proof.
  unfold objectproperties_field, bind, lift, ret.
  destruct (py_in "required" schema) as [[|]|]; [| |discriminate].
  - destruct (py_getitem schema "required") as [names|]; [|discriminate].
    destruct (py_in prop names) as [listed|]; [|discriminate].
    destruct (py_getitem schema key) as [props|]; [|discriminate].
    destruct (py_getitem props prop) as [obj|]; [|discriminate].
    destruct (dispatch obj st) as [st1 [c|]]; [|discriminate].
    intros [= <- <-]. eauto.
  - destruct (py_getitem schema key) as [props|]; [|discriminate].
    destruct (py_getitem props prop) as [obj|]; [|discriminate].
    destruct (dispatch obj st) as [st1 [c|]]; [|discriminate].
    intros [= <- <-]. eauto.
Qed.

Lemma objectproperties_fields schema key names : forall body st st' body',
  fold_m (objectproperties_field dispatch schema key) names body st
  = (st', Ok body') ->
  exists new,
    body' = body ++ new /\ length new = length names /\
    Forall (fun f => field_label f = JStr key) new.
Proof.
  induction names as [|prop names IH]; intros body st st' body'; simpl.
  - intros [= <- <-]. exists []. split; [symmetry; apply app_nil_r|].
    split; [reflexivity|constructor].
  - unfold bind at 1.
    destruct (objectproperties_field dispatch schema key body prop st)
      as [st1 [body1|]] eqn:Hstep; [|discriminate].
    intros Hrest. apply IH in Hrest as (new & -> & Hlen & Hall).
    apply objectproperties_field_appends in Hstep as (clazz & child & ->).
    exists (_create_field key clazz child :: new). split.
    + rewrite <- app_assoc. reflexivity.
    + split; [simpl; congruence|].
      constructor; [apply field_label_create_field|exact Hall].
Qed.

(** [_objectproperties] gives one field per property of [schema[key]], and
    labels every one of them with [key] itself, not with the name of the
    property; without [key] in the schema the field list is empty. *)
Theorem objectproperties_labels_are_the_key (d : list (string * json))
    (key : string) (st st' : host) (out : node) :
  _objectproperties dispatch (JObj d) key st = (st', Ok out) ->
  exists fields,
    out = field_list fields /\
    Forall (fun f => field_label f = JStr key) fields /\
    length fields = match Dict.get key d with
                    | Some (JObj props) => length props
                    | _ => 0
                    end.
Proof.
  unfold _objectproperties. simpl py_in. unfold Dict.mem.
  unfold bind at 1, lift at 1.
  destruct (Dict.get key d) as [props|] eqn:Hget.
  - unfold bind at 1, lift at 1. simpl py_getitem. rewrite Hget.
    unfold bind at 1, lift at 1.
    destruct props as [ |b|n|s|items|ps|doc]; simpl py_keys; try discriminate.
    unfold bind at 1.
    destruct (fold_m (objectproperties_field dispatch (JObj d) key)
                (Dict.keys ps) [] st) as [st1 [body|]] eqn:Hfold;
      [|discriminate].
    unfold ret. intros [= <- <-].
    apply objectproperties_fields in Hfold as (new & -> & Hlen & Hall).
    exists new. split; [reflexivity|]. split; [exact Hall|].
    rewrite Hlen. unfold Dict.keys. apply length_map.
  - unfold ret. intros [= <- <-]. exists []. repeat split. constructor.
Qed.

End Entries.

Lemma combinator_one_entry_per_alternative_witness :
  let st := {| section_level := 0; docname := "index"; labels := [];
               anonlabels := []; implicit_targets := [] |} in
  let parse := fun _ : list string => @nil node in
  let dispatch := _dispatch parse (fun s => s) 2 in
  let l := [JObj [("type", JStr "string")]; JObj [("type", JStr "null")]] in
  exists out entries,
    _process_combinator dispatch "One of" (JArr l) st = (st, Ok out) /\
    out = One (field_list
                 [_create_field "Combination" "json-combinatortype"
                    (One (paragraph (JStr "One of")));
                  _create_field "Types" "jsonschema-combinedtypes"
                    (One (bullet_list entries))]) /\
    length entries = 2.
Proof.
  intros st parse dispatch l.
  eexists.
  destruct (combinator_one_entry_per_alternative dispatch "One of" l st st
              _ eq_refl) as (entries & Hout & Hall).
  exists entries. split; [reflexivity|]. split; [exact Hout|].
  apply Forall2_length in Hall. symmetry. exact Hall.
Defined.

Lemma objectproperties_labels_are_the_key_witness :
  let st := {| section_level := 0; docname := "index"; labels := [];
               anonlabels := []; implicit_targets := [] |} in
  let parse := fun _ : list string => @nil node in
  let dispatch := _dispatch parse (fun s => s) 2 in
  let d := [("properties",
             JObj [("name", JObj [("type", JStr "string")]);
                   ("age", JObj [("type", JStr "integer")])])] in
  exists out fields,
    _objectproperties dispatch (JObj d) "properties" st = (st, Ok out) /\
    out = field_list fields /\
    map field_label fields = [JStr "properties"; JStr "properties"].
Proof.
  intros st parse dispatch d.
  eexists.
  destruct (objectproperties_labels_are_the_key dispatch d "properties" st st
              _ eq_refl) as (fields & Hout & Hall & Hlen).
  exists fields. split; [reflexivity|]. split; [exact Hout|].
  injection Hout as <-. reflexivity.
Defined.

(** ** Targets *)

Lemma dict_get_set_ne {V} (a k : string) (v : V) (d : list (string * V)) :
  a <> k -> Dict.get a (Dict.set k v d) = Dict.get a d.
Proof.
  intros Hne. induction d as [|[k' v'] d IH]; simpl.
  - apply String.eqb_neq in Hne. rewrite Hne. reflexivity.
  - destruct (String.eqb k k') eqn:Hk; simpl.
    + apply String.eqb_eq in Hk. subst k'.
      apply String.eqb_neq in Hne. rewrite Hne. reflexivity.
    + rewrite IH. reflexivity.
Qed.

Lemma hd_app_cons {A} (x y a : A) (l r : list A) :
  hd x (l ++ a :: r) = hd y (l ++ [a]).
Proof. destruct l; reflexivity. Qed.

Section Targets.

Variable normalize_name : string -> string.
Variable d : list (string * json).

(** The title that a label carries: the title of the schema, or the anchor
    itself. *)
Let caption (a : string) : json :=
  match Dict.get "title" d with
  | Some title => title
  | None => JStr a
  end.

Let registered (first : string) (st st' : host) (ids : list string) : Prop :=
  section_level st' = section_level st /\
  docname st' = docname st /\
  implicit_targets st' = implicit_targets st /\
  (forall a, In a ids ->
     Dict.get a (anonlabels st') = Some (docname st, first) /\
     Dict.get a (labels st') = Some (docname st, first, caption a)) /\
  (forall a, ~ In a ids ->
     Dict.get a (anonlabels st') = Dict.get a (anonlabels st) /\
     Dict.get a (labels st') = Dict.get a (labels st)).

Lemma target_loop (ts : list string) : forall (ids : list string) (st : host),
  exists st',
    fold_m (fun ids target =>
              let* anchor := lift (match target with
                                   | JStr s => Ok (normalize_name s)
                                   | _ => Raise AttributeError
                                   end) in
              let ids := ids ++ [anchor] in
              let first := hd anchor ids in
              let* name := reading (fun st => Ok (docname st)) in
              set_anonlabel anchor (name, first) ;;
              let* titled := lift (py_in "title" (JObj d)) in
              let* title := if titled then lift (py_getitem (JObj d) "title")
                            else ret (JStr anchor) in
              set_label anchor (name, first, title) ;;
              ret ids)
      (map JStr ts) ids st
    = (st', Ok (ids ++ map normalize_name ts)) /\
    forall first, registered (hd first (ids ++ map normalize_name ts)) st st'
                    (map normalize_name ts).
Proof.
  induction ts as [|t ts IH]; intros ids st.
  - exists st. split.
    + simpl. rewrite app_nil_r. reflexivity.
    + intros first. split; [reflexivity|]. split; [reflexivity|].
      split; [reflexivity|]. split; [intros a []|auto].
  - set (anchor := normalize_name t).
    set (st1 := {| section_level := section_level st; docname := docname st;
                   labels := Dict.set anchor
                               (docname st, hd anchor (ids ++ [anchor]),
                                caption anchor) (labels st);
                   anonlabels := Dict.set anchor
                                   (docname st, hd anchor (ids ++ [anchor]))
                                   (anonlabels st);
                   implicit_targets := implicit_targets st |}).
    destruct (IH (ids ++ [anchor]) st1) as (st' & Hrun & Hreg).
    exists st'. split.
    + match type of Hrun with
      | fold_m ?f _ _ _ = _ => set (body := f) in *
      end.
      cbn [map fold_m].
      assert (Hstep : body ids (JStr t) st = (st1, Ok (ids ++ [anchor]))).
      { unfold body, bind, lift, reading, ret, set_anonlabel, set_label.
        cbn [py_in py_getitem]. unfold Dict.mem, st1, caption, anchor.
        destruct (Dict.get "title" d); reflexivity. }
      unfold bind at 1. rewrite Hstep, Hrun, <- app_assoc. reflexivity.
    + intros first. cbn [map]. fold anchor.
      specialize (Hreg first). rewrite <- app_assoc in Hreg. cbn [app] in Hreg.
      destruct Hreg as (Hlevel & Hname & Himplicit & Hin & Hout).
      assert (Hfirst : hd anchor (ids ++ [anchor])
                       = hd first (ids ++ anchor :: map normalize_name ts)).
      { symmetry. apply hd_app_cons. }
      split; [exact Hlevel|]. split; [exact Hname|].
      split; [exact Himplicit|]. split.
      * intros a [Ha|Ha].
        -- subst a.
           destruct (in_dec string_dec anchor (map normalize_name ts))
             as [Hlater|Hlater]; [apply (Hin _ Hlater)|].
           destruct (Hout _ Hlater) as [-> ->]. unfold st1. cbn.
           rewrite !dict_get_set_eq, Hfirst. split; reflexivity.
        -- apply (Hin _ Ha).
      * intros a Ha. cbn [In] in Ha.
        assert (Hne : a <> anchor) by (intros ->; tauto).
        assert (Hno : ~ In a (map normalize_name ts)) by tauto.
        destruct (Hout a Hno) as [-> ->]. unfold st1. cbn.
        split; apply dict_get_set_ne; exact Hne.
Qed.

(** [_create_target] on a schema whose [$$target] is a name or a list of
    names: the target node carries the normalized names as ids and names, in
    order; every one of them is registered in both label tables of the
    standard domain under the current document and the FIRST id, the label
    with the title of the schema (or the name itself without a title); the
    other entries of the tables, the section level and the implicit targets
    are left alone. *)
Theorem create_target_registers_every_name (tv : json) (ts : list string)
    (st : host) :
  Dict.get "$$target" d = Some tv ->
  match tv with JArr l => l | t => [t] end = map JStr ts ->
  exists st',
    _create_target normalize_name (JObj d) st
    = (st', Ok (Element "target" [] (map normalize_name ts)
                  (map normalize_name ts) [])) /\
    section_level st' = section_level st /\
    docname st' = docname st /\
    implicit_targets st' = implicit_targets st /\
    (forall a, In a (map normalize_name ts) ->
       Dict.get a (anonlabels st')
       = Some (docname st, hd a (map normalize_name ts)) /\
       Dict.get a (labels st')
       = Some (docname st, hd a (map normalize_name ts),
               match Dict.get "title" d with
               | Some title => title
               | None => JStr a
               end)) /\
    (forall a, ~ In a (map normalize_name ts) ->
       Dict.get a (anonlabels st') = Dict.get a (anonlabels st) /\
       Dict.get a (labels st') = Dict.get a (labels st)).
Proof.
  intros Hget Hnames.
  destruct (target_loop ts [] st) as (st' & Hrun & Hreg).
  exists st'. split.
  - assert (Htargets : py_getitem (JObj d) "$$target" = Ok tv).
    { simpl. rewrite Hget. reflexivity. }
    unfold _create_target. unfold bind at 1, lift at 1.
    rewrite Htargets, Hnames. cbv zeta.
    cbv zeta in Hrun. unfold bind at 1. rewrite Hrun. reflexivity.
  - destruct (Hreg ""%string) as (Hlevel & Hname & Himplicit & Hin & Hout).
    split; [exact Hlevel|]. split; [exact Hname|]. split; [exact Himplicit|].
    split; [|exact Hout].
    intros a Ha. destruct (Hin a Ha) as [Hanon Hlabel].
    cbn [app] in Hanon, Hlabel.
    destruct (map normalize_name ts) as [|first ids]; [destruct Ha|].
    split; assumption.
Qed.

End Targets.

Lemma create_target_registers_every_name_witness :
  let st := {| section_level := 0; docname := "api";
               labels := [("person", ("index", "old", JStr "Old"))];
               anonlabels := []; implicit_targets := [] |} in
  let d := [("$$target", JArr [JStr "person"; JStr "people"]);
            ("title", JStr "Person")] in
  exists st',
    fst (_create_target (fun s => s) (JObj d) st) = st' /\
    Dict.get "people" (labels st') = Some ("api", "person", JStr "Person") /\
    Dict.get "person" (labels st') = Some ("api", "person", JStr "Person") /\
    Dict.get "people" (anonlabels st') = Some ("api", "person").
Proof.
  intros st d.
  destruct (create_target_registers_every_name (fun s => s) d
              (JArr [JStr "person"; JStr "people"]) ["person"; "people"] st
              eq_refl eq_refl)
    as (st' & Hrun & _ & _ & _ & Hin & _).
  exists st'. split; [rewrite Hrun; reflexivity|].
  destruct (Hin "people") as [Hanon Hlabel]; [right; left; reflexivity|].
  destruct (Hin "person") as [_ Hlabel']; [left; reflexivity|].
  auto.
Defined.

(** ** The snapshot *)



(** ** From the argument to the schema *)

Section Narrowing.

Variable yaml_load : string -> result json.
Variable json_loads : string -> result json.
Variable directive_error : exc -> option exc.
Variable requests_get : string -> result string.
Variable open_file : string -> result string.

(** An argument [file#pointer] whose file the YAML parser accepts, without
    the [hide] option: the file is read and parsed once, by the YAML parser
    alone, the tree is built, and the directive's schema is what the pointer
    resolves to in it (the exception of the pointer when it does not
    resolve).  From an empty store, the schema that comes out is the subtree
    of the parsed tree at the pointer. *)
Theorem init_narrows_to_pointer (file pointer text : string) (j : json)
    (parts : list string) (opts : options) (content : list string)
    (w : world) :
  has_char "#" file = false ->
  file <> ""%string ->
  Str.is_prefix "http" file = false ->
  open_file file = Ok text ->
  yaml_load text = Ok j ->
  JsonPointer.parse pointer = Ok parts ->
  hide opts = None ->
  exists h schema,
    build j (store w) = (h, Ok schema) /\
    JsonSchema_init yaml_load json_loads directive_error requests_get open_file
      [(file ++ String "#" pointer)%string] opts content w
    = ({| store := h; calls := calls w ++ [YamlLoad text] |},
       JsonPointer.resolve h schema parts) /\
    (store w = [] ->
     forall v, JsonPointer.resolve h schema parts = Ok v ->
       exists t, resolved j parts = Ok t /\ view (length h) h v = Some t).
Proof.
  intros Hfile Hname Hhttp Hopen Hyaml Hparse Hhide.
  destruct (build_denotes j (store w)) as (schema & cells & Hbuild & Hden).
  exists (store w ++ cells), schema. split; [exact Hbuild|]. split.
  - unfold JsonSchema_init.
    assert (Hsplit : _splitpointer (file ++ String "#" pointer)
                     = (file, Some pointer)).
    { clear - Hfile. induction file as [|c file IH]; [reflexivity|].
      rewrite has_char_cons in Hfile.
      apply orb_false_iff in Hfile as [Hc Hfile]. simpl.
      rewrite Ascii.eqb_sym, Hc, (IH Hfile). reflexivity. }
    rewrite Hsplit.
    apply String.eqb_neq in Hname. rewrite Hname.
    set (w1 := {| store := store w; calls := calls w ++ [YamlLoad text] |}).
    set (w2 := {| store := store w ++ cells;
                  calls := calls w ++ [YamlLoad text] |}).
    assert (Hload :
      on_calls (_load_external yaml_load json_loads directive_error
                  requests_get open_file file) w = (w1, Ok j)).
    { unfold on_calls, _load_external. rewrite Hhttp.
      unfold bind, lift. rewrite Hopen, ordered_load_cases.
      cbn [stream_text]. rewrite Hyaml. reflexivity. }
    assert (Hstore : on_store (build j) w1 = (w2, Ok schema)).
    { unfold on_store, w1. cbn [store calls]. rewrite Hbuild. reflexivity. }
    assert (Hedit : forall s : value,
              on_store (apply_visibility opts s) w2 = (w2, Ok tt)).
    { intros s. unfold on_store, apply_visibility. rewrite Hhide.
      reflexivity. }
    unfold bind at 1. unfold bind at 1. rewrite Hload.
    unfold bind at 1. rewrite Hstore.
    destruct pointer as [|c pointer].
    + cbv in Hparse. injection Hparse as <-.
      unfold ret at 1. cbv beta iota. unfold bind at 1.
      rewrite Hedit. reflexivity.
    + assert (Hpointer :
        on_store (resolve_pointer schema (String c pointer)) w2
        = (w2, JsonPointer.resolve (store w ++ cells) schema parts)).
      { unfold on_store, resolve_pointer, bind, lift, reading, w2.
        cbn [store calls]. rewrite Hparse. reflexivity. }
      rewrite Hpointer.
      destruct (JsonPointer.resolve (store w ++ cells) schema parts)
        as [v|e]; [|reflexivity].
      cbv beta iota. unfold bind at 1. rewrite Hedit. reflexivity.
  - intros Hempty v Hres. rewrite Hempty in *. cbn [app length] in *.
    destruct (resolve_denotes _ _ _ _ _ _ _ Hden Hres) as [t Ht].
    exists t. split.
    + exact (resolved_intro j parts t cells schema v Hbuild Hres Ht).
    + apply (view_denotes _ _ _ _ _ _ Ht). apply le_n.
Qed.

End Narrowing.

Lemma init_narrows_to_pointer_witness :
  let j := JObj [("definitions",
                  JObj [("name", JObj [("type", JStr "string")])])] in
  let yaml := fun text : string =>
                if String.eqb text "definitions: {name: {type: string}}"
                then Ok j else Raise ScannerError in
  let files := fun name : string =>
                 if String.eqb name "person.yaml"
                 then Ok "definitions: {name: {type: string}}"%string
                 else Raise (PyException "no such file") in
  let argument := "person.yaml#/definitions/name"%string in
  exists h schema,
    JsonSchema_init yaml (fun _ => Raise ValueError) (fun _ => None)
      (fun _ => Raise (PyException "no network")) files
      [argument] {| hide := None; show := None |} []
      {| store := []; calls := [] |}
    = ({| store := h;
          calls := [YamlLoad "definitions: {name: {type: string}}"] |},
       JsonPointer.resolve h schema ["definitions"; "name"]) /\
    resolved j ["definitions"; "name"] = Ok (JObj [("type", JStr "string")]).
Proof.
  intros j yaml files argument.
  destruct (init_narrows_to_pointer yaml (fun _ => Raise ValueError)
              (fun _ => None) (fun _ => Raise (PyException "no network"))
              files "person.yaml" "/definitions/name"
              "definitions: {name: {type: string}}" j
              ["definitions"; "name"] {| hide := None; show := None |} []
              {| store := []; calls := [] |})
    as (h & schema & Hbuild & Hrun & Htree);
    try reflexivity; [discriminate|].
  exists h, schema. split; [exact Hrun|]. reflexivity.
Defined.

(** ** The recursion of the formatter *)

(** *** Statements that agree and stay within the limit *)

Lemma alike_ret {A} (a : A) : alike (ret a) (ret a).
Proof. split; [intros st; reflexivity|intros st st' e [=]]. Qed.

Lemma alike_raise {A} (e : exc) :
  e <> RecursionError -> alike (raise (A := A) e) (raise e).
Proof.
  intros He. split; [intros st; reflexivity|].
  intros st st' e' [= _ <-]. exact He.
Qed.

Lemma alike_lift {A} (r : result A) : no_limit r -> alike (lift r) (lift r).
Proof.
  intros Hr. split; [intros st; reflexivity|].
  intros st st' e [= _ Hraise]. exact (Hr e Hraise).
Qed.

Lemma alike_total {A} (m : F A) :
  (forall st, exists st' a, m st = (st', Ok a)) -> alike m m.
Proof.
  intros Hm. split; [intros st; reflexivity|].
  intros st st' e Hraise. destruct (Hm st) as (st1 & a & Hok). congruence.
Qed.

Lemma alike_bind {A B} (m1 m2 : F A) (k1 k2 : A -> F B) :
  alike m1 m2 -> (forall a, alike (k1 a) (k2 a)) ->
  alike (bind m1 k1) (bind m2 k2).
Proof.
  intros [Hm Hlimit] Hk. split.
  - intros st. unfold bind. rewrite <- (Hm st).
    destruct (m1 st) as [st1 [a|e]]; [apply (Hk a)|reflexivity].
  - intros st st' e. unfold bind.
    destruct (m1 st) as [st1 [a|e1]] eqn:Hrun.
    + apply (Hk a).
    + intros [= <- <-]. exact (Hlimit _ _ _ Hrun).
Qed.

(** After [lift r], the rest runs on the value that [r] holds. *)
Lemma alike_lift_bind {A B} (r : result A) (k1 k2 : A -> F B) :
  no_limit r -> (forall a, r = Ok a -> alike (k1 a) (k2 a)) ->
  alike (bind (lift r) k1) (bind (lift r) k2).
Proof.
  intros Hr Hk. unfold bind, lift. destruct r as [a|e].
  - destruct (Hk a eq_refl) as [Hagree Hlimit]. split; assumption.
  - split; [intros st; reflexivity|].
    intros st st' e' [= _ <-]. exact (Hr e eq_refl).
Qed.

Lemma alike_fold_m {A B} (f1 f2 : B -> A -> F B) (l : list A) :
  (forall x, In x l -> forall acc, alike (f1 acc x) (f2 acc x)) ->
  forall acc, alike (fold_m f1 l acc) (fold_m f2 l acc).
Proof.
  induction l as [|x l IH]; intros Hf acc; simpl.
  - apply alike_ret.
  - apply alike_bind; [apply Hf; left; reflexivity|].
    intros acc'. apply IH. intros y Hy. apply Hf. right. exact Hy.
Qed.

(** *** The operators never raise the RecursionError *)

Ltac no_limit_cases :=
  let e := fresh "e" in
  let H := fresh "H" in
  intros e H;
  repeat match type of H with
         | context [match ?x with _ => _ end] => destruct x
         end;
  try discriminate H; injection H as <-; discriminate.

Lemma no_limit_ok {A} (a : A) : no_limit (Ok a).
Proof. intros e [=]. Qed.

Lemma no_limit_in k c : no_limit (py_in k c).
Proof. unfold py_in. no_limit_cases. Qed.

Lemma no_limit_getitem c k : no_limit (py_getitem c k).
Proof. unfold py_getitem. no_limit_cases. Qed.

Lemma no_limit_get c k default : no_limit (py_get c k default).
Proof. unfold py_get. no_limit_cases. Qed.

Lemma no_limit_items c : no_limit (py_items c).
Proof. unfold py_items. no_limit_cases. Qed.

Lemma no_limit_iter c : no_limit (py_iter c).
Proof. unfold py_iter. no_limit_cases. Qed.

Lemma no_limit_rbind {A B} (r : result A) (k : A -> result B) :
  no_limit r -> (forall a, no_limit (k a)) -> no_limit (rbind r k).
Proof.
  intros Hr Hk. destruct r as [a|e]; simpl; [apply Hk|].
  intros e' [= <-]. exact (Hr e eq_refl).
Qed.

Lemma no_limit_parse_text nested_parse text :
  no_limit (_parse_text nested_parse text).
Proof. unfold _parse_text. no_limit_cases. Qed.

Lemma no_limit_kvpairs schema keys : no_limit (_kvpairs schema keys).
Proof.
  induction keys as [|kl keys IH]; [apply no_limit_ok|].
  rewrite kvpairs_cons.
  apply no_limit_rbind; [apply no_limit_in|]. intros present.
  apply no_limit_rbind.
  - destruct present; [|apply no_limit_ok].
    apply no_limit_rbind; [apply no_limit_getitem|].
    intros value. apply no_limit_ok.
  - intros here. apply no_limit_rbind; [exact IH|].
    intros more. apply no_limit_ok.
Qed.

Lemma no_limit_first_key table schema : no_limit (first_key table schema).
Proof.
  induction table as [|kl table IH]; [apply no_limit_ok|]. simpl.
  apply no_limit_rbind; [apply no_limit_in|].
  intros [|]; [apply no_limit_ok|exact IH].
Qed.

Create HintDb limit.
#[local] Hint Resolve no_limit_ok no_limit_in no_limit_getitem no_limit_get
  no_limit_items no_limit_iter no_limit_parse_text no_limit_kvpairs
  no_limit_first_key : limit.

(** *** What a schema holds is less deep than the schema *)

Lemma list_max_In (x : nat) (l : list nat) : In x l -> x <= list_max l.
Proof.
  induction l as [|y l IH]; intros [].
  - subst y. simpl. lia.
  - simpl. specialize (IH H). lia.
Qed.

Lemma depth_dict_get k d v :
  Dict.get k d = Some v -> depth v < depth (JObj d).
Proof.
  intros Hget.
  assert (Hin : In (depth v) (map (fun kv => depth (snd kv)) d)).
  { induction d as [|[k' v'] d IH]; [discriminate|]. simpl in *.
    destruct (String.eqb k k'); [injection Hget as ->; auto|auto]. }
  apply list_max_In in Hin. simpl. lia.
Qed.

Lemma depth_getitem c k v : py_getitem c k = Ok v -> depth v < depth c.
Proof.
  destruct c; try discriminate. simpl py_getitem.
  destruct (Dict.get k items) eqn:Hget; [|discriminate].
  intros [= <-]. exact (depth_dict_get _ _ _ Hget).
Qed.

Lemma depth_items c items kv :
  py_items c = Ok items -> In kv items -> depth (snd kv) < depth c.
Proof.
  destruct c; try discriminate. intros [= <-] Hin.
  assert (Hmax : In (depth (snd kv)) (map (fun kv => depth (snd kv)) items0)).
  { apply in_map_iff. eauto. }
  apply list_max_In in Hmax. simpl. lia.
Qed.

Lemma depth_iter c l x : py_iter c = Ok l -> In x l -> depth x <= depth c.
Proof.
  destruct c; try discriminate; intros [= <-] Hin.
  - apply in_map_iff in Hin as (c & <- & _). simpl. lia.
  - apply (in_map depth) in Hin. apply list_max_In in Hin. simpl. lia.
  - apply in_map_iff in Hin as (kv & <- & _). simpl. lia.
Qed.

(** *** The methods, on two versions of the recursive call *)

Lemma alike_create_target normalize_name schema :
  alike (_create_target normalize_name schema)
        (_create_target normalize_name schema).
Proof.
  unfold _create_target.
  apply alike_lift_bind; [auto with limit|]. intros targets _.
  apply alike_bind; [|intros ids; apply alike_ret].
  apply alike_fold_m. intros target _ ids.
  apply alike_lift_bind; [destruct target; no_limit_cases|]. intros anchor _.
  apply alike_bind; [apply alike_total; intros st; eexists _, _; reflexivity|].
  intros name.
  apply alike_bind; [apply alike_total; intros st; eexists _, _; reflexivity|].
  intros _.
  apply alike_lift_bind; [auto with limit|]. intros titled _.
  apply alike_bind.
  - destruct titled; [apply alike_lift; auto with limit|apply alike_ret].
  - intros title.
    apply alike_bind; [apply alike_total; intros st; eexists _, _; reflexivity|].
    intros _. apply alike_ret.
Qed.

Section Depth.

Variable nested_parse : list string -> list node.
Variable normalize_name : string -> string.

(** Two versions of [_dispatch] that are alike on every schema less deep
    than [n]. *)
Variables dispatch1 dispatch2 : json -> F content.
Variable n : nat.
Hypothesis below :
  forall x, depth x < n -> alike (dispatch1 x) (dispatch2 x).

Ltac deeper :=
  repeat match goal with
         | H : py_getitem _ _ = Ok _ |- _ => apply depth_getitem in H
         | H : py_items _ = Ok ?items, Hin : In _ ?items |- _ =>
             apply (depth_items _ _ _ H) in Hin
         | H : py_iter _ = Ok ?l, Hin : In _ ?l |- _ =>
             apply (depth_iter _ _ _ H) in Hin
         end;
  simpl in *; lia.

Lemma alike_dispatch_items l :
  (forall x, In x l -> depth x < n) ->
  alike (dispatch_items dispatch1 l) (dispatch_items dispatch2 l).
Proof.
  intros Hl. unfold dispatch_items.
  apply alike_bind; [|intros items; apply alike_ret].
  apply alike_fold_m. intros x Hx items.
  apply alike_bind; [apply below, Hl, Hx|]. intros c. apply alike_ret.
Qed.

Lemma alike_when_in key schema body add1 add2 :
  alike add1 add2 ->
  alike (when_in key schema body add1) (when_in key schema body add2).
Proof.
  intros Hadd. unfold when_in.
  apply alike_lift_bind; [auto with limit|]. intros [|] _; [|apply alike_ret].
  apply alike_bind; [exact Hadd|]. intros c. apply alike_ret.
Qed.

Lemma alike_object_properties schema prop_name :
  depth schema <= n ->
  alike (_process_object_properties dispatch1 schema prop_name)
        (_process_object_properties dispatch2 schema prop_name).
Proof.
  intros Hdepth. unfold _process_object_properties.
  apply alike_lift_bind; [auto with limit|]. intros props Hprops.
  apply alike_lift_bind; [auto with limit|]. intros items Hitems.
  apply alike_bind; [|intros body; apply alike_ret].
  apply alike_fold_m. intros kv Hkv body. unfold property_field.
  apply alike_lift_bind; [auto with limit|]. intros required _.
  apply alike_lift_bind; [auto with limit|]. intros is_required _.
  apply alike_bind; [apply below; deeper|]. intros type. apply alike_ret.
Qed.

Lemma alike_bool_or_object schema label clazz :
  depth schema < n ->
  alike (_bool_or_object dispatch1 schema label clazz)
        (_bool_or_object dispatch2 schema label clazz).
Proof.
  intros Hdepth. unfold _bool_or_object.
  destruct schema; try apply (below _ Hdepth). apply alike_ret.
Qed.

Lemma alike_process_definitions schema :
  depth schema <= n ->
  alike (_process_definitions dispatch1 schema)
        (_process_definitions dispatch2 schema).
Proof.
  intros Hdepth. unfold _process_definitions.
  apply alike_lift_bind; [auto with limit|]. intros items Hitems.
  apply alike_bind; [|intros fields; apply alike_ret].
  apply alike_fold_m. intros kv Hkv fields.
  apply alike_bind; [apply below; deeper|]. intros c. apply alike_ret.
Qed.

Lemma alike_process_combinator label schema :
  depth schema < n ->
  alike (_process_combinator dispatch1 label schema)
        (_process_combinator dispatch2 label schema).
Proof.
  intros Hdepth. unfold _process_combinator.
  apply alike_lift_bind; [auto with limit|]. intros subtypes Hiter.
  apply alike_bind; [|intros entries; apply alike_ret].
  apply alike_dispatch_items. intros x Hx. deeper.
Qed.

Lemma alike_process_singleobjects label schema :
  depth schema < n ->
  alike (_process_singleobjects dispatch1 label schema)
        (_process_singleobjects dispatch2 label schema).
Proof.
  intros Hdepth. unfold _process_singleobjects.
  apply alike_bind; [apply below, Hdepth|]. intros types. apply alike_ret.
Qed.

Lemma alike_process_reftype schema :
  depth schema <= n ->
  alike (_process_reftype nested_parse dispatch1 schema)
        (_process_reftype nested_parse dispatch2 schema).
Proof.
  intros Hdepth. unfold _process_reftype.
  apply alike_bind.
  { apply alike_when_in.
    apply alike_lift_bind; [auto with limit|]. intros text _.
    apply alike_lift_bind; [auto with limit|]. intros description _.
    apply alike_ret. }
  intros body.
  apply alike_lift_bind; [auto with limit|]. intros ref _.
  apply alike_lift_bind.
  { destruct ref; no_limit_cases. }
  intros reference _.
  apply alike_bind; [|intros body'; apply alike_ret].
  apply alike_when_in.
  apply alike_lift_bind; [auto with limit|]. intros definitions Hdefinitions.
  apply alike_bind; [|intros fields; apply alike_ret].
  apply alike_process_definitions. deeper.
Qed.

Lemma alike_process_type schema :
  depth schema <= n ->
  alike (_process_type nested_parse normalize_name dispatch1 schema)
        (_process_type nested_parse normalize_name dispatch2 schema).
Proof.
  intros Hdepth. unfold _process_type.
  apply alike_bind.
  { apply alike_when_in.
    apply alike_bind; [apply alike_create_target|]. intros target.
    apply alike_lift_bind; [auto with limit|]. intros names _.
    apply alike_ret. }
  intros body0.
  apply alike_bind.
  { apply alike_when_in.
    apply alike_lift_bind; [auto with limit|]. intros text _.
    apply alike_lift_bind; [auto with limit|]. intros description _.
    apply alike_ret. }
  intros body1.
  apply alike_bind.
  { apply alike_when_in.
    apply alike_lift_bind; [auto with limit|]. intros type _.
    apply alike_ret. }
  intros body2.
  apply alike_lift_bind; [auto with limit|]. intros type _.
  destruct (is_str_eq type "object"); [|destruct (is_str_eq type "array")].
  - apply alike_bind.
    { apply alike_when_in.
      apply alike_bind; [apply alike_object_properties, Hdepth|].
      intros fields. apply alike_ret. }
    intros body3.
    apply alike_bind.
    { apply alike_when_in.
      apply alike_bind; [apply alike_object_properties, Hdepth|].
      intros fields. apply alike_ret. }
    intros body4.
    apply alike_bind.
    { apply alike_when_in.
      apply alike_lift_bind; [auto with limit|]. intros value Hvalue.
      apply alike_bool_or_object. deeper. }
    intros body5.
    apply alike_lift_bind; [auto with limit|]. intros pairs _.
    apply alike_ret.
  - apply alike_bind.
    { apply alike_when_in.
      apply alike_lift_bind; [auto with limit|]. intros items Hitems.
      destruct items;
        try (apply alike_bind; [apply below; deeper|];
             intros item; apply alike_ret).
      apply alike_bind; [|intros enum_items; apply alike_ret].
      apply alike_dispatch_items. intros x Hx.
      apply depth_getitem in Hitems.
      apply (in_map depth) in Hx. apply list_max_In in Hx.
      simpl in Hitems. lia. }
    intros body3.
    apply alike_bind.
    { apply alike_when_in.
      apply alike_lift_bind; [auto with limit|]. intros value Hvalue.
      apply alike_bool_or_object. deeper. }
    intros body4.
    apply alike_lift_bind; [auto with limit|]. intros pairs _.
    apply alike_ret.
  - apply alike_bind.
    { apply alike_when_in.
      apply alike_lift_bind; [auto with limit|]. intros values _.
      apply alike_lift_bind; [auto with limit|]. intros values' _.
      apply alike_ret. }
    intros body3.
    apply alike_lift_bind; [auto with limit|]. intros pairs _.
    apply alike_ret.
Qed.

Lemma alike_dispatch_body schema :
  depth schema <= n ->
  alike (dispatch_body nested_parse normalize_name dispatch1 schema)
        (dispatch_body nested_parse normalize_name dispatch2 schema).
Proof.
  intros Hdepth. unfold dispatch_body.
  apply alike_lift_bind; [auto with limit|].
  intros [|] _; [apply alike_process_reftype, Hdepth|].
  apply alike_lift_bind; [auto with limit|].
  intros [|] _; [apply alike_process_type, Hdepth|].
  apply alike_lift_bind; [auto with limit|].
  intros [[k label]|] _.
  { apply alike_lift_bind; [auto with limit|]. intros alternatives Hget.
    apply alike_process_combinator. deeper. }
  apply alike_lift_bind; [auto with limit|].
  intros [[k label]|] _.
  { apply alike_lift_bind; [auto with limit|]. intros inner Hget.
    apply alike_process_singleobjects. deeper. }
  apply alike_lift_bind; [auto with limit|].
  intros [|] _; [|apply alike_ret].
  apply alike_bind; [apply alike_process_definitions, Hdepth|].
  intros fields. apply alike_ret.
Qed.

End Depth.

(** *** Fuel above the depth of the schema *)

Section Fuel.

Variable nested_parse : list string -> list node.
Variable normalize_name : string -> string.
Variable inline_text : Z -> string -> list node * list node.
Variable astext : list node -> string.
Variable implicit_ids : list node -> node -> list string.

Lemma dispatch_alike (k : nat) : forall schema fuel fuel',
  depth schema <= k -> k < fuel -> k < fuel' ->
  alike (_dispatch nested_parse normalize_name fuel schema)
        (_dispatch nested_parse normalize_name fuel' schema).
Proof.
  induction k as [|k IH]; intros schema [|fuel] [|fuel'] Hdepth Hfuel Hfuel';
    try lia; simpl.
  - apply alike_dispatch_body with (n := 0); [|exact Hdepth].
    intros x Hx. lia.
  - apply alike_dispatch_body with (n := S k); [|exact Hdepth].
    intros x Hx. apply IH; lia.
Qed.

Lemma wrap_in_section_within_limit schema table :
  within_limit (_wrap_in_section normalize_name inline_text astext
                  implicit_ids schema table).
Proof.
  assert (Hset : forall level,
            alike (set_section_level level) (set_section_level level)).
  { intros level. apply alike_total. intros st. eexists _, _. reflexivity. }
  assert (Hread : forall (A : Type) (f : host -> A),
            alike (reading (fun st => Ok (f st)))
                  (reading (fun st => Ok (f st)))).
  { intros A f. apply alike_total. intros st. eexists _, _. reflexivity. }
  enough (Halike : alike (_wrap_in_section normalize_name inline_text astext
                            implicit_ids schema table)
                         (_wrap_in_section normalize_name inline_text astext
                            implicit_ids schema table))
    by apply Halike.
  unfold _wrap_in_section.
  apply alike_lift_bind; [auto with limit|]. intros targeted _.
  apply alike_bind.
  { destruct targeted; [|apply alike_ret].
    apply alike_bind; [apply alike_create_target|].
    intros target. apply alike_ret. }
  intros result.
  apply alike_lift_bind; [auto with limit|]. intros [|] _; [|apply alike_ret].
  apply alike_bind; [apply Hread|]. intros mylevel.
  apply alike_bind; [apply Hset|]. intros _.
  apply alike_lift_bind; [auto with limit|]. intros title _.
  apply alike_bind.
  { split; [intros st; reflexivity|]. intros st st' e. unfold reading.
    destruct title; intros H; try discriminate H;
      injection H as _ <-; discriminate. }
  intros [textnodes title_messages].
  apply alike_bind; [apply Hread|]. intros noted.
  apply alike_bind.
  { apply alike_total. intros st. eexists _, _. reflexivity. }
  intros _.
  apply alike_bind; [apply Hset|]. intros _. apply alike_ret.
Qed.

(** With more fuel than the schema is deep, [_dispatch] does not run into
    the recursion limit, and neither does [transform]: whatever they raise
    is an exception of the formatting itself. *)
Theorem recursion_limit_not_reached (fuel : nat) (schema : json) :
  depth schema < fuel ->
  within_limit (_dispatch nested_parse normalize_name fuel schema) /\
  within_limit (transform nested_parse normalize_name inline_text astext
                  implicit_ids fuel schema).
Proof.
  intros Hfuel.
  assert (Hdispatch :
    within_limit (_dispatch nested_parse normalize_name fuel schema)).
  { apply (dispatch_alike (depth schema) schema fuel fuel); lia. }
  split; [exact Hdispatch|].
  intros st st' e. unfold transform, bind.
  destruct (_dispatch nested_parse normalize_name fuel schema st)
    as [st1 [body|e1]] eqn:Hrun.
  - apply wrap_in_section_within_limit.
  - intros [= <- <-]. exact (Hdispatch _ _ _ Hrun).
Qed.

(** Above the depth of the schema the amount of fuel makes no difference:
    the output, the exception and the host state are the same. *)
Theorem result_does_not_depend_on_fuel (fuel fuel' : nat) (schema : json)
    (st : host) :
  depth schema < fuel -> depth schema < fuel' ->
  _dispatch nested_parse normalize_name fuel schema st
  = _dispatch nested_parse normalize_name fuel' schema st /\
  transform nested_parse normalize_name inline_text astext implicit_ids
    fuel schema st
  = transform nested_parse normalize_name inline_text astext implicit_ids
      fuel' schema st.
Proof.
  intros Hfuel Hfuel'.
  assert (Hsame : forall st0,
    _dispatch nested_parse normalize_name fuel schema st0
    = _dispatch nested_parse normalize_name fuel' schema st0).
  { apply (dispatch_alike (depth schema) schema fuel fuel'); lia. }
  split; [apply Hsame|].
  unfold transform, bind. rewrite Hsame. reflexivity.
Qed.

End Fuel.

Lemma recursion_limit_not_reached_witness :
  let parse := fun lines : list string => map (fun l => Text (JStr l)) lines in
  let inline := fun (_ : Z) (t : string) => ([Text (JStr t)], @nil node) in
  let text := fun _ : list node => "point"%string in
  let ids := fun (_ : list node) (_ : node) => ["point"%string] in
  let schema :=
    JObj [("title", JStr "Point"); ("type", JStr "object");
          ("properties",
           JObj [("x", JObj [("type", JStr "number")]);
                 ("tags", JObj [("type", JStr "array");
                                ("items", JObj [("type", JStr "string")])])])] in
  depth schema = 4 /\
  within_limit (_dispatch parse (fun s => s) 5 schema) /\
  within_limit (transform parse (fun s => s) inline text ids 5 schema).
Proof.
  intros parse inline text ids schema. split; [reflexivity|].
  apply (recursion_limit_not_reached parse (fun s => s) inline text ids 5
           schema).
  vm_compute. lia.
Defined.

Lemma result_does_not_depend_on_fuel_witness :
  let st := {| section_level := 0; docname := "index"; labels := [];
               anonlabels := []; implicit_targets := [] |} in
  let parse := fun lines : list string => map (fun l => Text (JStr l)) lines in
  let inline := fun (_ : Z) (t : string) => ([Text (JStr t)], @nil node) in
  let text := fun _ : list node => "point"%string in
  let ids := fun (_ : list node) (_ : node) => ["point"%string] in
  let schema :=
    JObj [("title", JStr "Point"); ("type", JStr "object");
          ("properties",
           JObj [("x", JObj [("type", JStr "number")])])] in
  _dispatch parse (fun s => s) 4 schema st
  = _dispatch parse (fun s => s) 1000 schema st /\
  transform parse (fun s => s) inline text ids 4 schema st
  = transform parse (fun s => s) inline text ids 1000 schema st.
Proof.
  intros st parse inline text ids schema.
  apply (result_does_not_depend_on_fuel parse (fun s => s) inline text ids
           4 1000 schema st); vm_compute; lia.
Defined.

(** ** Keys beside [type] *)

Lemma agree_refl {A} (m : F A) : agree m m.
Proof. intros st. reflexivity. Qed.

Lemma agree_bind {A B} (m1 m2 : F A) (k1 k2 : A -> F B) :
  agree m1 m2 -> (forall a, agree (k1 a) (k2 a)) ->
  agree (bind m1 k1) (bind m2 k2).
Proof.
  intros Hm Hk st. unfold bind. rewrite (Hm st).
  destruct (m2 st) as [st1 [a|e]]; [apply Hk|reflexivity].
Qed.

Lemma agree_lift {A} (r1 r2 : result A) : r1 = r2 -> agree (lift r1) (lift r2).
Proof. intros ->. apply agree_refl. Qed.

Lemma agree_fold_m {A B} (f1 f2 : B -> A -> F B) (l : list A) :
  (forall acc x, agree (f1 acc x) (f2 acc x)) ->
  forall acc, agree (fold_m f1 l acc) (fold_m f2 l acc).
Proof.
  intros Hf. induction l as [|x l IH]; intros acc; simpl.
  - apply agree_refl.
  - apply agree_bind; [apply Hf|exact IH].
Qed.

Lemma dict_get_del_ne {V} (a k : string) (d : list (string * V)) :
  a <> k -> Dict.get a (Dict.del k d) = Dict.get a d.
Proof.
  intros Hne. induction d as [|[k' v'] d IH]; simpl; [reflexivity|].
  destruct (String.eqb k k') eqn:Hk; simpl.
  - apply String.eqb_eq in Hk. subst k'.
    apply String.eqb_neq in Hne. rewrite Hne. exact IH.
  - rewrite IH. reflexivity.
Qed.

Lemma agree_lift_ok {A B} (a : A) (k1 k2 : A -> F B) :
  agree (k1 a) (k2 a) ->
  agree (bind (lift (Ok a)) k1) (bind (lift (Ok a)) k2).
Proof. intros Hk st. unfold bind, lift. apply Hk. Qed.

Section Unread.

Variable nested_parse : list string -> list node.
Variable normalize_name : string -> string.
Variable dispatch : json -> F content.

(** A typed mapping and a key that none of the lookups for its type asks
    for. *)
Variable d : list (string * json).
Variable k : string.
Variable type : json.
Hypothesis typed : Dict.get "type" d = Some type.
Hypothesis unread : existsb (String.eqb k) (keys_of_type type) = false.

Lemma read_key_differs (a : string) :
  existsb (String.eqb a) (keys_of_type type) = true -> a <> k.
Proof. intros Ha ->. congruence. Qed.

Lemma py_in_del a :
  existsb (String.eqb a) (keys_of_type type) = true ->
  py_in a (JObj (Dict.del k d)) = py_in a (JObj d).
Proof.
  intros Ha. simpl. unfold Dict.mem.
  rewrite (dict_get_del_ne a k d (read_key_differs a Ha)). reflexivity.
Qed.

Lemma py_getitem_del a :
  existsb (String.eqb a) (keys_of_type type) = true ->
  py_getitem (JObj (Dict.del k d)) a = py_getitem (JObj d) a.
Proof.
  intros Ha. simpl.
  rewrite (dict_get_del_ne a k d (read_key_differs a Ha)). reflexivity.
Qed.

Lemma py_get_del a default :
  existsb (String.eqb a) (keys_of_type type) = true ->
  py_get (JObj (Dict.del k d)) a default = py_get (JObj d) a default.
Proof.
  intros Ha. simpl.
  rewrite (dict_get_del_ne a k d (read_key_differs a Ha)). reflexivity.
Qed.

Lemma kvpairs_del keys :
  forallb (fun kl => existsb (String.eqb (fst kl)) (keys_of_type type)) keys
  = true ->
  _kvpairs (JObj (Dict.del k d)) keys = _kvpairs (JObj d) keys.
Proof.
  induction keys as [|kl keys IH]; [reflexivity|]. simpl forallb.
  intros [Hkl Hkeys]%andb_true_iff.
  rewrite !kvpairs_cons, (py_in_del _ Hkl), (py_getitem_del _ Hkl), (IH Hkeys).
  reflexivity.
Qed.

(** The key is one that the type reads, given what is known of the type. *)
Ltac is_read :=
  unfold keys_of_type;
  repeat match goal with
         | H : is_str_eq type _ = _ |- _ => rewrite H
         end;
  reflexivity.

Ltac same_lookup :=
  apply agree_lift;
  first [ apply py_in_del | apply py_getitem_del | apply py_get_del
        | apply kvpairs_del ];
  is_read.

Lemma when_in_del a body add1 add2 :
  existsb (String.eqb a) (keys_of_type type) = true ->
  agree add1 add2 ->
  agree (when_in a (JObj (Dict.del k d)) body add1)
        (when_in a (JObj d) body add2).
Proof.
  intros Ha Hadd. unfold when_in. rewrite (py_in_del a Ha).
  apply agree_bind; [apply agree_refl|].
  intros [|]; [|apply agree_refl].
  apply agree_bind; [exact Hadd|]. intros c. apply agree_refl.
Qed.

Lemma create_target_del :
  agree (_create_target normalize_name (JObj (Dict.del k d)))
        (_create_target normalize_name (JObj d)).
Proof.
  unfold _create_target.
  apply agree_bind; [same_lookup|]. intros targets.
  apply agree_bind; [|intros ids; apply agree_refl].
  apply agree_fold_m. intros ids target.
  apply agree_bind; [apply agree_refl|]. intros anchor.
  apply agree_bind; [apply agree_refl|]. intros name.
  apply agree_bind; [apply agree_refl|]. intros _.
  apply agree_bind; [same_lookup|]. intros [|].
  - apply agree_bind; [same_lookup|]. intros title. apply agree_refl.
  - apply agree_refl.
Qed.

Lemma object_properties_del a :
  is_str_eq type "object" = true ->
  existsb (String.eqb a) (keys_of_type type) = true ->
  agree (_process_object_properties dispatch (JObj (Dict.del k d)) a)
        (_process_object_properties dispatch (JObj d) a).
Proof.
  intros Hobject Ha. unfold _process_object_properties.
  apply agree_bind; [apply agree_lift, py_getitem_del, Ha|]. intros props.
  apply agree_bind; [apply agree_refl|]. intros items.
  apply agree_bind; [|intros body; apply agree_refl].
  apply agree_fold_m. intros body kv. unfold property_field.
  apply agree_bind; [same_lookup|]. intros required. apply agree_refl.
Qed.

Lemma process_type_del :
  agree (_process_type nested_parse normalize_name dispatch
           (JObj (Dict.del k d)))
        (_process_type nested_parse normalize_name dispatch (JObj d)).
Proof.
  unfold _process_type.
  apply agree_bind.
  { apply when_in_del; [is_read|].
    apply agree_bind; [apply create_target_del|]. intros target.
    apply agree_bind; [same_lookup|]. intros names. apply agree_refl. }
  intros body0.
  apply agree_bind.
  { apply when_in_del; [is_read|].
    apply agree_bind; [same_lookup|]. intros text. apply agree_refl. }
  intros body1.
  apply agree_bind.
  { apply when_in_del; [is_read|].
    apply agree_bind; [same_lookup|]. intros value. apply agree_refl. }
  intros body2.
  rewrite (py_get_del "type" JNull) by is_read.
  assert (Hget : py_get (JObj d) "type" JNull = Ok type).
  { simpl. rewrite typed. reflexivity. }
  rewrite Hget. apply agree_lift_ok.
  destruct (is_str_eq type "object") eqn:Hobject;
    [|destruct (is_str_eq type "array") eqn:Harray].
  - apply agree_bind.
    { apply when_in_del; [is_read|].
      apply agree_bind; [apply object_properties_del; [exact Hobject|is_read]|].
      intros fields. apply agree_refl. }
    intros body3.
    apply agree_bind.
    { apply when_in_del; [is_read|].
      apply agree_bind; [apply object_properties_del; [exact Hobject|is_read]|].
      intros fields. apply agree_refl. }
    intros body4.
    apply agree_bind.
    { apply when_in_del; [is_read|].
      apply agree_bind; [same_lookup|]. intros value. apply agree_refl. }
    intros body5.
    apply agree_bind; [same_lookup|]. intros pairs. apply agree_refl.
  - apply agree_bind.
    { apply when_in_del; [is_read|].
      apply agree_bind; [same_lookup|]. intros items. apply agree_refl. }
    intros body3.
    apply agree_bind.
    { apply when_in_del; [is_read|].
      apply agree_bind; [same_lookup|]. intros value. apply agree_refl. }
    intros body4.
    apply agree_bind; [same_lookup|]. intros pairs. apply agree_refl.
  - apply agree_bind.
    { apply when_in_del; [is_read|].
      apply agree_bind; [same_lookup|]. intros values. apply agree_refl. }
    intros body3.
    apply agree_bind; [same_lookup|]. intros pairs. apply agree_refl.
Qed.

End Unread.

(** A mapping with [type] and without [$ref] is formatted by
    [_process_type] alone.  It looks up the common keys and the keys of the
    branch that the type selects, [keys_of_type]; any other key of the
    schema leaves no trace in the output, and the schema without that key
    gives the same result.  So [allOf], [anyOf], [oneOf], [not] and
    [definitions] are not shown beside a type, nor [enum], [default] or
    [format] beside the types [object] and [array]. *)
Theorem keys_not_of_the_type_are_ignored
    (nested_parse : list string -> list node)
    (normalize_name : string -> string)
    (fuel : nat) (d : list (string * json)) (k : string) (type : json)
    (st : host) :
  Dict.mem "$ref" d = false ->
  Dict.get "type" d = Some type ->
  existsb (String.eqb k) (keys_of_type type) = false ->
  _dispatch nested_parse normalize_name fuel (JObj (Dict.del k d)) st
  = _dispatch nested_parse normalize_name fuel (JObj d) st.
Proof.
  intros Href Htype Hk. destruct fuel as [|fuel]; [reflexivity|].
  simpl. unfold dispatch_body.
  rewrite (py_in_del d k type Hk "$ref" eq_refl),
    (py_in_del d k type Hk "type" eq_refl).
  assert (Hmem : Dict.mem "type" d = true).
  { unfold Dict.mem. rewrite Htype. reflexivity. }
  simpl py_in. rewrite Href, Hmem.
  unfold bind at 1, lift at 1. unfold bind at 1, lift at 1.
  unfold bind at 1, lift at 1. unfold bind at 1, lift at 1.
  apply (process_type_del nested_parse normalize_name _ d k type Htype Hk).
Qed.

Lemma keys_not_of_the_type_are_ignored_witness :
  let st := {| section_level := 0; docname := "index"; labels := [];
               anonlabels := []; implicit_targets := [] |} in
  let parse := fun lines : list string => map (fun l => Text (JStr l)) lines in
  let properties := JObj [("name", JObj [("type", JStr "string")])] in
  let d := [("type", JStr "object");
            ("allOf", JArr [JObj [("required", JArr [JStr "name"])]]);
            ("properties", properties);
            ("default", JObj [("name", JStr "nobody")])] in
  _dispatch parse (fun s => s) 3
    (JObj [("type", JStr "object"); ("properties", properties);
           ("default", JObj [("name", JStr "nobody")])]) st
  = _dispatch parse (fun s => s) 3 (JObj d) st /\
  _dispatch parse (fun s => s) 3
    (JObj [("type", JStr "object");
           ("allOf", JArr [JObj [("required", JArr [JStr "name"])]]);
           ("properties", properties)]) st
  = _dispatch parse (fun s => s) 3 (JObj d) st.
Proof.
  intros st parse properties d. split.
  - apply (keys_not_of_the_type_are_ignored parse (fun s => s) 3 d "allOf"
             (JStr "object") st); reflexivity.
  - apply (keys_not_of_the_type_are_ignored parse (fun s => s) 3 d "default"
             (JStr "object") st); reflexivity.
Defined.

(** ** Schemas without [type] *)

(** [_dispatch] formats a mapping only under one of the keys it tests:
    [$ref], [type], a combinator, [not] or [definitions].  A mapping with
    none of them gives the empty list and no error, whatever else it holds:
    a [description], an [enum] or [properties] without [type] are not
    shown. *)
Theorem untyped_schema_formats_to_nothing
    (nested_parse : list string -> list node)
    (normalize_name : string -> string)
    (fuel : nat) (d : list (string * json)) (st : host) :
  forallb (fun k => negb (Dict.mem k d))
    (["$ref"; "type"] ++ map fst COMBINATORS ++ map fst SINGLEOBJECTS
       ++ ["definitions"]) = true ->
  _dispatch nested_parse normalize_name (S fuel) (JObj d) st
  = (st, Ok (Many [])).
Proof.
  simpl forallb. rewrite !andb_true_iff, !negb_true_iff.
  intros (Href & Htype & HallOf & HanyOf & HoneOf & Hnot & Hdefinitions & _).
  simpl. unfold dispatch_body, bind, lift. simpl.
  rewrite Href, Htype, HallOf, HanyOf, HoneOf. simpl.
  rewrite Hnot. simpl. rewrite Hdefinitions. reflexivity.
Qed.

Lemma untyped_schema_formats_to_nothing_witness :
  let st := {| section_level := 0; docname := "index"; labels := [];
               anonlabels := []; implicit_targets := [] |} in
  let parse := fun lines : list string => map (fun l => Text (JStr l)) lines in
  let d := [("description", JStr "The colour of the item.");
            ("enum", JArr [JStr "red"; JStr "green"]);
            ("properties", JObj [("name", JObj [("type", JStr "string")])])] in
  _dispatch parse (fun s => s) 1 (JObj d) st = (st, Ok (Many [])).
Proof.
  intros st parse d.
  apply (untyped_schema_formats_to_nothing parse (fun s => s) 0 d st).
  reflexivity.
Defined.

(** ** Keys beside [$ref] *)

Section BesideRef.

Variable nested_parse : list string -> list node.
Variable dispatch : json -> F content.
Variable d : list (string * json).
Variable k : string.

Lemma py_in_del_ne a :
  a <> k -> py_in a (JObj (Dict.del k d)) = py_in a (JObj d).
Proof.
  intros Ha. simpl. unfold Dict.mem. rewrite (dict_get_del_ne a k d Ha).
  reflexivity.
Qed.

Lemma py_getitem_del_ne a :
  a <> k -> py_getitem (JObj (Dict.del k d)) a = py_getitem (JObj d) a.
Proof.
  intros Ha. simpl. rewrite (dict_get_del_ne a k d Ha). reflexivity.
Qed.

Lemma when_in_del_ne a body add :
  a <> k ->
  agree (when_in a (JObj (Dict.del k d)) body add)
        (when_in a (JObj d) body add).
Proof.
  intros Ha. unfold when_in. rewrite (py_in_del_ne a Ha). apply agree_refl.
Qed.

Lemma process_reftype_del :
  "$ref"%string <> k -> "description"%string <> k ->
  "definitions"%string <> k ->
  agree (_process_reftype nested_parse dispatch (JObj (Dict.del k d)))
        (_process_reftype nested_parse dispatch (JObj d)).
Proof.
  intros Href Hdescription Hdefinitions. unfold _process_reftype.
  rewrite (py_getitem_del_ne _ Href), (py_getitem_del_ne _ Hdescription),
    (py_getitem_del_ne _ Hdefinitions).
  apply agree_bind; [apply when_in_del_ne, Hdescription|]. intros body.
  apply agree_bind; [apply agree_refl|]. intros ref.
  apply agree_bind; [apply agree_refl|]. intros reference.
  apply agree_bind; [apply when_in_del_ne, Hdefinitions|]. intros body'.
  apply agree_refl.
Qed.

End BesideRef.

(** A schema with [$ref] is formatted by [_process_reftype] alone, which
    reads [description], [$ref] and [definitions]: every other key beside
    the reference, [type] and [title] among them, leaves no trace in the
    output. *)
Theorem keys_beside_ref_are_ignored
    (nested_parse : list string -> list node)
    (normalize_name : string -> string)
    (fuel : nat) (d : list (string * json)) (k : string) (st : host) :
  Dict.mem "$ref" d = true ->
  existsb (String.eqb k) ["$ref"; "description"; "definitions"] = false ->
  _dispatch nested_parse normalize_name fuel (JObj (Dict.del k d)) st
  = _dispatch nested_parse normalize_name fuel (JObj d) st.
Proof.
  intros Href Hk. destruct fuel as [|fuel]; [reflexivity|].
  simpl in Hk. rewrite !orb_false_iff in Hk.
  destruct Hk as (Hk1 & Hk2 & Hk3 & _).
  apply String.eqb_neq in Hk1, Hk2, Hk3.
  assert (H1 : "$ref"%string <> k) by congruence.
  assert (H2 : "description"%string <> k) by congruence.
  assert (H3 : "definitions"%string <> k) by congruence.
  simpl. unfold dispatch_body.
  rewrite (py_in_del_ne d k "$ref" H1). simpl py_in. rewrite Href.
  unfold bind at 1, lift at 1. unfold bind at 1, lift at 1.
  apply process_reftype_del; assumption.
Qed.

Lemma keys_beside_ref_are_ignored_witness :
  let st := {| section_level := 0; docname := "index"; labels := [];
               anonlabels := []; implicit_targets := [] |} in
  let parse := fun lines : list string => map (fun l => Text (JStr l)) lines in
  let d := [("$ref", JStr "#/definitions/name"); ("type", JStr "string");
            ("description", JStr "A name.")] in
  _dispatch parse (fun s => s) 2
    (JObj [("$ref", JStr "#/definitions/name");
           ("description", JStr "A name.")]) st
  = _dispatch parse (fun s => s) 2 (JObj d) st.
Proof.
  intros st parse d.
  apply (keys_beside_ref_are_ignored parse (fun s => s) 2 d "type" st);
    reflexivity.
Defined.

(** ** Required properties *)

Section Required.

Variable dispatch : json -> F content.

(** The field of one property: its class and its inner field [Required]
    follow the membership test. *)
Let marked (required : json) (kv : string * json) (field : node) : Prop :=
  exists (b : bool) (type : content),
    py_in (fst kv) required = Ok b /\
    field = _create_field (fst kv)
              ("jsonschema-property"
                 ++ (if b then " jsonschema-required" else ""))
              (One (field_list
                      [_create_field "Required" "jsonschema-required"
                         (One (paragraph (JStr (if b then "Yes" else "No"))));
                       _create_field "Type" "jsonschema-type" type])).

Lemma property_fields_marked d required items :
  py_get (JObj d) "required" (JArr []) = Ok required ->
  forall body st st' body',
    fold_m (property_field dispatch (JObj d)) items body st = (st', Ok body') ->
    exists new, body' = body ++ new /\ Forall2 (marked required) items new.
Proof.
  intros Hrequired.
  induction items as [|kv items IH]; intros body st st' body'; simpl.
  - intros [= <- <-]. exists []. split; [symmetry; apply app_nil_r|constructor].
  - unfold bind at 1.
    destruct (property_field dispatch (JObj d) body kv st)
      as [st1 [body1|]] eqn:Hstep; [|discriminate].
    intros Hrest. apply IH in Hrest as (new & -> & Hall).
    unfold property_field in Hstep. rewrite Hrequired in Hstep.
    unfold bind, lift, ret in Hstep.
    destruct (py_in (fst kv) required) as [b|] eqn:Hin; [|discriminate].
    destruct (dispatch (snd kv) st) as [st2 [type|]]; [|discriminate].
    injection Hstep as <- <-.
    eexists (_ :: new). split; [rewrite <- app_assoc; reflexivity|].
    constructor; [|exact Hall]. exists b, type. split; [exact Hin|reflexivity].
Qed.

(** [_process_object_properties] gives one field per property, in the
    order of the mapping.  A property is marked as required, in the class of
    its field and with [Yes] in its inner field [Required], exactly when [in]
    finds its name in the value of [required]; a schema without [required]
    marks none. *)
Theorem required_properties_are_marked (d : list (string * json))
    (prop_name : string) (st st' : host) (out : node) :
  _process_object_properties dispatch (JObj d) prop_name st = (st', Ok out) ->
  exists props fields,
    Dict.get prop_name d = Some (JObj props) /\
    out = field_list fields /\
    Forall2
      (fun kv field =>
         exists (b : bool) (type : content),
           py_in (fst kv)
             match Dict.get "required" d with
             | Some required => required
             | None => JArr []
             end = Ok b /\
           (Dict.get "required" d = None -> b = false) /\
           field = _create_field (fst kv)
                     ("jsonschema-property"
                        ++ (if b then " jsonschema-required" else ""))
                     (One (field_list
                             [_create_field "Required" "jsonschema-required"
                                (One (paragraph
                                        (JStr (if b then "Yes" else "No"))));
                              _create_field "Type" "jsonschema-type" type])))
      props fields.
Proof.
  unfold _process_object_properties. unfold bind at 1, lift at 1.
  simpl py_getitem.
  destruct (Dict.get prop_name d) as [props|] eqn:Hprops; [|discriminate].
  unfold bind at 1, lift at 1.
  destruct props as [ |b|n|s|items|props|doc]; simpl py_items;
    try discriminate.
  unfold bind at 1.
  destruct (fold_m (property_field dispatch (JObj d)) props [] st)
    as [st1 [body|]] eqn:Hfold; [|discriminate].
  unfold ret. intros [= <- <-].
  apply (property_fields_marked d
           match Dict.get "required" d with
           | Some required => required
           | None => JArr []
           end) in Hfold as (new & -> & Hall).
  - exists props, new. split; [reflexivity|]. split; [reflexivity|].
    eapply Forall2_impl; [exact Hall|].
    intros kv field (b & type & Hin & ->). exists b, type.
    split; [exact Hin|]. split; [|reflexivity].
    intros Hnone. rewrite Hnone in Hin. simpl in Hin. congruence.
  - simpl. destruct (Dict.get "required" d); reflexivity.
Qed.

End Required.

Lemma required_properties_are_marked_witness :
  let st := {| section_level := 0; docname := "index"; labels := [];
               anonlabels := []; implicit_targets := [] |} in
  let parse := fun lines : list string => map (fun l => Text (JStr l)) lines in
  let dispatch := _dispatch parse (fun s => s) 2 in
  let d := [("type", JStr "object"); ("required", JArr [JStr "name"]);
            ("properties",
             JObj [("name", JObj [("type", JStr "string")]);
                   ("age", JObj [("type", JStr "integer")])])] in
  exists out fields,
    _process_object_properties dispatch (JObj d) "properties" st
    = (st, Ok out) /\
    out = field_list fields /\
    map node_classes fields
    = [["jsonschema-property jsonschema-required"]; ["jsonschema-property"]].
Proof.
  intros st parse dispatch d. eexists.
  destruct (required_properties_are_marked dispatch d "properties" st st
              _ eq_refl) as (props & fields & Hprops & Hout & Hall).
  exists fields. split; [reflexivity|]. split; [exact Hout|].
  injection Hout as <-. reflexivity.
Defined.

(** ** A directive without argument and content *)

Section EmptyDirective.

Variable yaml_load : string -> result json.
Variable json_loads : string -> result json.
Variable directive_error : exc -> option exc.
Variable requests_get : string -> result string.
Variable open_file : string -> result string.
Variable nested_parse : list string -> list node.
Variable normalize_name : string -> string.
Variable inline_text : Z -> string -> list node * list node.
Variable astext : list node -> string.
Variable implicit_ids : list node -> node -> list string.

(** Line 123 calls [self.error] and does not raise what it returns.  When
    the call raises by itself, the directive stops there and no parser is
    asked.  When it returns, as the [error] of docutils does, the empty text
    goes to the YAML parser; that parser gives [None] for it, which becomes
    the schema, and [run] then fails in [_dispatch] with the TypeError of
    ['$ref' in None]: the message of line 123 is never reported. *)
Theorem empty_directive_is_parsed (opts : options) (w : world) :
  let requires :=
    PyException
      "JSONSCHEMA requires either filename, http url or inline content" in
  let init :=
    JsonSchema_init yaml_load json_loads directive_error requests_get
      open_file [] opts [] w in
  (forall e, directive_error requires = Some e ->
     init = ({| store := store w; calls := calls w ++ [ErrorCall requires] |},
             Raise e)) /\
  (directive_error requires = None ->
   yaml_load "" = Ok JNull ->
   hide opts = None ->
   init = ({| store := store w;
              calls := calls w ++ [ErrorCall requires; YamlLoad ""] |},
           Ok VNull) /\
   forall fuel h st,
     run nested_parse normalize_name inline_text astext implicit_ids
       (S fuel) h VNull st = (st, Raise TypeError)).
Proof.
  intros requires init. split.
  - intros e He. unfold init, JsonSchema_init.
    unfold bind at 1. unfold bind at 1.
    unfold on_calls, _load_internal, bind, error_call, emit. fold requires.
    rewrite He. reflexivity.
  - intros Hreturns Hyaml Hhide. split.
    + unfold init, JsonSchema_init.
      unfold bind at 1. unfold bind at 1.
      assert (Hload :
        on_calls (_load_internal yaml_load json_loads directive_error [])
          w = ({| store := store w;
                  calls := calls w ++ [ErrorCall requires; YamlLoad ""] |},
               Ok JNull)).
      { unfold on_calls, _load_internal. unfold bind at 1.
        unfold error_call, bind, emit. fold requires. rewrite Hreturns.
        unfold ret. cbn [Str.join]. rewrite ordered_load_cases.
        cbn [stream_text]. rewrite Hyaml, <- app_assoc. reflexivity. }
      rewrite Hload. unfold on_store, apply_visibility. rewrite Hhide.
      reflexivity.
    + intros fuel h st. unfold run. destruct h; reflexivity.
Qed.

End EmptyDirective.

Lemma empty_directive_is_parsed_witness :
  let parse := fun lines : list string => map (fun l => Text (JStr l)) lines in
  let inline := fun (_ : Z) (t : string) => ([Text (JStr t)], @nil node) in
  let text := fun _ : list node => "schema"%string in
  let ids := fun (_ : list node) (_ : node) => @nil string in
  let st := {| section_level := 0; docname := "index"; labels := [];
               anonlabels := []; implicit_targets := [] |} in
  fst (JsonSchema_init (fun _ => Ok JNull) (fun _ => Raise ValueError)
         (fun _ => None) (fun _ => Raise ValueError) (fun _ => Raise ValueError)
         [] {| hide := None; show := None |} []
         {| store := []; calls := [] |})
  = {| store := [];
       calls := [ErrorCall
                   (PyException
                      "JSONSCHEMA requires either filename, http url or inline content");
                 YamlLoad ""] |} /\
  run parse (fun s => s) inline text ids 1000 [] VNull st
  = (st, Raise TypeError).
Proof.
  intros parse inline text ids st.
  destruct (empty_directive_is_parsed (fun _ => Ok JNull)
              (fun _ => Raise ValueError) (fun _ => None)
              (fun _ => Raise ValueError) (fun _ => Raise ValueError)
              parse (fun s => s) inline text ids
              {| hide := None; show := None |}
              {| store := []; calls := [] |}) as [_ Hreturns].
  destruct (Hreturns eq_refl eq_refl eq_refl) as [Hinit Hrun].
  split; [rewrite Hinit; reflexivity|apply Hrun].
Defined.

(** ** Definitions *)

Section Definitions.

Variable dispatch : json -> F content.

Let defined (kv : string * json) (field : node) : Prop :=
  exists st1 st2 c,
    dispatch (snd kv) st1 = (st2, Ok c) /\
    field = _create_field (fst kv) "jsonschema-definition" c.

Lemma definition_fields items : forall fields st st' fields',
  fold_m (fun fields kv =>
            let* c := dispatch (snd kv) in
            ret (fields ++ [_create_field (fst kv)
                              "jsonschema-definition" c]))
    items fields st = (st', Ok fields') ->
  exists new, fields' = fields ++ new /\ Forall2 defined items new.
Proof.
  induction items as [|kv items IH]; intros fields st st' fields'; simpl.
  - intros [= <- <-]. exists []. split; [symmetry; apply app_nil_r|constructor].
  - unfold bind at 1. unfold bind at 1.
    destruct (dispatch (snd kv) st) as [st1 [c|]] eqn:Hkv; [|discriminate].
    unfold ret at 1. intros Hrest.
    apply IH in Hrest as (new & -> & Hall).
    eexists (_ :: new). split; [rewrite <- app_assoc; reflexivity|].
    constructor; [|exact Hall]. exists st, st1, c. auto.
Qed.

(** [_process_definitions] on the mapping of the definitions, as
    [_process_reftype] calls it: one field per definition, in the order of
    the mapping, labelled with the name of the definition and holding what
    [_dispatch] returned for it. *)
Theorem definitions_one_field_per_name (items : list (string * json))
    (st st' : host) (out : node) :
  _process_definitions dispatch (JObj items) st = (st', Ok out) ->
  exists fields,
    out = field_list fields /\
    map field_label fields = map (fun kv => JStr (fst kv)) items /\
    Forall2 (fun kv field =>
               exists st1 st2 c,
                 dispatch (snd kv) st1 = (st2, Ok c) /\
                 field = _create_field (fst kv) "jsonschema-definition" c)
      items fields.
Proof.
  unfold _process_definitions. simpl py_items.
  unfold bind at 1, lift at 1. unfold bind at 1.
  match goal with
  | |- context [fold_m ?f items [] st] =>
      destruct (fold_m f items [] st) as [st1 [fields|]] eqn:Hfold;
        [|discriminate]
  end.
  unfold ret. intros [= <- <-].
  apply definition_fields in Hfold as (new & -> & Hall).
  exists new. split; [reflexivity|]. split; [|exact Hall].
  clear - Hall. induction Hall as [|kv field items new Hkv Hall IH];
    [reflexivity|].
  destruct Hkv as (st1 & st2 & c & _ & ->). simpl.
  rewrite field_label_create_field, IH. reflexivity.
Qed.

End Definitions.

Lemma definitions_one_field_per_name_witness :
  let st := {| section_level := 0; docname := "index"; labels := [];
               anonlabels := []; implicit_targets := [] |} in
  let parse := fun lines : list string => map (fun l => Text (JStr l)) lines in
  let dispatch := _dispatch parse (fun s => s) 2 in
  let items := [("name", JObj [("type", JStr "string")]);
                ("age", JObj [("type", JStr "integer")])] in
  exists out fields,
    _process_definitions dispatch (JObj items) st = (st, Ok out) /\
    out = field_list fields /\
    map field_label fields = [JStr "name"; JStr "age"].
Proof.
  intros st parse dispatch items. eexists.
  destruct (definitions_one_field_per_name dispatch items st st _ eq_refl)
    as (fields & Hout & Hlabels & _).
  exists fields. split; [reflexivity|]. split; [exact Hout|exact Hlabels].
Defined.

(** ** An empty shown path *)

(** The value of [show] is cut at every space too (line 67).  An empty path
    has no parts: the loop of lines 73-91 does nothing and [current_parent]
    is the schema itself.  On a mapping the right-hand side of line 96 is
    evaluated and [ptr.parts[-1]] then raises IndexError, the store as it
    was; on a list line 94 appends the whole snapshot to the schema. *)
Theorem show_path_empty (orig_schema : value) (a : nat) (h : heap) :
  match h !! a with
  | Some (CDict _) =>
      show_path orig_schema (VRef a) "" h = (h, Raise IndexError)
  | Some (CList l) =>
      show_path orig_schema (VRef a) "" h
      = (<[a := CList (l ++ [orig_schema])]> h, Ok tt)
  | None => exists e, show_path orig_schema (VRef a) "" h = (h, Raise e)
  end.
Proof.
  unfold show_path, bind, lift. simpl.
  unfold show_attach, ret, is_MutableSequence, is_MutableMapping, is_Mapping.
  destruct (h !! a) as [[l|d]|] eqn:Hcell.
  - unfold bind, reading, append. simpl. rewrite Hcell. reflexivity.
  - reflexivity.
  - eauto.
Qed.
